(** * OpenSim SimulationUtilities: replaying a trajectory through a model

    A shallow embedding of [OpenSim/Simulation/SimulationUtilities.h]:
    the template function [analyze] (the only function whose body lives in
    the header) together with the helpers the header only declares
    ([createSystemControlIndexMap], [checkOrderSystemControls],
    [createStateVariableNamesInSystemOrder], [createSystemYIndexMap],
    [createSyntheticIMUAccelerationSignals]).

    Conventions.
    - A C++ [double] is an abstract type [double] with a distinguished
      [0.0]; [analyze] only copies such values, so nothing else is needed.
      The IMU post-processing does arithmetic and is stated over [Q].
    - [std::unordered_map<std::string,int>] is a [gmap string nat]; an
      [std::vector] and a [SimTK::Vector] are lists.
    - A C++ exception is a value of [Error]; code that can throw runs in the
      monad [M], which also threads the calls made on the model, the state
      and the reporter as a chronological [trace].
    - The dynamics engine (Simbody) and the [std::regex] constructor are
      outside the header; they are the fields of the class [Platform].
      Functions of OpenSim that the header declares or calls without
      defining them are modelled from the specification. *)

From Stdlib Require Import Ascii QArith.
From Stdlib Require Import Permutation.
From stdpp Require Import base strings gmap list pretty.
Close Scope Q_scope.

(** ** Exceptions *)

(** Which of the two row-count checks of [analyze] failed. *)
Inductive RowCountCheck :=
  | StatesVsControls     (* lines 267-272 *)
  | DiscreteVsStates.    (* lines 279-285 *)

(** What an [OpenSim::Exception] says. *)
Inductive Message :=
  (* "Expected ... to contain the same number of rows ...", with the two
     row counts the message prints (lines 267-272 and 279-285) *)
  | RowCountMessage (which : RowCountCheck) (n1 n2 : nat)
  (* createSystemControlIndexMap: the actuators are not in the order of
     the controls, "an internal error" (lines 174-177) *)
  | ControlOrderMessage
  (* model.getComponent(path): no such component *)
  | ComponentNotFoundMessage (path : string)
  (* table.getRowAtIndex(i): the table has no such row *)
  | RowIndexOutOfRangeMessage (i numRows : nat)
  (* table.getDependentColumn(label): the table has no such column *)
  | KeyNotFoundMessage (key : string)
  (* anything a collaborator reports (StatesTrajectory,
     Component::setDiscreteVariableValue, ...) *)
  | OtherMessage (what : string).

(** The exceptions that can leave [analyze]. *)
Inductive Error :=
  (* OpenSim::Exception: the class OPENSIM_THROW_IF is given on lines 268
     and 280, and the one createSystemControlIndexMap is documented to
     throw *)
  | Exception (msg : Message)
  (* std::regex_error, thrown by the constructor std::regex(pattern) *)
  | RegexError (pattern : string)
  (* std::out_of_range, thrown by unordered_map::at *)
  | StdOutOfRange (key : string)
  (* An element access outside a SimTK::Vector or a row: undefined
     behaviour in a release build, SimTK_INDEXCHECK in a debug build. *)
  | IndexOutOfRange (i size : nat).

Abbreviation RowCountMismatch which n1 n2 :=
  (Exception (RowCountMessage which n1 n2)).
Abbreviation ControlOrderMismatch := (Exception ControlOrderMessage).
Abbreviation ComponentNotFound path :=
  (Exception (ComponentNotFoundMessage path)).

Inductive result (A : Type) :=
  | Ok (a : A)
  | Err (e : Error).
Arguments Ok {A} a.
Arguments Err {A} e.

Definition is_Ok {A} (r : result A) : Prop :=
  match r with Ok _ => True | Err _ => False end.

Definition is_RowCountMismatch (e : Error) : Prop :=
  match e with Exception (RowCountMessage _ _ _) => True | _ => False end.

(** ** Regular expressions: what [std::regex_match] decides *)

Module Regex.

(** The regular core of a compiled pattern.  [Sym p] matches one
    character satisfying [p]: a literal, [.], a class, an escape. *)
Inductive regex :=
  | Void
  | Eps
  | Sym (p : ascii → bool)
  | Cat (r1 r2 : regex)
  | Alt (r1 r2 : regex)
  | Star (r : regex).

Definition Chr (c : ascii) : regex := Sym (Ascii.eqb c).
Definition AnyChar : regex := Sym (λ _, true).

(** ECMAScript [.]: any character but a line terminator. *)
Definition is_line_terminator (c : ascii) : bool :=
  Ascii.eqb c "010"%char || Ascii.eqb c "013"%char.
Definition Dot : regex := Sym (λ c, negb (is_line_terminator c)).

(** The words of a regular expression. *)
Inductive Lang : regex → list ascii → Prop :=
  | LEps : Lang Eps []
  | LSym p c : p c = true → Lang (Sym p) [c]
  | LCat r1 r2 u v : Lang r1 u → Lang r2 v → Lang (Cat r1 r2) (u ++ v)
  | LAltL r1 r2 u : Lang r1 u → Lang (Alt r1 r2) u
  | LAltR r1 r2 u : Lang r2 u → Lang (Alt r1 r2) u
  | LStar0 r : Lang (Star r) []
  | LStarS r u v : Lang r u → Lang (Star r) v → Lang (Star r) (u ++ v).

Fixpoint nullable (r : regex) : bool :=
  match r with
  | Void => false
  | Eps => true
  | Sym _ => false
  | Cat r1 r2 => nullable r1 && nullable r2
  | Alt r1 r2 => nullable r1 || nullable r2
  | Star _ => true
  end.

(** Brzozowski derivative. *)
Fixpoint deriv (c : ascii) (r : regex) : regex :=
  match r with
  | Void => Void
  | Eps => Void
  | Sym p => if p c then Eps else Void
  | Cat r1 r2 =>
      if nullable r1
      then Alt (Cat (deriv c r1) r2) (deriv c r2)
      else Cat (deriv c r1) r2
  | Alt r1 r2 => Alt (deriv c r1) (deriv c r2)
  | Star r1 => Cat (deriv c r1) (Star r1)
  end.

Fixpoint matches (r : regex) (s : list ascii) : bool :=
  match s with
  | [] => nullable r
  | c :: s' => matches (deriv c r) s'
  end.

(** [std::regex_match(s, re)]: the whole of [s] is a word of [re]. *)
Definition regex_match (s : string) (re : regex) : bool :=
  matches re (String.list_ascii_of_string s).

(** [std::regex_search(s, re)]: some substring of [s] is a word of
    [re].  Not used by [analyze]; here to tell the two apart. *)
Definition regex_search (s : string) (re : regex) : bool :=
  matches (Cat (Star AnyChar) (Cat re (Star AnyChar)))
          (String.list_ascii_of_string s).

(** A pattern reader for the fragment of the ECMAScript grammar the
    examples use: literals, [.], a backslash escape of one character, a
    postfix star, and alternation at top level.  Every other
    metacharacter is refused. *)
Definition is_meta (c : ascii) : bool :=
  existsb (Ascii.eqb c)
    ["("; ")"; "["; "]"; "{"; "}"; "+"; "?"; "^"; "$"]%char.

(** [read_seq acc alts s]: [acc] is the concatenation read so far (as a
    list of factors, last first), [alts] the alternatives completed. *)
Fixpoint read_seq (acc : list regex) (alts : list (list regex))
    (s : list ascii) : option (list (list regex)) :=
  match s with
  | [] => Some (acc :: alts)
  | c :: s' =>
      if Ascii.eqb c "|"%char then read_seq [] (acc :: alts) s'
      else if Ascii.eqb c "*"%char then
        match acc with
        | [] => None
        | a :: acc' => read_seq (Star a :: acc') alts s'
        end
      else if Ascii.eqb c "\"%char then
        match s' with
        | [] => None
        | d :: s'' => read_seq (Chr d :: acc) alts s''
        end
      else if Ascii.eqb c "."%char then read_seq (Dot :: acc) alts s'
      else if is_meta c then None
      else read_seq (Chr c :: acc) alts s'
  end.

Definition cat_all (factors : list regex) : regex :=
  fold_left (λ r a, Cat a r) factors Eps.

Definition alt_all (alts : list regex) : regex :=
  match alts with
  | [] => Void
  | a :: rest => fold_left (λ r b, Alt b r) rest a
  end.

Definition ecma_fragment (pattern : string) : option regex :=
  match read_seq [] [] (String.list_ascii_of_string pattern) with
  | Some alts => Some (alt_all (map cat_all alts))
  | None => None
  end.

End Regex.
Export Regex.

(** ** Tables *)

(** [TimeSeriesTable_<V>]: column labels shared by all rows, and the rows
    in order, each with its time.  [TimeSeriesTable] is the instance at
    [V := double]. *)
Record TimeSeriesTable_ (double V : Type) := mkTable {
  getColumnLabels : list string;
  getRows : list (double * list V);
}.
Arguments mkTable {double V} _ _.
Arguments getColumnLabels {double V} _.
Arguments getRows {double V} _.

Section Table.
Context {double V : Type}.
Implicit Type t : TimeSeriesTable_ double V.

Definition getNumRows t : nat := length (getRows t).
Definition getNumColumns t : nat := length (getColumnLabels t).

(** The default argument [{}] of [analyze]. *)
Definition emptyTable : TimeSeriesTable_ double V := mkTable [] [].

(** A table as [DataTable] keeps it: every row has one entry per
    label, and the labels are distinct. *)
Definition wf_table t : Prop :=
  NoDup (getColumnLabels t) ∧
  Forall (λ r, length r.2 = getNumColumns t) (getRows t).

Definition getRowAtIndex t (i : nat) : result (list V) :=
  match getRows t !! i with
  | Some r => Ok r.2
  | None => Err (Exception (RowIndexOutOfRangeMessage i (getNumRows t)))
  end.

(** [v[i]] on a vector or a row. *)
Definition elementAt (v : list V) (i : nat) : result V :=
  match v !! i with
  | Some x => Ok x
  | None => Err (IndexOutOfRange i (length v))
  end.

Fixpoint columnIndex (labels : list string) (label : string) : option nat :=
  match labels with
  | [] => None
  | l :: rest =>
      if String.eqb l label then Some 0
      else S <$> columnIndex rest label
  end.

Fixpoint collect {A} (l : list (result A)) : result (list A) :=
  match l with
  | [] => Ok []
  | Ok a :: rest =>
      match collect rest with Ok r => Ok (a :: r) | Err e => Err e end
  | Err e :: _ => Err e
  end.

Definition getDependentColumn t (label : string) : result (list V) :=
  match columnIndex (getColumnLabels t) label with
  | Some j => collect (map (λ r, elementAt r.2 j) (getRows t))
  | None => Err (Exception (KeyNotFoundMessage label))
  end.
End Table.

(** ** The model, as far as the header looks into it *)

Record Output := mkOutput {
  getPathName : string;      (* AbstractOutput::getPathName() *)
  getTypeName : string;      (* the value type the output declares *)
}.

Record Component := mkComponent {
  getAbsolutePathString : string;
  (* comp.getOutput(name) for name in comp.getOutputNames() *)
  getOutputs : list Output;
}.

Record Actuator := mkActuator {
  actuatorPath : string;
  numControls : nat;
  get_appliesForce : bool;
}.

Record Model := mkModel {
  (* model.getComponentList(), in traversal order *)
  getComponentList : list Component;
  (* model.getComponentList<Actuator>(): model-declared order *)
  getActuators : list Actuator;
  (* the named controls in the order of the flat vector
     Model::getControls() *)
  controlVectorOrder : list string;
  (* the slots of SimTK::State::getY(): the state variable stored in a
     slot, or nothing for an empty slot (e.g. of a quaternion) *)
  yLayout : list (option string);
}.

(** [model.getComponent(path)]; throws when there is none. *)
Definition getComponent (m : Model) (path : string) : result Component :=
  match find (λ c, String.eqb (getAbsolutePathString c) path)
             (getComponentList m) with
  | Some c => Ok c
  | None => Err (ComponentNotFound path)
  end.

(** Modelled from the spec: [ComponentPath] is not in the header.  "Last
    path segment is the variable name, remainder is the component path":
    the label is cut at its last ['/']. *)
Fixpoint splitLast (s : list ascii) : option (list ascii * list ascii) :=
  match s with
  | [] => None
  | c :: s' =>
      match splitLast s' with
      | Some (parent, name) => Some (c :: parent, name)
      | None => if Ascii.eqb c "/"%char then Some ([], s') else None
      end
  end.

(** [ComponentPath(label).getComponentName()], lines 292-294 *)
Definition getComponentName (label : string) : string :=
  match splitLast (String.list_ascii_of_string label) with
  | Some (_, name) => String.string_of_list_ascii name
  | None => label
  end.

(** [ComponentPath(label).getParentPathString()], lines 295-296 *)
Definition getParentPathString (label : string) : string :=
  match splitLast (String.list_ascii_of_string label) with
  | Some (parent, _) => String.string_of_list_ascii parent
  | None => ""
  end.

(** ** Label resolver and order checker (declared in the header only) *)

(** Modelled from the spec: the body of [createControlNamesFromModel] is
    not in the header.  Its documentation there: an actuator with one
    control gives its own name, an actuator with several gives its name
    followed by the control index (["/actuator_0"]). *)
Definition controlNamesOf (a : Actuator) : list string :=
  if decide (numControls a = 1) then [actuatorPath a]
  else map (λ i : nat, actuatorPath a +:+ "_" +:+ pretty i)
           (seq 0 (numControls a)).

(** Modelled from the spec: names and [modelControlIndices] are produced
    only for actuators with [appliesForce], while [count] runs over the
    controls of all actuators. *)
Fixpoint controlNamesFrom (count : nat) (actus : list Actuator)
    : list (string * nat) :=
  match actus with
  | [] => []
  | a :: rest =>
      (if get_appliesForce a
       then zip (controlNamesOf a) (seq count (numControls a))
       else [])
      ++ controlNamesFrom (count + numControls a) rest
  end.

Definition createControlNamesFromModel (m : Model)
    : list string * list nat :=
  let named := controlNamesFrom 0 (getActuators m) in
  (named.*1, named.*2).

(** Modelled from the spec: the body of [checkOrderSystemControls] is not
    in the header.  "Confirm that iterating actuators in model-declared
    order and iterating the flat control vector produce the same sequence
    of named controls"; it fails on any mismatch. *)
Definition actuatorControlOrder (m : Model) : list string :=
  concat (map controlNamesOf (getActuators m)).

Definition checkOrderSystemControls (m : Model) : result unit :=
  if decide (actuatorControlOrder m = controlVectorOrder m)
  then Ok tt
  else Err ControlOrderMismatch.

(** Modelled from the spec: the body of [createSystemControlIndexMap] is
    not in the header.  It throws as [checkOrderSystemControls] does and
    otherwise maps each control name to its index in the control vector. *)
Definition createSystemControlIndexMap (m : Model)
    : result (gmap string nat) :=
  match checkOrderSystemControls m with
  | Err e => Err e
  | Ok _ =>
      let '(controlNames, modelControlIndices) :=
        createControlNamesFromModel m in
      Ok (foldl (λ acc (ni : string * nat), <[ni.1 := ni.2]> acc) ∅
                (zip controlNames modelControlIndices))
  end.





(** ** What the header takes from outside *)

(** The arithmetic type [double], the template argument [T] of [analyze],
    the [SimTK::State], and the operations of the C++ standard library, of
    Simbody and of the rest of OpenSim that [analyze] calls.  Their bodies
    are not in the header; [analyze] is embedded over any of them.  The
    calls into Simbody ([prescribe], the realizations, [setControls],
    [getValue]) are taken to return: what they may throw is not
    described here, so nothing below says that [analyze] throws for no
    other reason than the ones it shows. *)
Class Platform (double T State : Type) := {
  (* the literal 0.0 *)
  zero : double;
  (* the type name of Output<T>: dynamic_cast<const Output<T>*> succeeds
     on exactly the outputs that declare it *)
  typeNameT : string;
  (* the constructor std::regex(pattern); None is std::regex_error *)
  std_regex : string → option regex;
  (* the SimTK::State that StatesTrajectory builds from one row of a
     states table: column labels, time, values *)
  stateFromRow : Model → list string → double → list double → result State;
  getTime : State → double;
  (* model.getSystem().prescribe(state) *)
  prescribe : Model → State → State;
  realizeVelocity : Model → State → State;
  (* model.setControls(state, controls) *)
  setControls : Model → State → list double → State;
  (* component.setDiscreteVariableValue(state, name, value) *)
  setDiscreteVariableValue :
    Component → State → string → double → result State;
  realizeReport : Model → State → State;
  (* Output<T>::getValue(state) *)
  getValue : Output → State → T;
}.

(** Modelled from the spec: [StatesTrajectory::createFromStatesTable] is
    not in the header.  "One SystemState exists per processed time sample;
    created from a table row": the states of the rows, in row order. *)
Definition createFromStatesTable {double T State : Type}
    `{!Platform double T State} (model : Model)
    (statesTable : TimeSeriesTable_ double double) : result (list State) :=
  collect (map (λ r : double * list double,
                  stateFromRow model (getColumnLabels statesTable) r.1 r.2)
               (getRows statesTable)).
Arguments createFromStatesTable : simpl never.

(** ** Calls, the reporter, and the monad of [analyze] *)

(** The calls [analyze] makes on the model, the reporter, the state and
    the log, in the order it makes them.  [itime] is the loop index of
    the sample the call belongs to. *)
Inductive Event (double : Type) :=
  | InitSystem
  | LogDebug (o : Output)                  (* "Adding output {} of type {}." *)
  | LogWarn (o : Output)                   (* "Ignoring output {} of type {}." *)
  | AddToReport (o : Output)
  | AddComponent                           (* model.addComponent(reporter) *)
  | StateAt (itime : nat)                  (* auto state = statesTraj[itime] *)
  | Prescribe (itime : nat)
  | RealizeVelocity (itime : nat)
  | SetControls (itime : nat) (controls : list double)
  | SetDiscreteVariableValue (itime : nat)
      (component name : string) (value : double)
  | RealizeReport (itime : nat).
Arguments InitSystem {double}.
Arguments LogDebug {double} o.
Arguments LogWarn {double} o.
Arguments AddToReport {double} o.
Arguments AddComponent {double}.
Arguments StateAt {double} itime.
Arguments Prescribe {double} itime.
Arguments RealizeVelocity {double} itime.
Arguments SetControls {double} itime controls.
Arguments SetDiscreteVariableValue {double} itime component name value.
Arguments RealizeReport {double} itime.

(** Modelled from the spec: [TableReporter_<T>] is not in the header.
    "Accumulates, for each processed time sample, the current value of
    every matched output, in the order outputs were registered, producing
    one output row per sample."  It reports once it is a component of the
    model. *)
Record TableReporter (double T : Type) := mkReporter {
  inputs : list Output;
  attached : bool;
  reported : list (double * list T);
}.
Arguments mkReporter {double T} _ _ _.
Arguments inputs {double T} _.
Arguments attached {double T} _.
Arguments reported {double T} _.

Record World (double T : Type) := mkWorld {
  trace : list (Event double);
  reporter : TableReporter double T;
}.
Arguments mkWorld {double T} _ _.
Arguments trace {double T} _.
Arguments reporter {double T} _.

Definition M (double T A : Type) : Type :=
  World double T → World double T * result A.

Section Monad.
Context {double T : Type}.
Local Abbreviation M := (M double T).

Definition ret {A} (a : A) : M A := λ w, (w, Ok a).

Definition bind {A B} (c : M A) (k : A → M B) : M B :=
  λ w, match c w with
       | (w', Ok a) => k a w'
       | (w', Err e) => (w', Err e)
       end.

Definition throw {A} (e : Error) : M A := λ w, (w, Err e).

Definition lift {A} (r : result A) : M A := λ w, (w, r).

Definition emit (ev : Event double) : M unit :=
  λ w, (mkWorld (trace w ++ [ev]) (reporter w), Ok tt).

Definition updReporter (f : TableReporter double T → TableReporter double T)
    : M unit :=
  λ w, (mkWorld (trace w) (f (reporter w)), Ok tt).

Definition getReporter : M (TableReporter double T) :=
  λ w, (w, Ok (reporter w)).

(** [OPENSIM_THROW_IF(cond, Exception, ...)] *)
Definition OPENSIM_THROW_IF (cond : bool) (e : Error) : M unit :=
  if cond then throw e else ret tt.

(** A range-based [for] whose body may throw. *)
Fixpoint forEach {A} (l : list A) (body : A → M unit) : M unit :=
  match l with
  | [] => ret tt
  | x :: l' => bind (body x) (λ _, forEach l' body)
  end.

(** The same, building a vector with [emplace_back]. *)
Fixpoint forEachCollect {A B} (l : list A) (body : A → M B) : M (list B) :=
  match l with
  | [] => ret []
  | x :: l' =>
      bind (body x) (λ b,
      bind (forEachCollect l' body) (λ bs, ret (b :: bs)))
  end.
End Monad.

Notation "x <- c1 ;; c2" := (bind c1 (λ x, c2))
  (at level 100, c1 at next level, right associativity).
Notation "c1 ;; c2" := (bind c1 (λ _, c2))
  (at level 100, right associativity).

(** ** [analyze] (lines 221-340 of the header) *)

Section Analyze.
Context {double T State : Type} `{!Platform double T State}.
Local Abbreviation M := (M double T).
Local Abbreviation TimeSeriesTable := (TimeSeriesTable_ double double).

(** [model.initSystem()], lines 228 and 256 *)
Definition initSystem : M unit := emit InitSystem.

(** [reporter->addToReport(output)] *)
Definition addToReport (output : Output) : M unit :=
  emit (AddToReport output) ;;
  updReporter
    (λ r, mkReporter (inputs r ++ [output]) (attached r) (reported r)).

(** Lines 240-251: one output against one pattern. *)
Definition matchOutput (output : Output) (outputPathArg : string) : M unit :=
  let thisOutputPath := getPathName output in
  match std_regex outputPathArg with
  | None => throw (RegexError outputPathArg)
  | Some re =>
      if regex_match thisOutputPath re then
        (* Make sure the output type agrees with the template. *)
        if String.eqb (getTypeName output) typeNameT then
          emit (LogDebug output) ;;
          addToReport output
        else emit (LogWarn output)
      else ret tt
  end.

(** Lines 235-254: all outputs of all components against all patterns. *)
Definition collectOutputs (model : Model) (outputPaths : list string)
    : M unit :=
  forEach (getComponentList model) (λ comp,
    forEach (getOutputs comp) (λ output,
      forEach outputPaths (λ outputPathArg,
        matchOutput output outputPathArg))).

(** [model.addComponent(reporter)], line 255: from here on the reporter
    is a component of the model. *)
Definition addComponent : M unit :=
  emit AddComponent ;;
  updReporter (λ r, mkReporter (inputs r) true (reported r)).

(** Lines 314-315, [controls[controlMap.at(name)] = controlsRow[icontrol]]:
    the right operand is read first, then the key is looked up, then the
    element is written. *)
Definition assignControl (controlMap : gmap string nat)
    (controlsRow controls : list double) (icontrol : nat) (name : string)
    : result (list double) :=
  match elementAt controlsRow icontrol with
  | Err e => Err e
  | Ok v =>
      match controlMap !! name with
      | None => Err (StdOutOfRange name)
      | Some idx =>
          if decide (idx < length controls)
          then Ok (<[idx := v]> controls)
          else Err (IndexOutOfRange idx (length controls))
      end
  end.

(** Lines 312-316: the loop over [icontrol]. *)
Fixpoint injectControls (controlMap : gmap string nat)
    (controlNames : list string) (controlsRow : list double)
    (icontrol : nat) (controls : list double) : result (list double) :=
  match controlNames with
  | [] => Ok controls
  | name :: rest =>
      match assignControl controlMap controlsRow controls icontrol name with
      | Err e => Err e
      | Ok controls' =>
          injectControls controlMap rest controlsRow (S icontrol) controls'
      end
  end.

(** Lines 278-300: the components of the discrete variables. *)
Definition resolveDiscreteComponents (model : Model)
    (statesTable discreteVariablesTable : TimeSeriesTable)
    : M (list (string * Component)) :=
  if getNumColumns discreteVariablesTable =? 0 then ret []
  else
    OPENSIM_THROW_IF
      (negb (getNumRows discreteVariablesTable =? getNumRows statesTable))
      (RowCountMismatch DiscreteVsStates
         (getNumRows discreteVariablesTable) (getNumRows statesTable)) ;;
    forEachCollect (getColumnLabels discreteVariablesTable) (λ label,
      let discreteVarName := getComponentName label in
      let componentPath := getParentPathString label in
      component <- lift (getComponent model componentPath) ;;
      ret (discreteVarName, component)).

(** Lines 325-332: the loop over [idv]. *)
Fixpoint applyDiscreteFrom (discreteVariablesTable : TimeSeriesTable)
    (discreteComponentRefs : list (string * Component)) (itime idv : nat)
    (labels : list string) (state : State) : M State :=
  match labels with
  | [] => ret state
  | label :: rest =>
      discreteCol <- lift (getDependentColumn discreteVariablesTable label) ;;
      ref <- lift (elementAt discreteComponentRefs idv) ;;
      value <- lift (elementAt discreteCol itime) ;;
      emit (SetDiscreteVariableValue itime
              (getAbsolutePathString ref.2) ref.1 value) ;;
      state' <- lift (setDiscreteVariableValue ref.2 state ref.1 value) ;;
      applyDiscreteFrom discreteVariablesTable discreteComponentRefs
        itime (S idv) rest state'
  end.

(** Lines 323-333 *)
Definition applyDiscrete (discreteVariablesTable : TimeSeriesTable)
    (discreteComponentRefs : list (string * Component)) (itime : nat)
    (state : State) : M State :=
  if getNumColumns discreteVariablesTable =? 0 then ret state
  else applyDiscreteFrom discreteVariablesTable discreteComponentRefs
         itime 0 (getColumnLabels discreteVariablesTable) state.

(** Modelled from the spec: what [model.realizeReport(state)] makes the
    reporter do, once it is a component of the model: capture one row,
    the values of its inputs in the order they were registered. *)
Definition implementReport (state : State) : M unit :=
  updReporter (λ r,
    if attached r
    then mkReporter (inputs r) (attached r)
           (reported r ++
              [(getTime state, map (λ o, getValue o state) (inputs r))])
    else r).

(** Modelled from the spec: [reporter->getTable()]: the columns are the
    registered outputs, in registration order. *)
Definition getTable (r : TableReporter double T) : TimeSeriesTable_ double T :=
  mkTable (map getPathName (inputs r)) (reported r).

(** Lines 303-337: the loop over [itime].  [controls] is declared
    outside the loop (line 265) and carried from sample to sample. *)
Fixpoint replay (model : Model) (controlsTable : TimeSeriesTable)
    (controlNames : list string) (controlMap : gmap string nat)
    (discreteVariablesTable : TimeSeriesTable)
    (discreteComponentRefs : list (string * Component))
    (itime : nat) (statesTraj : list State) (controls : list double)
    : M unit :=
  match statesTraj with
  | [] => ret tt
  | s :: rest =>
      (* Get the current state. *)
      emit (StateAt itime) ;;
      (* Enforce any SimTK::Motion's included in the model. *)
      emit (Prescribe itime) ;;
      let state := prescribe model s in
      (* Create a SimTK::Vector of the control values. *)
      controlsRow <- lift (getRowAtIndex controlsTable itime) ;;
      controls' <- lift (injectControls controlMap controlNames
                           controlsRow 0 controls) ;;
      (* Set the controls on the state object. *)
      emit (RealizeVelocity itime) ;;
      let state := realizeVelocity model state in
      emit (SetControls itime controls') ;;
      let state := setControls model state controls' in
      (* Apply discrete variables to the state. *)
      state <- applyDiscrete discreteVariablesTable discreteComponentRefs
                 itime state ;;
      (* Generate report results for the current state. *)
      emit (RealizeReport itime) ;;
      let state := realizeReport model state in
      implementReport state ;;
      replay model controlsTable controlNames controlMap
        discreteVariablesTable discreteComponentRefs
        (S itime) rest controls'
  end.

Definition analyze (model : Model)
    (statesTable controlsTable : TimeSeriesTable)
    (outputPaths : list string)
    (discreteVariablesTable : TimeSeriesTable)
    : M (TimeSeriesTable_ double T) :=
  initSystem ;;
  collectOutputs model outputPaths ;;
  addComponent ;;
  initSystem ;;
  statesTraj <- lift (createFromStatesTable model statesTable) ;;
  let controlNames := getColumnLabels controlsTable in
  controlMap <- lift (createSystemControlIndexMap model) ;;
  let controls := replicate (getNumColumns controlsTable) zero in
  OPENSIM_THROW_IF
    (negb (getNumRows statesTable =? getNumRows controlsTable))
    (RowCountMismatch StatesVsControls
       (getNumRows statesTable) (getNumRows controlsTable)) ;;
  discreteComponentRefs <-
    resolveDiscreteComponents model statesTable discreteVariablesTable ;;
  replay model controlsTable controlNames controlMap
    discreteVariablesTable discreteComponentRefs 0 statesTraj controls ;;
  r <- getReporter ;;
  ret (getTable r).

(** [new TableReporter_<T>()], line 231, and no call made yet. *)
Definition initialWorld : World double T :=
  mkWorld [] (mkReporter [] false []).

Definition run_analyze (model : Model)
    (statesTable controlsTable : TimeSeriesTable)
    (outputPaths : list string)
    (discreteVariablesTable : TimeSeriesTable)
    : World double T * result (TimeSeriesTable_ double T) :=
  analyze model statesTable controlsTable outputPaths
    discreteVariablesTable initialWorld.
End Analyze.

(** ** The state of a sample, without the calls *)

Section Sample.
Context {double T State : Type} `{!Platform double T State}.
Local Abbreviation TimeSeriesTable := (TimeSeriesTable_ double double).

(** Lines 323-333 as a function of the state: the discrete variables of
    sample [itime] written one after the other in column order, each on
    the component at the parent path of its label (lines 295-297), under
    the name after the last slash (lines 292-294), with the element
    [itime] of its column (lines 327-331). *)
Fixpoint withDiscreteVariables (model : Model)
    (discreteVariablesTable : TimeSeriesTable) (itime : nat)
    (labels : list string) (state : State) : result State :=
  match labels with
  | [] => Ok state
  | label :: rest =>
      match getComponent model (getParentPathString label) with
      | Err e => Err e
      | Ok component =>
          match getDependentColumn discreteVariablesTable label with
          | Err e => Err e
          | Ok discreteCol =>
              match elementAt discreteCol itime with
              | Err e => Err e
              | Ok value =>
                  match setDiscreteVariableValue component state
                          (getComponentName label) value with
                  | Err e => Err e
                  | Ok state' =>
                      withDiscreteVariables model discreteVariablesTable
                        itime rest state'
                  end
              end
          end
      end
  end.

(** The state a sample is reported in when there are no discrete
    variables: the state of the trajectory after lines 308, 319, 320 and
    336, in this order. *)
Definition reportedState (model : Model) (s : State)
    (controls : list double) : State :=
  realizeReport model
    (setControls model (realizeVelocity model (prescribe model s)) controls).
End Sample.

(** ** Synthetic IMU signals (declared in the header only) *)

(** [SimTK::Vec3] over the rationals, with the componentwise equality of
    [Q]. *)
Record Vec3 := mkVec3 { vx : Q; vy : Q; vz : Q }.

Definition vsub (u v : Vec3) : Vec3 :=
  mkVec3 (vx u - vx v) (vy u - vy v) (vz u - vz v).
Definition vdot (u v : Vec3) : Q := vx u * vx v + vy u * vy v + vz u * vz v.
Definition veq (u v : Vec3) : Prop :=
  (vx u == vx v)%Q ∧ (vy u == vy v)%Q ∧ (vz u == vz v)%Q.

(** The orientation of a frame: its three axes, expressed in ground. *)
Record Rotation := mkRotation { x_axis : Vec3; y_axis : Vec3; z_axis : Vec3 }.

(** [ground.expressVectorInAnotherFrame(state, v, frame)]: the components
    of [v] along the axes of the frame. *)
Definition expressInFrame (R : Rotation) (v : Vec3) : Vec3 :=
  mkVec3 (vdot (x_axis R) v) (vdot (y_axis R) v) (vdot (z_axis R) v).

(** What the synthesizer reads from the model besides [analyze]. *)
Class FramePlatform (State : Type) := {
  getGravity : Model → Vec3;
  (* the orientation of the frame at [framePath] in the given state *)
  getRotationInGround : Model → string → State → Rotation;
  (* the output selector of a frame's "linear_acceleration" output *)
  linearAccelerationPattern : string → string;
  (* the path name of that output, the label of its column *)
  linearAccelerationPath : string → string;
}.

Section IMU.
Context {State : Type} `{!Platform Q Vec3 State} `{!FramePlatform State}.

(** Modelled from the spec: one IMU sample of one frame.  "Subtract the
    model's gravitational acceleration vector from the computed linear
    acceleration, then re-express the result in the frame's own local
    basis at that sample time". *)
Definition imuSignal (model : Model) (framePath : string) (state : State)
    (linearAcceleration : Vec3) : Vec3 :=
  expressInFrame (getRotationInGround model framePath state)
                 (vsub linearAcceleration (getGravity model)).

(** Modelled from the spec: one row of the table of signals.  "For each
    resulting sample and frame": the linear acceleration is read from
    the column of the frame's own output ("columns are matched by label,
    not position"), and the orientation is "obtained from the same
    realized SystemState", the state [analyze] reported the sample in:
    the state of the trajectory with the controls of the sample's row,
    realized to report. *)
Definition imuRow (model : Model) (controlsTable : TimeSeriesTable_ Q Q)
    (controlMap : gmap string nat) (accelTable : TimeSeriesTable_ Q Vec3)
    (framePaths : list string) (itime : nat) (s : State)
    : result (Q * list Vec3) :=
  match getRowAtIndex controlsTable itime with
  | Err e => Err e
  | Ok controlsRow =>
      match injectControls controlMap (getColumnLabels controlsTable)
              controlsRow 0
              (replicate (getNumColumns controlsTable) zero) with
      | Err e => Err e
      | Ok controls =>
          let state := reportedState model s controls in
          match collect
                  (map (λ framePath,
                          match getDependentColumn accelTable
                                  (linearAccelerationPath framePath) with
                          | Err e => Err e
                          | Ok accelerations =>
                              match elementAt accelerations itime with
                              | Err e => Err e
                              | Ok a =>
                                  Ok (imuSignal model framePath state a)
                              end
                          end)
                       framePaths) with
          | Err e => Err e
          | Ok signals => Ok (getTime state, signals)
          end
      end
  end.

(** Modelled from the spec: the body of
    [createSyntheticIMUAccelerationSignals] is not in the header.  It
    runs [analyze<SimTK::Vec3>] with the output selector fixed to each
    frame's linear acceleration and no discrete variables, then builds
    one row per sample; "one column per frame", in the order the frames
    were given. *)
Definition createSyntheticIMUAccelerationSignals (model : Model)
    (statesTable controlsTable : TimeSeriesTable_ Q Q)
    (framePaths : list string) : result (TimeSeriesTable_ Q Vec3) :=
  match run_analyze model statesTable controlsTable
          (map linearAccelerationPattern framePaths) emptyTable with
  | (_, Err e) => Err e
  | (_, Ok accelTable) =>
      match createFromStatesTable model statesTable with
      | Err e => Err e
      | Ok statesTraj =>
          match createSystemControlIndexMap model with
          | Err e => Err e
          | Ok controlMap =>
              match collect
                      (imap (imuRow model controlsTable controlMap
                               accelTable framePaths)
                            statesTraj) with
              | Err e => Err e
              | Ok rows => Ok (mkTable framePaths rows)
              end
          end
      end
  end.
End IMU.

(** The entry of a table at row [i], column [j]. *)
Definition entry {double V} (t : TimeSeriesTable_ double V) (i j : nat)
    : option V :=
  getRows t !! i ≫= λ r, r.2 !! j.

(** ** A small model to run the definitions on *)

Module Pendulum.

(** A pin joint driven by a motor, with a brake beside it. *)
Definition jointAngle : Output :=
  mkOutput "/jointset/pin|joint_angle" "double".
Definition reaction : Output :=
  mkOutput "/jointset/pin|reaction_on_parent" "SpatialVec".
Definition actuation : Output :=
  mkOutput "/forceset/motor|actuation" "double".
Definition rodAcceleration : Output :=
  mkOutput "/bodyset/rod|linear_acceleration" "Vec3".

Definition model : Model :=
  mkModel
    [ mkComponent "/jointset/pin" [jointAngle; reaction];
      mkComponent "/forceset/motor" [actuation];
      mkComponent "/forceset/brake" [];
      mkComponent "/bodyset/rod" [rodAcceleration] ]
    [ mkActuator "/forceset/motor" 1 true;
      mkActuator "/forceset/brake" 1 true ]
    [ "/forceset/motor"; "/forceset/brake" ]
    [ Some "/jointset/pin/angle/value"; Some "/jointset/pin/angle/speed" ].

(** The same model with the controls of the two actuators stored the
    other way round in the control vector. *)
Definition misordered : Model :=
  mkModel (getComponentList model) (getActuators model)
    [ "/forceset/brake"; "/forceset/motor" ] (yLayout model).

(** A free body: three angles, a fourth slot left empty, three speeds. *)
Definition ball : Model :=
  mkModel [] [] []
    [ Some "/jointset/free/rx/value"; Some "/jointset/free/ry/value";
      Some "/jointset/free/rz/value"; None;
      Some "/jointset/free/rx/speed"; Some "/jointset/free/ry/speed";
      Some "/jointset/free/rz/speed" ].

Inductive Stage := Time | Velocity | Report.

Local Open Scope Q_scope.

Record SimState := mkState {
  time : Q;
  Y : list Q;
  U : list Q;
  discrete : list (string * string * Q);
  stage : Stage;
}.

Definition double_value (o : Output) (s : SimState) : Q :=
  if String.eqb (getPathName o) (getPathName jointAngle)
  then default 0 (Y s !! 0%nat)
  else default 0 (U s !! 0%nat).

(** The rod accelerates along x by the motor's control. *)
Definition vec3_value (o : Output) (s : SimState) : Vec3 :=
  mkVec3 (default 0 (U s !! 0%nat)) 0 0.

Definition platform {T} (name : string) (value : Output → SimState → T)
    : Platform Q T SimState := {|
  zero := 0;
  typeNameT := name;
  std_regex := ecma_fragment;
  stateFromRow _ _ t y := Ok (mkState t y [] [] Time);
  getTime := time;
  prescribe _ s := s;
  realizeVelocity _ s := mkState (time s) (Y s) (U s) (discrete s) Velocity;
  setControls _ s u := mkState (time s) (Y s) u (discrete s) (stage s);
  setDiscreteVariableValue c s name v :=
    Ok (mkState (time s) (Y s) (U s)
          ((getAbsolutePathString c, name, v) :: discrete s) (stage s));
  realizeReport _ s := mkState (time s) (Y s) (U s) (discrete s) Report;
  getValue := value;
|}.

Definition doubles : Platform Q Q SimState := platform "double" double_value.
Definition vectors : Platform Q Vec3 SimState := platform "Vec3" vec3_value.

(** Gravity along -y; the rod's frame is turned a quarter about z. *)
Definition frames : FramePlatform SimState := {|
  getGravity _ := mkVec3 0 (-(981 # 100)) 0;
  getRotationInGround _ _ _ :=
    mkRotation (mkVec3 0 1 0) (mkVec3 (-1) 0 0) (mkVec3 0 0 1);
  linearAccelerationPattern framePath :=
    framePath +:+ "\|linear_acceleration";
  linearAccelerationPath framePath := framePath +:+ "|linear_acceleration";
|}.

Definition labels : list string :=
  [ "/jointset/pin/angle/value"; "/jointset/pin/angle/speed" ].

(** Two samples. *)
Definition statesTable : TimeSeriesTable_ Q Q :=
  mkTable labels [ (0, [1 # 10; 0]); (1 # 100, [2 # 10; 1]) ].

(** Both controls, the brake's column first. *)
Definition controlsTable : TimeSeriesTable_ Q Q :=
  mkTable [ "/forceset/brake"; "/forceset/motor" ]
    [ (0, [5; 7]); (1 # 100, [6; 8]) ].

(** The same with one row more than the states table. *)
Definition controlsTable3 : TimeSeriesTable_ Q Q :=
  mkTable (getColumnLabels controlsTable)
    (getRows controlsTable ++ [ (2 # 100, [7; 9]) ]).

(** The brake's column is missing. *)
Definition motorOnly : TimeSeriesTable_ Q Q :=
  mkTable [ "/forceset/motor" ] [ (0, [7]); (1 # 100, [8]) ].

(** The motor's column is missing. *)
Definition brakeOnly : TimeSeriesTable_ Q Q :=
  mkTable [ "/forceset/brake" ] [ (0, [5]); (1 # 100, [6]) ].




(** The motor at rest. *)
Definition restControls : TimeSeriesTable_ Q Q :=
  mkTable [ "/forceset/motor"; "/forceset/brake" ]
    [ (0, [0; 0]); (1 # 100, [0; 0]) ].

Definition discreteTable : TimeSeriesTable_ Q Q :=
  mkTable [ "/forceset/motor/fatigue" ]
    [ (0, [3]); (1 # 100, [4]) ].

(** One row short of the states table. *)
Definition discreteTable1 : TimeSeriesTable_ Q Q :=
  mkTable [ "/forceset/motor/fatigue" ] [ (0, [3]) ].

(** The run on the two samples with the pattern of the joint angle, and
    the synthetic IMU signal of the rod with the motor at rest. *)
Definition world1 : World Q Q :=
  Eval vm_compute in
    (run_analyze (Platform0:=doubles) model statesTable controlsTable
       [".*joint_angle"] discreteTable).1.

Definition table1 : TimeSeriesTable_ Q Q :=
  Eval vm_compute in
    match (run_analyze (Platform0:=doubles) model statesTable controlsTable
             [".*joint_angle"] discreteTable).2 with
    | Ok t => t
    | Err _ => emptyTable
    end.

Definition imu1 : TimeSeriesTable_ Q Vec3 :=
  Eval vm_compute in
    match createSyntheticIMUAccelerationSignals (Platform0:=vectors)
            (FramePlatform0:=frames) model statesTable restControls
            ["/bodyset/rod"] with
    | Ok t => t
    | Err _ => emptyTable
    end.

End Pendulum.

(** ** Two links, to tell frames and controls apart *)

Module TwoLinks.
Import Pendulum.
Local Open Scope Q_scope.

Definition thighAcceleration : Output :=
  mkOutput "/bodyset/thigh|linear_acceleration" "Vec3".
Definition shankAcceleration : Output :=
  mkOutput "/bodyset/shank|linear_acceleration" "Vec3".

(** A hip and a knee, each with a motor, and a brake at the knee; the
    thigh comes before the shank in the traversal. *)
Definition model : Model :=
  mkModel
    [ mkComponent "/bodyset/thigh" [thighAcceleration];
      mkComponent "/bodyset/shank" [shankAcceleration];
      mkComponent "/forceset/hip_motor" [];
      mkComponent "/forceset/knee_motor" [];
      mkComponent "/forceset/brake" [] ]
    [ mkActuator "/forceset/hip_motor" 1 true;
      mkActuator "/forceset/knee_motor" 1 true;
      mkActuator "/forceset/brake" 1 true ]
    [ "/forceset/hip_motor"; "/forceset/knee_motor"; "/forceset/brake" ]
    [ Some "/jointset/hip/angle/value"; Some "/jointset/knee/angle/value";
      Some "/jointset/hip/angle/speed"; Some "/jointset/knee/angle/speed" ].


(** The thigh accelerates along x by the control of the hip motor, the
    shank along z by the control of the knee motor. *)
Definition vec3_value (o : Output) (s : SimState) : Vec3 :=
  if String.eqb (getPathName o) (getPathName thighAcceleration)
  then mkVec3 (default 0 (U s !! 0%nat)) 0 0
  else mkVec3 0 0 (default 0 (U s !! 1%nat)).

Definition doubles : Platform Q Q SimState := platform "double" double_value.
Definition vectors : Platform Q Vec3 SimState := platform "Vec3" vec3_value.

(** Gravity along -y; the thigh's frame is turned a quarter about z, the
    shank's frame is parallel to ground. *)
Definition frames : FramePlatform SimState := {|
  getGravity _ := mkVec3 0 (-(981 # 100)) 0;
  getRotationInGround _ framePath _ :=
    if String.eqb framePath "/bodyset/thigh"
    then mkRotation (mkVec3 0 1 0) (mkVec3 (-1) 0 0) (mkVec3 0 0 1)
    else mkRotation (mkVec3 1 0 0) (mkVec3 0 1 0) (mkVec3 0 0 1);
  linearAccelerationPattern framePath :=
    framePath +:+ "\|linear_acceleration";
  linearAccelerationPath framePath := framePath +:+ "|linear_acceleration";
|}.

(** Two samples. *)
Definition statesTable : TimeSeriesTable_ Q Q :=
  mkTable
    [ "/jointset/hip/angle/value"; "/jointset/knee/angle/value";
      "/jointset/hip/angle/speed"; "/jointset/knee/angle/speed" ]
    [ (0, [1 # 10; 3 # 10; 0; 0]); (1 # 100, [2 # 10; 4 # 10; 1; 1]) ].

Definition controlsTable : TimeSeriesTable_ Q Q :=
  mkTable [ "/forceset/hip_motor"; "/forceset/knee_motor"; "/forceset/brake" ]
    [ (0, [7; 5; 0]); (1 # 100, [8; 6; 0]) ].

(** The brake's column, then a column that names no control: a vector of
    two elements for a model whose brake has slot 2. *)
Definition brakeAndStray : TimeSeriesTable_ Q Q :=
  mkTable [ "/forceset/brake"; "/forceset/spring" ]
    [ (0, [1; 1]); (1 # 100, [1; 1]) ].

(** The frames the signals are asked for, the shank first. *)
Definition framePaths : list string := [ "/bodyset/shank"; "/bodyset/thigh" ].

Definition imu2 : TimeSeriesTable_ Q Vec3 :=
  Eval vm_compute in
    match createSyntheticIMUAccelerationSignals (Platform0:=vectors)
            (FramePlatform0:=frames) model statesTable controlsTable
            framePaths with
    | Ok t => t
    | Err _ => emptyTable
    end.

End TwoLinks.

(** ** Vocabulary of the statements *)

Section Vocabulary.
Context {double T State : Type} `{!Platform double T State}.

(** The outputs the traversal of lines 235-237 visits, in order. *)
Definition allOutputs (model : Model) : list Output :=
  flat_map getOutputs (getComponentList model).

(** The pattern is well formed and the whole path is one of its words. *)
Definition fullyMatches (outputPathArg : string) (o : Output) : Prop :=
  ∃ re, std_regex outputPathArg = Some re ∧
        Lang re (String.list_ascii_of_string (getPathName o)).

Definition selects (outputPathArg : string) (o : Output) : bool :=
  match std_regex outputPathArg with
  | Some re => regex_match (getPathName o) re
  | None => false
  end.

Definition hasTypeT (o : Output) : bool :=
  String.eqb (getTypeName o) typeNameT.

(** The outputs of the model that match a pattern and have type [T]:
    once for every pattern they match, in traversal order. *)
Definition matchedOutputs (model : Model) (outputPaths : list string)
    : list Output :=
  flat_map
    (λ o, flat_map
            (λ p, if selects p o && hasTypeT o then [o] else [])
            outputPaths)
    (allOutputs model).

(** What a complete scan logs and registers. *)
Definition scanEvents (model : Model) (outputPaths : list string)
    : list (Event double) :=
  flat_map
    (λ o, flat_map
            (λ p, if selects p o
                  then if hasTypeT o
                       then [LogDebug o; AddToReport o]
                       else [LogWarn o]
                  else [])
            outputPaths)
    (allOutputs model).
End Vocabulary.

Section Events.
Context {double : Type}.
Implicit Type e : Event double.

Definition registered e : option Output :=
  match e with AddToReport o => Some o | _ => None end.

(** The outputs a stretch of calls registers, in order. *)
Definition registrations (evs : list (Event double)) : list Output :=
  omap registered evs.

Definition isScanEvent e : Prop :=
  match e with
  | LogDebug _ | LogWarn _ | AddToReport _ => True
  | _ => False
  end.

(** Calls that neither register an output nor attach the reporter. *)
Definition isLateEvent e : Prop :=
  match e with
  | AddToReport _ | AddComponent => False
  | _ => True
  end.

(** The calls made before the loop over the samples. *)
Definition isSetupEvent e : Prop :=
  match e with
  | InitSystem | LogDebug _ | LogWarn _ | AddToReport _ | AddComponent =>
      True
  | _ => False
  end.

Definition isDiscreteAt (itime : nat) e : Prop :=
  match e with
  | SetDiscreteVariableValue i _ _ _ => i = itime
  | _ => False
  end.

(** The calls of one sample, in the order of lines 305-336. *)
Definition sampleCalls (itime : nat) (controls : list double)
    (discretes : list (Event double)) : list (Event double) :=
  [StateAt itime; Prescribe itime; RealizeVelocity itime;
   SetControls itime controls] ++ discretes ++ [RealizeReport itime].
End Events.

Section Worlds.
Context {double T : Type}.

(** The world after further calls [evs] that registered [os]. *)
Definition extend (w : World double T) (evs : list (Event double))
    (os : list Output) : World double T :=
  mkWorld (trace w ++ evs)
    (mkReporter (inputs (reporter w) ++ os) (attached (reporter w))
       (reported (reporter w))).

(** Every run of [c] relates the world before to the world after,
    whether it returns or throws. *)
Definition respects (R : relation (World double T)) {A}
    (c : M double T A) : Prop :=
  ∀ w w' r, c w = (w', r) → R w w'.

(** The trace grew by calls that satisfy [P], the reporter gained
    exactly the outputs those calls register, and it stayed attached. *)
Definition grows (P : Event double → Prop) : relation (World double T) :=
  λ w w', ∃ evs,
    trace w' = trace w ++ evs ∧ Forall P evs ∧
    inputs (reporter w') = inputs (reporter w) ++ registrations evs ∧
    (attached (reporter w) = true → attached (reporter w') = true).

(** The reporter captured no row. *)
Definition sameRows : relation (World double T) :=
  λ w w', reported (reporter w') = reported (reporter w).
End Worlds.

Section ControlsVocabulary.
Context {double : Type}.

(** Two control vectors agree at every element that no column of the
    controls table is written to. *)
Definition agreeOffLabels (cmap : gmap string nat) (names : list string)
    (c1 c2 : list double) : Prop :=
  length c1 = length c2 ∧
  ∀ k, (∀ name, In name names → cmap !! name ≠ Some k) → c1 !! k = c2 !! k.

(** A label has a slot in the map, inside a vector of [n] elements. *)
Definition slotWithin (cmap : gmap string nat) (n : nat) (name : string)
    : Prop :=
  ∃ idx, cmap !! name = Some idx ∧ idx < n.
End ControlsVocabulary.

(** ** Vocabulary of the further properties *)

Section ScanVocabulary.
Context {double T State : Type} `{!Platform double T State}.

(** The number of supplied patterns an output's path fully matches. *)
Definition matchCount (outputPaths : list string) (o : Output) : nat :=
  length (List.filter (λ p, selects p o) outputPaths).

(** What the scan logs and registers for one output against the given
    patterns (lines 239-252). *)
Definition outputEvents (outputPaths : list string) (o : Output)
    : list (Event double) :=
  flat_map (λ p, if selects p o
                 then if hasTypeT o
                      then [LogDebug o; AddToReport o]
                      else [LogWarn o]
                 else [])
           outputPaths.
End ScanVocabulary.

(** Two tables with the same labels and the same entries; the times of
    their rows may differ. *)
Definition sameEntries {double V} (t t' : TimeSeriesTable_ double V) : Prop :=
  getColumnLabels t = getColumnLabels t' ∧
  (getRows t).*2 = (getRows t').*2.

Module PendulumRuns.
Import Pendulum.
Local Open Scope Q_scope.

(** A discrete-variables table with rows and no column. *)
Definition columnless : TimeSeriesTable_ Q Q :=
  mkTable [] [ (0, []); (1 # 100, []); (2 # 100, []) ].

(** The controls of [controlsTable] at other times. *)
Definition controlsLater : TimeSeriesTable_ Q Q :=
  mkTable (getColumnLabels controlsTable) [ (5, [5; 7]); (6, [6; 8]) ].

(** The run on the two samples without discrete variables. *)
Definition world2 : World Q Q :=
  Eval vm_compute in
    (run_analyze (Platform0:=doubles) model statesTable controlsTable
       [".*joint_angle"] emptyTable).1.

Definition table2 : TimeSeriesTable_ Q Q :=
  Eval vm_compute in
    match (run_analyze (Platform0:=doubles) model statesTable controlsTable
             [".*joint_angle"] emptyTable).2 with
    | Ok t => t
    | Err _ => emptyTable
    end.
End PendulumRuns.

(** * Proofs *)

(** ** [std::regex_match] decides membership of the whole string *)

Section RegexFacts.

Lemma nullable_Lang r : nullable r = true ↔ Lang r [].
Proof.
  split.
  - induction r; simpl; intros Hn; try discriminate.
    + constructor.
    + apply andb_true_iff in Hn as [H1 H2].
      change (@nil ascii) with (@nil ascii ++ []). constructor; auto.
    + apply orb_true_iff in Hn as [H1|H2].
      * apply LAltL; auto.
      * apply LAltR; auto.
    + constructor.
  - intros HL. remember [] as s eqn:Hs.
    induction HL; simpl; auto; try discriminate.
    + apply app_eq_nil in Hs as [-> ->].
      rewrite IHHL1, IHHL2; auto.
    + rewrite IHHL; auto.
    + rewrite IHHL; auto. apply orb_true_r.
Qed.

Lemma deriv_sound c r : ∀ s, Lang (deriv c r) s → Lang r (c :: s).
Proof.
  induction r; simpl; intros s HL.
  - inversion HL.
  - inversion HL.
  - destruct (p c) eqn:Hp; inversion HL; subst. by constructor.
  - destruct (nullable r1) eqn:Hn.
    + inversion HL as [| | |? ? ? HC|? ? ? HR| |]; subst.
      * inversion HC; subst.
        change (c :: u ++ v) with ((c :: u) ++ v). constructor; auto.
      * change (c :: s) with ([] ++ c :: s).
        constructor; auto. by apply nullable_Lang.
    + inversion HL; subst.
      change (c :: u ++ v) with ((c :: u) ++ v). constructor; auto.
  - inversion HL; subst.
    + apply LAltL; auto.
    + apply LAltR; auto.
  - inversion HL; subst.
    change (c :: u ++ v) with ((c :: u) ++ v). constructor; auto.
Qed.

Lemma deriv_complete c r w :
  Lang r w → ∀ s, w = c :: s → Lang (deriv c r) s.
Proof.
  induction 1 as [|p c' Hp|r1 r2 u v H1 IH1 H2 IH2|r1 r2 u H1 IH1
                  |r1 r2 u H1 IH1|r|r u v H1 IH1 H2 IH2];
    intros s Hw; simpl.
  - discriminate.
  - injection Hw as -> <-. rewrite Hp. constructor.
  - destruct u as [|c' u'].
    + simpl in Hw. subst v.
      apply nullable_Lang in H1. rewrite H1. apply LAltR; auto.
    + injection Hw as -> <-.
      destruct (nullable r1).
      * apply LAltL. constructor; auto.
      * constructor; auto.
  - apply LAltL; auto.
  - apply LAltR; auto.
  - discriminate.
  - destruct u as [|c' u'].
    + simpl in Hw. auto.
    + injection Hw as -> <-. constructor; auto.
Qed.

Lemma matches_Lang s : ∀ r, matches r s = true ↔ Lang r s.
Proof.
  induction s as [|c s IH]; intros r; simpl.
  - apply nullable_Lang.
  - rewrite IH. split.
    + apply deriv_sound.
    + intros HL. by eapply deriv_complete.
Qed.

(** [regex_match] holds exactly when the whole string is a word. *)
Lemma regex_match_Lang s re :
  regex_match s re = true ↔ Lang re (String.list_ascii_of_string s).
Proof. apply matches_Lang. Qed.

Lemma Lang_Star_any s : Lang (Star AnyChar) s.
Proof.
  induction s as [|c s IH]; [constructor|].
  change (c :: s) with ([c] ++ s). constructor; auto. by constructor.
Qed.

(** [regex_search] holds exactly when some substring is a word. *)
Lemma regex_search_Lang s re :
  regex_search s re = true ↔
  ∃ u v w, String.list_ascii_of_string s = u ++ v ++ w ∧ Lang re v.
Proof.
  unfold regex_search. rewrite matches_Lang. split.
  - intros HL. inversion HL as [| |? ? u vw _ H2| | | |]; subst.
    inversion H2 as [| |? ? v w Hv _| | | |]; subst. eauto.
  - intros (u & v & w & -> & Hv).
    constructor; [apply Lang_Star_any|].
    constructor; [done|apply Lang_Star_any].
Qed.

(** A full match is a match of a substring, not the other way round. *)
Lemma regex_match_search s re :
  regex_match s re = true → regex_search s re = true.
Proof.
  rewrite regex_match_Lang, regex_search_Lang. intros HL.
  exists [], (String.list_ascii_of_string s), [].
  by rewrite app_nil_r.
Qed.

Example search_is_not_match :
  ∃ re, ecma_fragment "activation" = Some re ∧
        regex_search "/forceset/soleus|activation" re = true ∧
        regex_match "/forceset/soleus|activation" re = false.
Proof. eexists. split; [reflexivity|]. by vm_compute. Qed.

End RegexFacts.

(** ** Reasoning about computations in [M] *)

Section MonadFacts.
Context {double T : Type}.
Local Abbreviation M := (M double T).
Implicit Type w : World double T.

Lemma bind_inv {A B} (c : M A) (k : A → M B) w w' r :
  bind c k w = (w', r) →
  (∃ e, c w = (w', Err e) ∧ r = Err e) ∨
  (∃ a w1, c w = (w1, Ok a) ∧ k a w1 = (w', r)).
Proof.
  unfold bind. destruct (c w) as [w1 [a|e]]; intros Hk.
  - right. eauto.
  - left. injection Hk as <- <-. eauto.
Qed.

Lemma bind_Ok_inv {A B} (c : M A) (k : A → M B) w w' b :
  bind c k w = (w', Ok b) →
  ∃ a w1, c w = (w1, Ok a) ∧ k a w1 = (w', Ok b).
Proof.
  intros Hb. apply bind_inv in Hb as [(e & _ & ?)|?]; [discriminate|done].
Qed.

Lemma bind_Ok {A B} (c : M A) (k : A → M B) w w1 a :
  c w = (w1, Ok a) → bind c k w = k a w1.
Proof. unfold bind. by intros ->. Qed.

Section Respects.
Context (R : relation (World double T)) `{!Reflexive R, !Transitive R}.

Lemma respects_ret {A} (a : A) : respects R (ret a).
Proof. intros w w' r [= <- _]. reflexivity. Qed.

Lemma respects_throw {A} e : respects R (throw (A:=A) e).
Proof. intros w w' r [= <- _]. reflexivity. Qed.

Lemma respects_lift {A} (x : result A) : respects R (lift x).
Proof. intros w w' r [= <- _]. reflexivity. Qed.

Lemma respects_getReporter : respects R getReporter.
Proof. intros w w' r [= <- _]. reflexivity. Qed.

Lemma respects_THROW_IF cond e : respects R (OPENSIM_THROW_IF cond e).
Proof.
  destruct cond; [apply respects_throw|apply respects_ret].
Qed.

Lemma respects_bind {A B} (c : M A) (k : A → M B) :
  respects R c → (∀ a, respects R (k a)) → respects R (bind c k).
Proof.
  intros Hc Hk w w' r Hb.
  apply bind_inv in Hb as [(e & Hr & _)|(a & w1 & Hr & Hr')].
  - by eapply Hc.
  - etrans; [by eapply Hc|by eapply Hk].
Qed.

Lemma respects_forEach {A} (l : list A) (body : A → M unit) :
  (∀ x, respects R (body x)) → respects R (forEach l body).
Proof.
  intros Hbody. induction l as [|x l IH]; simpl.
  - apply respects_ret.
  - apply respects_bind; auto.
Qed.

Lemma respects_forEachCollect {A B} (l : list A) (body : A → M B) :
  (∀ x, respects R (body x)) → respects R (forEachCollect l body).
Proof.
  intros Hbody. induction l as [|x l IH]; simpl.
  - apply respects_ret.
  - apply respects_bind; auto. intros b.
    apply respects_bind; auto. intros bs. apply respects_ret.
Qed.
End Respects.

Global Instance grows_refl (P : Event double → Prop) :
  Reflexive (grows (T:=T) P).
Proof.
  intros w. exists []. by rewrite !app_nil_r.
Qed.

Global Instance grows_trans (P : Event double → Prop) :
  Transitive (grows (T:=T) P).
Proof.
  intros w1 w2 w3 (evs1 & Ht1 & HP1 & Hi1 & Ha1) (evs2 & Ht2 & HP2 & Hi2 & Ha2).
  exists (evs1 ++ evs2). split_and!.
  - by rewrite Ht2, Ht1, app_assoc.
  - by apply Forall_app.
  - unfold registrations in *.
    by rewrite Hi2, Hi1, omap_app, app_assoc.
  - auto.
Qed.

Lemma respects_emit (P : Event double → Prop) ev :
  P ev → registered ev = None → respects (grows P) (emit (T:=T) ev).
Proof.
  intros HP Hreg w w' r [= <- _]. exists [ev]. simpl. split_and!; auto.
  unfold registrations. simpl. rewrite Hreg. by rewrite app_nil_r.
Qed.

Lemma respects_addToReport (P : Event double → Prop) o :
  P (AddToReport o) → respects (grows P) (addToReport (T:=T) o).
Proof.
  intros HP w w' r [= <- _]. exists [AddToReport o]. simpl. auto.
Qed.
End MonadFacts.

Ltac bind_inv H :=
  let e := fresh "e" in
  let a := fresh "a" in
  let w1 := fresh "w" in
  let Hc := fresh "Hc" in
  let Heq := fresh "Heq" in
  apply bind_inv in H as [(e & Hc & Heq)|(a & w1 & Hc & H)];
  [match type of Heq with
   | ?x = _ => first [subst x|injection Heq as ->|discriminate Heq|idtac]
   end|].

Ltac bind_Ok_inv H :=
  let a := fresh "a" in
  let w1 := fresh "w" in
  let Hc := fresh "Hc" in
  apply bind_Ok_inv in H as (a & w1 & Hc & H);
  try match type of a with unit => destruct a end.

(** ** The scan of the outputs (lines 235-254) *)

Section ScanFacts.
Context {double T State : Type} `{!Platform double T State}.
Implicit Type w : World double T.

Lemma extend_nil w : extend w [] [] = w.
Proof.
  destruct w as [tr [i a r]]. unfold extend. simpl. by rewrite !app_nil_r.
Qed.

Lemma extend_events w evs :
  extend w evs [] = mkWorld (trace w ++ evs) (reporter w).
Proof.
  destruct w as [tr [i a r]]. unfold extend. simpl. by rewrite app_nil_r.
Qed.

Lemma extend_extend w evs1 os1 evs2 os2 :
  extend (extend w evs1 os1) evs2 os2 = extend w (evs1 ++ evs2) (os1 ++ os2).
Proof. unfold extend. simpl. by rewrite !app_assoc. Qed.

Lemma selects_fullyMatches p o :
  selects p o = true ↔ fullyMatches p o.
Proof.
  unfold selects, fullyMatches. destruct (std_regex p) as [re|].
  - rewrite regex_match_Lang. split; [eauto|].
    by intros (re' & [= <-] & HL).
  - split; [done|]. by intros (re' & ? & _).
Qed.

Lemma hasTypeT_eq o : hasTypeT o = true ↔ getTypeName o = typeNameT.
Proof. apply String.eqb_eq. Qed.

Lemma matchOutput_run o p w :
  is_Some (std_regex p) →
  matchOutput o p w =
    (extend w
       (if selects p o
        then if hasTypeT o then [LogDebug o; AddToReport o] else [LogWarn o]
        else [])
       (if selects p o && hasTypeT o then [o] else []),
     Ok tt).
Proof.
  intros [re Hre]. unfold matchOutput, selects, hasTypeT. rewrite Hre.
  destruct (regex_match (getPathName o) re); simpl.
  - destruct (String.eqb (getTypeName o) typeNameT).
    + unfold bind, emit, addToReport, bind, emit, updReporter, extend.
      simpl. by rewrite <- app_assoc.
    + by rewrite extend_events.
  - unfold ret. by rewrite extend_nil.
Qed.

Lemma scan_patterns o outputPaths : ∀ w,
  Forall (λ p, is_Some (std_regex p)) outputPaths →
  forEach outputPaths (λ p, matchOutput o p) w =
    (extend w
       (flat_map (λ p, if selects p o
                       then if hasTypeT o
                            then [LogDebug o; AddToReport o]
                            else [LogWarn o]
                       else []) outputPaths)
       (flat_map (λ p, if selects p o && hasTypeT o then [o] else [])
                 outputPaths),
     Ok tt).
Proof.
  induction outputPaths as [|p ps IH]; intros w Hwf; simpl.
  - unfold ret. by rewrite extend_nil.
  - apply Forall_cons in Hwf as [Hp Hps].
    erewrite bind_Ok by (by apply matchOutput_run).
    rewrite IH by done. by rewrite extend_extend.
Qed.

Lemma scan_outputs outputPaths (os : list Output) : ∀ w,
  Forall (λ p, is_Some (std_regex p)) outputPaths →
  forEach os (λ o, forEach outputPaths (λ p, matchOutput o p)) w =
    (extend w
       (flat_map (λ o, flat_map (λ p, if selects p o
                       then if hasTypeT o
                            then [LogDebug o; AddToReport o]
                            else [LogWarn o]
                       else []) outputPaths) os)
       (flat_map (λ o, flat_map
                    (λ p, if selects p o && hasTypeT o then [o] else [])
                    outputPaths) os),
     Ok tt).
Proof.
  induction os as [|o os IH]; intros w Hwf; simpl.
  - unfold ret. by rewrite extend_nil.
  - erewrite bind_Ok by (by apply scan_patterns).
    rewrite IH by done. by rewrite extend_extend.
Qed.

(** With well-formed patterns the scan completes; it logs and registers
    what [scanEvents] and [matchedOutputs] say. *)
Lemma collectOutputs_run model outputPaths w :
  Forall (λ p, is_Some (std_regex p)) outputPaths →
  collectOutputs model outputPaths w =
    (extend w (scanEvents model outputPaths)
              (matchedOutputs model outputPaths), Ok tt).
Proof.
  intros Hwf. unfold collectOutputs, scanEvents, matchedOutputs, allOutputs.
  revert w. induction (getComponentList model) as [|c cs IH]; intros w; simpl.
  - unfold ret. by rewrite extend_nil.
  - erewrite bind_Ok by (by apply scan_outputs).
    rewrite IH. by rewrite extend_extend, !flat_map_app.
Qed.

(** Whatever the patterns, the scan only logs and registers. *)
Lemma collectOutputs_grows model outputPaths :
  respects (grows isScanEvent) (collectOutputs model outputPaths).
Proof.
  unfold collectOutputs.
  apply respects_forEach; [apply _..|]. intros comp.
  apply respects_forEach; [apply _..|]. intros o.
  apply respects_forEach; [apply _..|]. intros p.
  unfold matchOutput. destruct (std_regex p) as [re|].
  - destruct (regex_match _ re); [|apply respects_ret; apply _].
    destruct (String.eqb _ _).
    + apply respects_bind; [apply _..| |].
      * by apply respects_emit.
      * intros _. by apply respects_addToReport.
    + by apply respects_emit.
  - apply respects_throw; apply _.
Qed.

Lemma registrations_scanEvents model outputPaths :
  registrations (scanEvents (double:=double) model outputPaths) =
  matchedOutputs model outputPaths.
Proof.
  unfold scanEvents, matchedOutputs, registrations.
  induction (allOutputs model) as [|o os IH]; simpl; [done|].
  rewrite omap_app, IH. f_equal. clear IH.
  induction outputPaths as [|p ps IHp]; simpl; [done|].
  rewrite omap_app, IHp.
  by destruct (selects p o), (hasTypeT o).
Qed.

Lemma elem_of_matchedOutputs model outputPaths o :
  In o (matchedOutputs model outputPaths) ↔
  In o (allOutputs model) ∧
  (∃ p, In p outputPaths ∧ fullyMatches p o) ∧
  getTypeName o = typeNameT.
Proof.
  unfold matchedOutputs. rewrite in_flat_map. split.
  - intros (o' & Ho' & Hin). apply in_flat_map in Hin as (p & Hp & Hin).
    destruct (selects p o') eqn:Hsel; [|done].
    destruct (hasTypeT o') eqn:Hty; [|done].
    destruct Hin as [<-|[]]. split_and!; [done| |by apply hasTypeT_eq].
    exists p. split; [done|]. by apply selects_fullyMatches.
  - intros (Ho & (p & Hp & Hm) & Hty). exists o. split; [done|].
    apply in_flat_map. exists p. split; [done|].
    apply selects_fullyMatches in Hm. apply hasTypeT_eq in Hty.
    rewrite Hm, Hty. by left.
Qed.

Lemma LogWarn_scanEvents model outputPaths o :
  In (LogWarn o) (scanEvents (double:=double) model outputPaths) ↔
  In o (allOutputs model) ∧
  (∃ p, In p outputPaths ∧ fullyMatches p o) ∧
  getTypeName o ≠ typeNameT.
Proof.
  unfold scanEvents. rewrite in_flat_map. split.
  - intros (o' & Ho' & Hin). apply in_flat_map in Hin as (p & Hp & Hin).
    destruct (selects p o') eqn:Hsel; [|done].
    destruct (hasTypeT o') eqn:Hty.
    + destruct Hin as [|[|[]]]; discriminate.
    + destruct Hin as [[= <-]|[]]. split_and!; [done| |].
      * exists p. split; [done|]. by apply selects_fullyMatches.
      * intros Heq. apply hasTypeT_eq in Heq. congruence.
  - intros (Ho & (p & Hp & Hm) & Hty). exists o. split; [done|].
    apply in_flat_map. exists p. split; [done|].
    apply selects_fullyMatches in Hm. rewrite Hm.
    destruct (hasTypeT o) eqn:Heq; [|by left].
    apply hasTypeT_eq in Heq. done.
Qed.
End ScanFacts.

(** ** The loop over the samples (lines 303-337) *)

Section ReplayFacts.
Context {double T State : Type} `{!Platform double T State}.
Implicit Type w : World double T.
Local Abbreviation TimeSeriesTable := (TimeSeriesTable_ double double).

Lemma emit_inv (ev : Event double) w w' r :
  emit (T:=T) ev w = (w', r) →
  w' = mkWorld (trace w ++ [ev]) (reporter w) ∧ r = Ok tt.
Proof. by intros [= <- <-]. Qed.

Lemma lift_inv {A} (x : result A) w w' r :
  lift x w = (w', r) → w' = w ∧ r = x.
Proof. by intros [= <- <-]. Qed.

Lemma assignControl_length cmap (row controls controls' : list double) i name :
  assignControl cmap row controls i name = Ok controls' →
  length controls' = length controls.
Proof.
  unfold assignControl. destruct (elementAt row i); [|done].
  destruct (cmap !! name) as [idx|]; [|done].
  case_decide; [|done]. intros [= <-]. apply length_insert.
Qed.

(** The vector keeps the size it was given at line 265. *)
Lemma injectControls_length cmap names (row : list double) :
  ∀ i controls controls',
  injectControls cmap names row i controls = Ok controls' →
  length controls' = length controls.
Proof.
  induction names as [|name names IH]; intros i controls controls'; simpl.
  - by intros [= <-].
  - destruct (assignControl _ _ _ _ _) as [c1|] eqn:Ha; [|done].
    intros Hi. apply IH in Hi. apply assignControl_length in Ha. congruence.
Qed.

(** The loop over the columns completes only if every label is a key of
    the map. *)
Lemma injectControls_resolves cmap names (row : list double) :
  ∀ i controls controls',
  injectControls cmap names row i controls = Ok controls' →
  Forall (λ name, is_Some (cmap !! name)) names.
Proof.
  induction names as [|name names IH]; intros i controls controls'; simpl.
  - constructor.
  - destruct (assignControl _ _ _ _ _) as [c1|] eqn:Ha; [|done].
    intros Hi. constructor; [|by eapply IH].
    unfold assignControl in Ha. destruct (elementAt row i); [|done].
    destruct (cmap !! name); [eauto|done].
Qed.

(** What the loop over the columns writes when it completes, for distinct
    labels with distinct slots: the entry of column [j] at the slot of its
    label, and nothing anywhere else. *)
Lemma injectControls_writes cmap names (row : list double) :
  ∀ i controls controls',
  NoDup names →
  (∀ n1 n2 idx, In n1 names → In n2 names →
                cmap !! n1 = Some idx → cmap !! n2 = Some idx → n1 = n2) →
  injectControls cmap names row i controls = Ok controls' →
  (∀ j name idx, names !! j = Some name → cmap !! name = Some idx →
                 controls' !! idx = row !! (i + j)) ∧
  (∀ k, (∀ name, In name names → cmap !! name ≠ Some k) →
        controls' !! k = controls !! k).
Proof.
  induction names as [|name names IH]; intros i controls controls' Hnd Hinj;
    simpl.
  - intros [= <-]. split; [|done]. intros j name idx Hj.
    by rewrite lookup_nil in Hj.
  - destruct (assignControl _ _ _ _ _) as [c1|] eqn:Ha; [|done].
    intros Hrest. apply NoDup_cons in Hnd as [Hfresh Hnd].
    apply IH in Hrest as [Hhit Hmiss]; [|done|].
    2: { intros n1 n2 idx H1 H2. apply Hinj; by right. }
    unfold assignControl, elementAt in Ha.
    destruct (row !! i) as [v|] eqn:Hv; [|done].
    destruct (cmap !! name) as [idx0|] eqn:Hname; [|done].
    case_decide as Hlt; [|done]. injection Ha as <-. split.
    + intros [|j] name' idx Hj Hidx; simpl in Hj.
      * injection Hj as <-. rewrite Hname in Hidx. injection Hidx as <-.
        rewrite Hmiss.
        -- by rewrite list_lookup_insert_eq, Nat.add_0_r.
        -- intros n Hn Hn'. apply Hfresh. apply list_elem_of_In.
           replace name with n; [done|].
           apply (Hinj n name idx0); [by right|by left|done|done].
      * replace (i + S j) with (S i + j) by lia. by eapply Hhit.
    + intros k Hk. rewrite Hmiss.
      * apply list_lookup_insert_ne. intros ->.
        by apply (Hk name); [left|].
      * intros n Hn. apply Hk. by right.
Qed.

Lemma applyDiscreteFrom_Ok (dvt : TimeSeriesTable) refs itime labels :
  ∀ idv state w w' state',
  applyDiscreteFrom dvt refs itime idv labels state w = (w', Ok state') →
  ∃ ds, w' = mkWorld (trace w ++ ds) (reporter w) ∧
        Forall (isDiscreteAt itime) ds ∧ length ds = length labels.
Proof.
  induction labels as [|label labels IH]; intros idv state w w' state' Hr;
    simpl in Hr.
  - injection Hr as <- _. exists []. destruct w. simpl.
    by rewrite app_nil_r.
  - bind_Ok_inv Hr. apply lift_inv in Hc as [-> _].
    bind_Ok_inv Hr. apply lift_inv in Hc as [-> _].
    bind_Ok_inv Hr. apply lift_inv in Hc as [-> _].
    bind_Ok_inv Hr. apply emit_inv in Hc as [-> _].
    bind_Ok_inv Hr. apply lift_inv in Hc as [-> _].
    apply IH in Hr as (ds & -> & Hds & Hlen). simpl.
    eexists (_ :: ds). split_and!.
    + by rewrite <- app_assoc.
    + constructor; [done|done].
    + simpl. by rewrite Hlen.
Qed.

Lemma applyDiscrete_Ok (dvt : TimeSeriesTable) refs itime state w w' state' :
  applyDiscrete dvt refs itime state w = (w', Ok state') →
  ∃ ds, w' = mkWorld (trace w ++ ds) (reporter w) ∧
        Forall (isDiscreteAt itime) ds ∧ length ds = getNumColumns dvt.
Proof.
  unfold applyDiscrete. destruct (getNumColumns dvt =? 0) eqn:Hn.
  - intros [= <- _]. exists []. apply Nat.eqb_eq in Hn.
    destruct w. simpl. by rewrite app_nil_r, Hn.
  - apply applyDiscreteFrom_Ok.
Qed.

Lemma applyDiscreteFrom_grows (dvt : TimeSeriesTable) refs itime labels :
  ∀ idv state,
  respects (grows isLateEvent)
    (applyDiscreteFrom dvt refs itime idv labels state).
Proof.
  induction labels as [|label labels IH]; intros idv state; simpl.
  - apply respects_ret; apply _.
  - repeat (apply respects_bind; [apply _..| |intros ?]);
      try (apply respects_lift; apply _).
    + by apply respects_emit.
    + apply IH.
Qed.

Lemma implementReport_grows state :
  respects (grows isLateEvent) (implementReport state).
Proof.
  intros w w' r [= <- _]. exists []. simpl. rewrite !app_nil_r.
  split_and!; [done|constructor| |]; by destruct (attached (reporter w)).
Qed.

(** Whatever happens in the loop, nothing is registered any more. *)
Lemma replay_grows model (ct : TimeSeriesTable) names cmap dvt refs traj :
  ∀ itime controls,
  respects (grows isLateEvent)
    (replay model ct names cmap dvt refs itime traj controls).
Proof.
  induction traj as [|s traj IH]; intros itime controls; simpl.
  - apply respects_ret; apply _.
  - repeat (apply respects_bind; [apply _..| |intros ?]);
      try (apply respects_lift; apply _);
      try (by apply respects_emit).
    + unfold applyDiscrete. destruct (_ =? _).
      * apply respects_ret; apply _.
      * apply applyDiscreteFrom_grows.
    + apply implementReport_grows.
    + apply IH.
Qed.

(** A loop that completes made, for every state of the trajectory and
    in row order, the calls [sampleCalls], and the reporter captured one
    row per state, as wide as its inputs. *)
Lemma replay_Ok model (ct : TimeSeriesTable) names cmap dvt refs traj :
  ∀ itime controls w w',
  replay model ct names cmap dvt refs itime traj controls w = (w', Ok tt) →
  attached (reporter w) = true →
  ∃ per rows,
    trace w' = trace w ++ concat per ∧
    reporter w' = mkReporter (inputs (reporter w)) true
                    (reported (reporter w) ++ rows) ∧
    length per = length traj ∧ length rows = length traj ∧
    Forall (λ r : double * list T,
              length r.2 = length (inputs (reporter w))) rows ∧
    ∀ k evs, per !! k = Some evs →
      ∃ c ds, evs = sampleCalls (itime + k) c ds ∧
              Forall (isDiscreteAt (itime + k)) ds ∧
              length ds = getNumColumns dvt ∧
              length c = length controls.
Proof.
  induction traj as [|s traj IH]; intros itime controls w w' Hr Hatt;
    simpl in Hr.
  - injection Hr as <-. exists [], []. simpl. rewrite !app_nil_r.
    split_and!; try done.
    destruct w as [tr [i a r]]. simpl in *. by subst a.
  - bind_Ok_inv Hr. apply emit_inv in Hc as [-> _].
    bind_Ok_inv Hr. apply emit_inv in Hc as [-> _].
    bind_Ok_inv Hr. apply lift_inv in Hc as [-> Hrow].
    bind_Ok_inv Hr. apply lift_inv in Hc as [-> Hinj].
    rename a0 into controls'.
    bind_Ok_inv Hr. apply emit_inv in Hc as [-> _].
    bind_Ok_inv Hr. apply emit_inv in Hc as [-> _].
    bind_Ok_inv Hr. apply applyDiscrete_Ok in Hc as (ds & -> & Hds & Hlen).
    bind_Ok_inv Hr. apply emit_inv in Hc as [-> _].
    bind_Ok_inv Hr. injection Hc as <-. simpl in Hr.
    rewrite Hatt in Hr.
    apply IH in Hr as (per & rows & Htr & Hrep & Hper & Hrows & Hwid & Hk);
      [|done].
    simpl in *. symmetry in Hinj. apply injectControls_length in Hinj.
    eexists (sampleCalls itime controls' ds :: per), (_ :: rows).
    split_and!.
    + rewrite Htr. unfold sampleCalls. simpl.
      repeat rewrite <- app_assoc. done.
    + rewrite Hrep. by rewrite <- app_assoc.
    + simpl. by rewrite Hper.
    + simpl. by rewrite Hrows.
    + constructor; [|done]. simpl. by rewrite length_map.
    + intros [|k] evs Hev; simpl in Hev.
      * injection Hev as <-. rewrite Nat.add_0_r. by exists controls', ds.
      * apply Hk in Hev as (c & ds' & -> & ? & ? & ?).
        replace (itime + S k) with (S (itime + k)) by lia.
        exists c, ds'. split_and!; try done. congruence.
Qed.
End ReplayFacts.

(** ** [analyze] as a whole *)

Section AnalyzeFacts.
Context {double T State : Type} `{!Platform double T State}.
Implicit Type w : World double T.
Local Abbreviation TimeSeriesTable := (TimeSeriesTable_ double double).

Lemma forEach_Ok {A} (body : A → M double T unit)
    (f : A → list (Event double)) (g : A → list Output) (l : list A) :
  (∀ x w w', body x w = (w', Ok tt) → w' = extend w (f x) (g x)) →
  ∀ w w', forEach l body w = (w', Ok tt) →
          w' = extend w (flat_map f l) (flat_map g l).
Proof.
  intros Hbody. induction l as [|x l IH]; intros w w' Hr; simpl in Hr.
  - injection Hr as <-. simpl. by rewrite extend_nil.
  - bind_Ok_inv Hr. apply Hbody in Hc as ->.
    apply IH in Hr as ->. simpl. by rewrite extend_extend.
Qed.

(** A scan that completes logged and registered what [scanEvents] and
    [matchedOutputs] say. *)
Lemma collectOutputs_Ok model outputPaths w w' :
  collectOutputs model outputPaths w = (w', Ok tt) →
  w' = extend w (scanEvents model outputPaths)
                (matchedOutputs model outputPaths).
Proof.
  intros Hr. unfold collectOutputs in Hr.
  eapply (forEach_Ok _
            (λ c, flat_map (λ o, flat_map (λ p,
                    if selects p o
                    then if hasTypeT o then [LogDebug o; AddToReport o]
                         else [LogWarn o]
                    else []) outputPaths) (getOutputs c))
            (λ c, flat_map (λ o, flat_map (λ p,
                    if selects p o && hasTypeT o then [o] else [])
                    outputPaths) (getOutputs c))) in Hr.
  - subst w'. unfold scanEvents, matchedOutputs, allOutputs. f_equal.
    + induction (getComponentList model) as [|c cs IH]; simpl; [done|].
      by rewrite flat_map_app, IH.
    + induction (getComponentList model) as [|c cs IH]; simpl; [done|].
      by rewrite flat_map_app, IH.
  - intros c w1 w2. apply forEach_Ok. intros o w3 w4. apply forEach_Ok.
    intros p w5 w6 Hm.
    destruct (std_regex p) as [re|] eqn:Hre.
    + rewrite matchOutput_run in Hm by eauto. by injection Hm as <-.
    + unfold matchOutput in Hm. rewrite Hre in Hm. discriminate.
Qed.

(** Resolving the components makes no call and leaves the reporter
    alone. *)
Lemma resolveDiscreteComponents_respects
    (R : relation (World double T)) `{!Reflexive R, !Transitive R}
    model (st dvt : TimeSeriesTable) :
  respects R (resolveDiscreteComponents (T:=T) model st dvt).
Proof.
  unfold resolveDiscreteComponents. destruct (_ =? _).
  - apply respects_ret; apply _.
  - apply respects_bind; [apply _..| |intros _].
    + apply respects_THROW_IF; apply _.
    + apply respects_forEachCollect; [apply _..|]. intros label.
      apply respects_bind; [apply _..| |intros c].
      * apply respects_lift; apply _.
      * apply respects_ret; apply _.
Qed.

Lemma resolveDiscreteComponents_inv model (st dvt : TimeSeriesTable) w w' r :
  resolveDiscreteComponents (T:=T) model st dvt w = (w', r) → w' = w.
Proof.
  intros Hr. symmetry. revert Hr.
  apply (resolveDiscreteComponents_respects eq).
Qed.

Lemma scan_not_AddComponent (evs : list (Event double)) :
  Forall isScanEvent evs → ¬ In AddComponent evs.
Proof.
  intros HF Hin. rewrite Forall_forall in HF.
  apply list_elem_of_In, HF in Hin. done.
Qed.

Lemma late_not_AddComponent (evs : list (Event double)) :
  Forall isLateEvent evs → ¬ In AddComponent evs.
Proof.
  intros HF Hin. rewrite Forall_forall in HF.
  apply list_elem_of_In, HF in Hin. done.
Qed.

Lemma late_registrations (evs : list (Event double)) :
  Forall isLateEvent evs → registrations evs = [].
Proof.
  induction 1 as [|e evs He _ IH]; [done|].
  unfold registrations in *. simpl. destruct e; simpl; done.
Qed.

Lemma sampleCalls_late itime (c : list double) ds :
  Forall (isDiscreteAt itime) ds → Forall isLateEvent (sampleCalls itime c ds).
Proof.
  intros Hds. unfold sampleCalls. repeat (constructor; [done|]).
  apply Forall_app. split; [|by repeat constructor].
  eapply Forall_impl; [done|]. by intros [].
Qed.

Lemma In_registrations (evs : list (Event double)) o :
  In o (registrations evs) ↔ In (AddToReport o) evs.
Proof.
  unfold registrations. rewrite <- !list_elem_of_In, list_elem_of_omap.
  split.
  - intros (e & He & Hreg). destruct e; try discriminate.
    by injection Hreg as ->.
  - intros Hin. by exists (AddToReport o).
Qed.

(** Where a list is cut at an element that occurs only once. *)
Lemma cut_unique {A} (a : A) (l1 l2 pre post : list A) :
  l1 ++ a :: l2 = pre ++ a :: post →
  ¬ In a l1 → ¬ In a l2 → pre = l1 ∧ post = l2.
Proof.
  revert pre. induction l1 as [|y l1 IH]; intros [|x pre] Heq H1 H2;
    simpl in *.
  - by injection Heq as ->.
  - injection Heq as <- ->. destruct H2. apply in_or_app. right. by left.
  - injection Heq as -> _. destruct H1. by left.
  - injection Heq as -> Heq. apply IH in Heq as [-> ->]; [done| |done].
    intros Hin. apply H1. by right.
Qed.

(** From the states trajectory on, nothing is registered or attached. *)
Lemma analyze_tail_late model (st ct : TimeSeriesTable) dvt :
  respects (grows isLateEvent)
    (statesTraj <- lift (createFromStatesTable model st) ;;
     controlMap <- lift (createSystemControlIndexMap model) ;;
     OPENSIM_THROW_IF
       (negb (getNumRows st =? getNumRows ct))
       (RowCountMismatch StatesVsControls (getNumRows st) (getNumRows ct)) ;;
     discreteComponentRefs <- resolveDiscreteComponents model st dvt ;;
     replay model ct (getColumnLabels ct) controlMap dvt
       discreteComponentRefs 0 statesTraj
       (replicate (getNumColumns ct) zero) ;;
     r <- getReporter ;;
     ret (getTable r)).
Proof.
  repeat (apply respects_bind; [apply _..| |intros ?]);
    try (apply respects_lift; apply _).
  - apply respects_THROW_IF; apply _.
  - apply resolveDiscreteComponents_respects; apply _.
  - apply replay_grows.
  - apply respects_getReporter; apply _.
Qed.

(** The calls of any run: the first [initSystem], the scan, and, when
    the scan completes, the attachment of the reporter, the second
    [initSystem] and calls that register nothing.  The reporter holds
    what the scan registered. *)
Lemma analyze_shape model (st ct : TimeSeriesTable) outputPaths dvt w res :
  run_analyze model st ct outputPaths dvt = (w, res) →
  ∃ scan w1 r1,
    collectOutputs model outputPaths
      (mkWorld [InitSystem] (mkReporter [] false [])) = (w1, r1) ∧
    trace w1 = InitSystem :: scan ∧
    Forall isScanEvent scan ∧
    inputs (reporter w) = registrations scan ∧
    ((¬ is_Ok r1 ∧ trace w = InitSystem :: scan ∧ ¬ is_Ok res) ∨
     (is_Ok r1 ∧
      ∃ late, trace w =
                (InitSystem :: scan) ++ AddComponent :: InitSystem :: late ∧
              Forall isLateEvent late)).
Proof.
  unfold run_analyze, analyze. intros Hr.
  bind_inv Hr; [discriminate|]. apply emit_inv in Hc as [-> _].
  bind_inv Hr.
  - pose proof Hc as Hscan'.
    apply collectOutputs_grows in Hc as (scan & Ht & Hscan & Hin & _).
    simpl in *.
    exists scan, w, (Err e). split_and!; [done..|]. left.
    split_and!; [tauto|done|tauto].
  - pose proof Hc as Hscan'.
    apply collectOutputs_grows in Hc as (scan & Ht & Hscan & Hin & _).
    simpl in Ht, Hin.
    bind_inv Hr; [discriminate|]. injection Hc as <- _.
    bind_inv Hr; [discriminate|]. apply emit_inv in Hc as [-> _].
    simpl in Hr. rewrite <- app_assoc in Hr. simpl in Hr.
    apply analyze_tail_late in Hr as (late & Ht' & Hlate & Hin' & _).
    simpl in Ht', Hin'.
    exists scan. eexists _, _. split_and!; [exact Hscan'|done..| |].
    + rewrite Hin', Hin. by rewrite (late_registrations late), app_nil_r.
    + right. split; [done|]. exists late. split; [|done].
      rewrite Ht', Ht. simpl. by rewrite <- app_assoc.
Qed.

(** With well-formed patterns the scan is [scanEvents] and completes. *)
Lemma analyze_scan model (st ct : TimeSeriesTable) outputPaths dvt w res :
  Forall (λ p, is_Some (std_regex p)) outputPaths →
  run_analyze model st ct outputPaths dvt = (w, res) →
  inputs (reporter w) = matchedOutputs model outputPaths ∧
  ∃ late, trace w = (InitSystem :: scanEvents model outputPaths) ++
                    AddComponent :: InitSystem :: late ∧
          Forall isLateEvent late.
Proof.
  intros Hwf Hr.
  apply analyze_shape in Hr
    as (scan & w1 & r1 & Hscan & Ht & _ & Hin & Hcases).
  rewrite collectOutputs_run in Hscan by done.
  injection Hscan as <- <-. simpl in Ht. injection Ht as <-.
  rewrite registrations_scanEvents in Hin. split; [done|].
  destruct Hcases as [(Hno & _)|(_ & Hlate)]; [|done].
  destruct Hno. done.
Qed.
End AnalyzeFacts.

Section AnalyzeRuns.
Context {double T State : Type} `{!Platform double T State}.
Implicit Type w : World double T.
Local Abbreviation TimeSeriesTable := (TimeSeriesTable_ double double).

Lemma emit_run (ev : Event double) w :
  emit (T:=T) ev w = (mkWorld (trace w ++ [ev]) (reporter w), Ok tt).
Proof. done. Qed.

Lemma THROW_IF_inv (cond : bool) e w w' r :
  OPENSIM_THROW_IF cond e w = (w', r) → w' = w.
Proof. destruct cond; by intros [= <- _]. Qed.

Lemma THROW_IF_Ok (cond : bool) e w w' :
  OPENSIM_THROW_IF cond e w = (w', Ok tt) → cond = false ∧ w' = w.
Proof. destruct cond; [done|]. by intros [= <-]. Qed.

Lemma resolveDiscreteComponents_Ok model (st dvt : TimeSeriesTable) w w' refs :
  resolveDiscreteComponents (T:=T) model st dvt w = (w', Ok refs) →
  getNumColumns dvt ≠ 0 → getNumRows dvt = getNumRows st.
Proof.
  unfold resolveDiscreteComponents. intros Hr Hn.
  apply Nat.eqb_neq in Hn. rewrite Hn in Hr.
  bind_Ok_inv Hr. apply THROW_IF_Ok in Hc as [Hc _].
  apply negb_false_iff in Hc. by apply Nat.eqb_eq in Hc.
Qed.

Lemma collect_length {A} (l : list (result A)) r :
  collect l = Ok r → length r = length l.
Proof.
  revert r. induction l as [|[a|e] l IH]; intros r; simpl; [by intros [= <-]| |done].
  destruct (collect l) as [r'|]; [|done]. intros [= <-]. simpl.
  by rewrite (IH r').
Qed.

(** One state per row of the states table. *)
Lemma createFromStatesTable_size model (st : TimeSeriesTable) traj :
  createFromStatesTable model st = Ok traj → length traj = getNumRows st.
Proof.
  unfold createFromStatesTable. intros Hc. apply collect_length in Hc.
  by rewrite length_map in Hc.
Qed.

(** What a run that returns a table has done. *)
Lemma analyze_Ok model (st ct : TimeSeriesTable) outputPaths dvt w tbl :
  run_analyze model st ct outputPaths dvt = (w, Ok tbl) →
  ∃ traj cmap per rows,
    createFromStatesTable model st = Ok traj ∧
    createSystemControlIndexMap model = Ok cmap ∧
    getNumRows st = getNumRows ct ∧
    (getNumColumns dvt ≠ 0 → getNumRows dvt = getNumRows st) ∧
    trace w = (InitSystem :: scanEvents model outputPaths ++
               [AddComponent; InitSystem]) ++ concat per ∧
    reporter w = mkReporter (matchedOutputs model outputPaths) true rows ∧
    tbl = mkTable (map getPathName (matchedOutputs model outputPaths)) rows ∧
    length per = length traj ∧ length rows = length traj ∧
    Forall (λ r : double * list T,
              length r.2 = length (matchedOutputs model outputPaths)) rows ∧
    ∀ k evs, per !! k = Some evs →
      ∃ c ds, evs = sampleCalls k c ds ∧
              Forall (isDiscreteAt k) ds ∧
              length ds = getNumColumns dvt ∧
              length c = getNumColumns ct.
Proof.
  unfold run_analyze, analyze. intros Hr.
  bind_Ok_inv Hr. apply emit_inv in Hc as [-> _].
  bind_Ok_inv Hr. apply collectOutputs_Ok in Hc as ->.
  bind_Ok_inv Hr. injection Hc as <-.
  bind_Ok_inv Hr. apply emit_inv in Hc as [-> _].
  bind_Ok_inv Hr. apply lift_inv in Hc as [-> Htraj]. rename a into traj.
  bind_Ok_inv Hr. apply lift_inv in Hc as [-> Hcmap]. rename a into cmap.
  bind_Ok_inv Hr. apply THROW_IF_Ok in Hc as [Hrows ->].
  bind_Ok_inv Hr. pose proof Hc as Hdvt.
  apply resolveDiscreteComponents_inv in Hc as ->.
  bind_Ok_inv Hr.
  apply replay_Ok in Hc as (per & rows & Htr & Hrep & Hper & Hlen & Hwid & Hk);
    [|done].
  bind_Ok_inv Hr. injection Hc as <- <-. injection Hr as <- <-.
  simpl in *. rewrite length_replicate in Hk.
  exists traj, cmap, per, rows. split_and!; try done.
  - apply negb_false_iff in Hrows. by apply Nat.eqb_eq in Hrows.
  - intros Hn. by eapply resolveDiscreteComponents_Ok.
  - rewrite Htr. by rewrite <- !app_assoc.
  - unfold getTable. by rewrite Hrep.
Qed.

(** The vector written into the state has one element per column of the
    controls table, whatever the number of controls of the model. *)
Lemma setControls_width model (st ct : TimeSeriesTable) outputPaths dvt
    w tbl itime controls :
  run_analyze model st ct outputPaths dvt = (w, Ok tbl) →
  In (SetControls itime controls) (trace w) →
  length controls = getNumColumns ct.
Proof.
  intros Hr Hin.
  apply analyze_Ok in Hr
    as (_ & _ & per & _ & _ & _ & _ & _ & Ht & _ & _ & _ & _ & _ & Hk).
  rewrite Ht in Hin. apply in_app_or in Hin as [Hin|Hin].
  - exfalso. destruct Hin as [|Hin]; [done|].
    apply in_app_or in Hin as [Hin|[|[|[]]]]; [|done..].
    apply list_elem_of_In in Hin.
    unfold scanEvents in Hin. apply list_elem_of_In, in_flat_map in Hin
      as (o & _ & Hin).
    apply in_flat_map in Hin as (p & _ & Hin).
    destruct (selects p o), (hasTypeT o); simpl in Hin;
      by repeat destruct Hin as [|Hin].
  - apply in_concat in Hin as (calls & Hcalls & Hin).
    apply list_elem_of_In, list_elem_of_lookup in Hcalls as [k Hcalls].
    apply Hk in Hcalls as (c & ds & -> & Hds & _ & Hlen).
    unfold sampleCalls in Hin. simpl in Hin.
    destruct Hin as [|[|[|[Heq|Hin]]]]; try done.
    + by injection Heq as <- <-.
    + apply in_app_or in Hin as [Hin|[|[]]]; [|done].
      rewrite Forall_forall in Hds.
      by apply list_elem_of_In, Hds in Hin.
Qed.

(** With well-formed patterns, a readable states table and actuators in
    the order of the controls, [analyze] reaches its row-count checks. *)
Lemma analyze_reaches_checks model (st ct : TimeSeriesTable) outputPaths dvt
    traj cmap :
  Forall (λ p, is_Some (std_regex p)) outputPaths →
  createFromStatesTable model st = Ok traj →
  createSystemControlIndexMap model = Ok cmap →
  ∃ w0,
    run_analyze model st ct outputPaths dvt =
      (OPENSIM_THROW_IF
         (negb (getNumRows st =? getNumRows ct))
         (RowCountMismatch StatesVsControls
            (getNumRows st) (getNumRows ct)) ;;
       discreteComponentRefs <- resolveDiscreteComponents model st dvt ;;
       replay model ct (getColumnLabels ct) cmap dvt
         discreteComponentRefs 0 traj
         (replicate (getNumColumns ct) zero) ;;
       r <- getReporter ;;
       ret (getTable r)) w0 ∧
    trace w0 = InitSystem :: scanEvents model outputPaths ++
               [AddComponent; InitSystem] ∧
    reporter w0 = mkReporter (matchedOutputs model outputPaths) true [].
Proof.
  intros Hwf Htraj Hcmap. unfold run_analyze, analyze.
  unfold initSystem. erewrite bind_Ok by apply emit_run.
  erewrite bind_Ok by (by apply collectOutputs_run).
  erewrite bind_Ok by reflexivity.
  erewrite bind_Ok by apply emit_run.
  rewrite Htraj, Hcmap.
  erewrite bind_Ok by reflexivity.
  erewrite bind_Ok by reflexivity.
  eexists. split; [reflexivity|]. simpl. split; [|done].
  by rewrite <- !app_assoc.
Qed.
End AnalyzeRuns.

(** ** Runs that throw *)

Section AnyRun.
Context {double T State : Type} `{!Platform double T State}.
Implicit Type w : World double T.
Local Abbreviation TimeSeriesTable := (TimeSeriesTable_ double double).

Global Instance sameRows_refl : Reflexive (sameRows (double:=double) (T:=T)).
Proof. by intros w. Qed.

Global Instance sameRows_trans : Transitive (sameRows (double:=double) (T:=T)).
Proof. unfold sameRows. intros w1 w2 w3 H1 H2. congruence. Qed.

(** The scan captures no row. *)
Lemma collectOutputs_sameRows model outputPaths :
  respects sameRows (collectOutputs model outputPaths).
Proof.
  unfold collectOutputs.
  apply respects_forEach; [apply _..|]. intros comp.
  apply respects_forEach; [apply _..|]. intros o.
  apply respects_forEach; [apply _..|]. intros p.
  unfold matchOutput. destruct (std_regex p) as [re|].
  - destruct (regex_match _ re); [|apply respects_ret; apply _].
    destruct (String.eqb _ _).
    + apply respects_bind; [apply _..| |intros _].
      * by intros w w' r [= <- _].
      * by intros w w' r [= <- _].
    + by intros w w' r [= <- _].
  - apply respects_throw; apply _.
Qed.

Lemma applyDiscreteFrom_shape (dvt : TimeSeriesTable) refs itime labels :
  ∀ idv state w w' r,
  applyDiscreteFrom dvt refs itime idv labels state w = (w', r) →
  ∃ ds, w' = mkWorld (trace w ++ ds) (reporter w) ∧
        Forall (isDiscreteAt itime) ds.
Proof.
  induction labels as [|label labels IH]; intros idv state w w' r Hr;
    simpl in Hr.
  - injection Hr as <- _. exists []. destruct w. simpl.
    by rewrite app_nil_r.
  - assert (∃ ds, w = mkWorld (trace w ++ ds) (reporter w) ∧
                  Forall (isDiscreteAt itime) ds) as Hstay.
    { exists []. destruct w. simpl. by rewrite app_nil_r. }
    bind_inv Hr; [by apply lift_inv in Hc as [-> _]|].
    apply lift_inv in Hc as [-> _].
    bind_inv Hr; [by apply lift_inv in Hc as [-> _]|].
    apply lift_inv in Hc as [-> _].
    bind_inv Hr; [by apply lift_inv in Hc as [-> _]|].
    apply lift_inv in Hc as [-> _]. clear Hstay.
    bind_inv Hr; [discriminate|]. apply emit_inv in Hc as [-> _].
    bind_inv Hr.
    + apply lift_inv in Hc as [-> _]. eexists [_]. split; [done|].
      by repeat constructor.
    + apply lift_inv in Hc as [-> _].
      apply IH in Hr as (ds & -> & Hds). simpl.
      eexists (_ :: ds). split; [by rewrite <- app_assoc|].
      by constructor.
Qed.

Lemma applyDiscrete_shape (dvt : TimeSeriesTable) refs itime state w w' r :
  applyDiscrete dvt refs itime state w = (w', r) →
  ∃ ds, w' = mkWorld (trace w ++ ds) (reporter w) ∧
        Forall (isDiscreteAt itime) ds.
Proof.
  unfold applyDiscrete. destruct (getNumColumns dvt =? 0).
  - intros [= <- _]. exists []. destruct w. simpl. by rewrite app_nil_r.
  - apply applyDiscreteFrom_shape.
Qed.

(** Every run: calls of the setup and no row; then, if the loop over the
    samples is entered, the loop. *)
Lemma analyze_any model (st ct : TimeSeriesTable) outputPaths dvt w res :
  run_analyze model st ct outputPaths dvt = (w, res) →
  ∃ setup, Forall isSetupEvent setup ∧
    ((trace w = setup ∧ reported (reporter w) = [] ∧ ¬ is_Ok res) ∨
     (∃ traj cmap refs w0 r,
        createFromStatesTable model st = Ok traj ∧
        createSystemControlIndexMap model = Ok cmap ∧
        getNumRows st = getNumRows ct ∧
        trace w0 = setup ∧ attached (reporter w0) = true ∧
        reported (reporter w0) = [] ∧
        replay model ct (getColumnLabels ct) cmap dvt refs 0 traj
          (replicate (getNumColumns ct) zero) w0 = (w, r) ∧
        match r with
        | Ok _ => res = Ok (getTable (reporter w))
        | Err e => res = Err e
        end)).
Proof.
  unfold run_analyze, analyze. intros Hr.
  bind_inv Hr; [discriminate|]. apply emit_inv in Hc as [-> _].
  assert (∀ w1 r1,
            collectOutputs model outputPaths
              (mkWorld ([] ++ [InitSystem]) (reporter initialWorld)) =
              (w1, r1) →
            Forall isSetupEvent (trace w1) ∧
            Forall isSetupEvent (trace w1 ++ [AddComponent; InitSystem]) ∧
            reported (reporter w1) = []) as Hscan.
  { intros w1 r1 Hc. pose proof Hc as Hrows.
    apply collectOutputs_grows in Hc as (scan & Ht & Hscan & _).
    apply collectOutputs_sameRows in Hrows. unfold sameRows in Hrows.
    simpl in Ht, Hrows. rewrite Ht.
    assert (Forall isSetupEvent (InitSystem :: scan)) as Hsetup.
    { constructor; [done|]. eapply Forall_impl; [done|]. by intros []. }
    split_and!; [done| |done].
    apply Forall_app. split; [done|]. by repeat constructor. }
  bind_inv Hr.
  { apply Hscan in Hc as (Hsetup & _ & Hrows).
    exists (trace w). split; [done|]. left. split_and!; [done|done|tauto]. }
  apply Hscan in Hc as (_ & Hsetup & Hrows). clear Hscan.
  bind_inv Hr; [discriminate|]. injection Hc as <- _.
  bind_inv Hr; [discriminate|]. apply emit_inv in Hc as [-> _].
  simpl in Hr. rewrite <- app_assoc in Hr. simpl in Hr.
  exists (trace w0 ++ [AddComponent; InitSystem]). split; [done|].
  bind_inv Hr.
  { apply lift_inv in Hc as [-> _]. left. split_and!; [done|done|tauto]. }
  apply lift_inv in Hc as [-> Htraj].
  bind_inv Hr.
  { apply lift_inv in Hc as [-> _]. left. split_and!; [done|done|tauto]. }
  apply lift_inv in Hc as [-> Hcmap].
  bind_inv Hr.
  { apply THROW_IF_inv in Hc as ->. left. split_and!; [done|done|tauto]. }
  repeat match goal with u : unit |- _ => destruct u end.
  apply THROW_IF_Ok in Hc as [Hsame ->].
  apply negb_false_iff, Nat.eqb_eq in Hsame.
  bind_inv Hr.
  { apply resolveDiscreteComponents_inv in Hc as ->.
    left. split_and!; [done|done|tauto]. }
  apply resolveDiscreteComponents_inv in Hc as ->.
  right. bind_inv Hr.
  - eexists _, _, _, _, _. split_and!; [done|done|done| | | |exact Hc|];
      simpl; try done.
  - repeat match goal with u : unit |- _ => destruct u end.
    bind_inv Hr; [discriminate|]. injection Hc0 as <- <-.
    injection Hr as <- <-.
    eexists _, _, _, _, _. split_and!; [done|done|done| | | |exact Hc|];
      simpl; try done.
Qed.
End AnyRun.

(** ** The label resolver and the order checker *)

Section ResolverFacts.

Lemma checkOrderSystemControls_Ok m :
  checkOrderSystemControls m = Ok tt ↔
  actuatorControlOrder m = controlVectorOrder m.
Proof. unfold checkOrderSystemControls. by case_decide. Qed.

Lemma checkOrderSystemControls_Err m :
  checkOrderSystemControls m = Err ControlOrderMismatch ↔
  actuatorControlOrder m ≠ controlVectorOrder m.
Proof. unfold checkOrderSystemControls. by case_decide. Qed.

Lemma createSystemControlIndexMap_Ok m :
  is_Ok (createSystemControlIndexMap m) ↔
  actuatorControlOrder m = controlVectorOrder m.
Proof.
  unfold createSystemControlIndexMap, checkOrderSystemControls.
  by case_decide.
Qed.

Lemma createSystemControlIndexMap_Err m :
  createSystemControlIndexMap m = Err ControlOrderMismatch ↔
  actuatorControlOrder m ≠ controlVectorOrder m.
Proof.
  unfold createSystemControlIndexMap, checkOrderSystemControls.
  by case_decide.
Qed.



End ResolverFacts.

(** ** Vectors *)

Section VectorFacts.
Local Open Scope Q_scope.

End VectorFacts.

(** ** The loop over the columns of a controls row (lines 312-316) *)

Section InjectionFacts.
Context {double : Type}.
Implicit Type cmap : gmap string nat.
Implicit Type row controls : list double.

Lemma assignControl_Ok cmap row controls i name controls' :
  assignControl cmap row controls i name = Ok controls' ↔
  ∃ v idx, row !! i = Some v ∧ cmap !! name = Some idx ∧
           idx < length controls ∧ controls' = <[idx := v]> controls.
Proof.
  unfold assignControl, elementAt. split.
  - destruct (row !! i) as [v|]; [|done].
    destruct (cmap !! name) as [idx|]; [|done].
    case_decide; [|done]. intros [= <-]. by exists v, idx.
  - intros (v & idx & -> & -> & Hlt & ->). by case_decide.
Qed.

(** The loop over the columns leaves alone every element that is the slot
    of no column label. *)
Lemma injectControls_frame cmap names row :
  ∀ i controls controls',
  injectControls cmap names row i controls = Ok controls' →
  ∀ k, (∀ name, In name names → cmap !! name ≠ Some k) →
       controls' !! k = controls !! k.
Proof.
  induction names as [|name names IH]; intros i controls controls'; simpl.
  - by intros [= <-].
  - destruct (assignControl _ _ _ _ _) as [c1|] eqn:Ha; [|done].
    intros Hi k Hk. rewrite (IH _ _ _ Hi k).
    + apply assignControl_Ok in Ha as (v & idx & _ & Hidx & _ & ->).
      apply list_lookup_insert_ne. intros ->. by apply (Hk name); [left|].
    + intros n Hn. apply Hk. by right.
Qed.

(** What the loop over the columns leaves in the vector does not depend
    on what the slots of the column labels held before. *)
Lemma injectControls_overwrites cmap names row :
  ∀ i c1 c2 r,
  agreeOffLabels cmap names c1 c2 →
  injectControls cmap names row i c1 = Ok r →
  injectControls cmap names row i c2 = Ok r.
Proof.
  induction names as [|name names IH]; intros i c1 c2 r [Hlen Hagree]; simpl.
  - intros [= <-]. f_equal. symmetry. apply list_eq. intros k.
    apply Hagree. by intros name [].
  - destruct (assignControl cmap row c1 i name) as [c1'|] eqn:Ha; [|done].
    apply assignControl_Ok in Ha as (v & idx & Hv & Hidx & Hlt & ->).
    assert (assignControl cmap row c2 i name = Ok (<[idx := v]> c2)) as ->.
    { apply assignControl_Ok. exists v, idx. split_and!; try done. lia. }
    apply IH. split; [by rewrite !length_insert|].
    intros k Hk. destruct (decide (k = idx)) as [->|Hne].
    + rewrite !list_lookup_insert_eq; [done|lia|lia].
    + rewrite !list_lookup_insert_ne by done. apply Hagree.
      intros n [<-|Hn]; [congruence|by apply Hk].
Qed.

Lemma injectControls_agree cmap names row i controls controls' :
  injectControls cmap names row i controls = Ok controls' →
  agreeOffLabels cmap names controls' controls.
Proof.
  intros Hi. split.
  - by eapply injectControls_length.
  - by eapply injectControls_frame.
Qed.

Lemma agreeOffLabels_trans cmap names (c1 c2 c3 : list double) :
  agreeOffLabels cmap names c1 c2 → agreeOffLabels cmap names c2 c3 →
  agreeOffLabels cmap names c1 c3.
Proof.
  intros [Hl1 H1] [Hl2 H2]. split; [congruence|].
  intros k Hk. by rewrite H1, H2.
Qed.

Lemma agreeOffLabels_refl cmap names (c : list double) :
  agreeOffLabels cmap names c c.
Proof. by split. Qed.

(** When the loop over the columns completes. *)
Lemma injectControls_Ok_inv cmap names row :
  ∀ i controls controls',
  injectControls cmap names row i controls = Ok controls' →
  Forall (slotWithin cmap (length controls)) names ∧
  (names ≠ [] → i + length names ≤ length row).
Proof.
  induction names as [|name names IH]; intros i controls controls'; simpl.
  - intros _. split; [constructor|done].
  - destruct (assignControl _ _ _ _ _) as [c1|] eqn:Ha; [|done].
    apply assignControl_Ok in Ha as (v & idx & Hv & Hidx & Hlt & ->).
    intros Hi. apply IH in Hi as [Hall Hrow].
    rewrite length_insert in Hall. split.
    + constructor; [by exists idx|done].
    + intros _. apply lookup_lt_Some in Hv.
      destruct names as [|n names]; simpl in *; [lia|].
      assert (S i + S (length names) ≤ length row) by (by apply Hrow). lia.
Qed.

Lemma injectControls_completes cmap names row :
  ∀ i controls,
  i + length names ≤ length row →
  Forall (slotWithin cmap (length controls)) names →
  ∃ controls', injectControls cmap names row i controls = Ok controls'.
Proof.
  induction names as [|name names IH]; intros i controls Hrow Hall; simpl.
  - by eexists.
  - simpl in Hrow. apply Forall_cons in Hall as [(idx & Hidx & Hlt) Hall].
    destruct (row !! i) as [v|] eqn:Hv;
      [|apply lookup_ge_None in Hv; lia].
    assert (assignControl cmap row controls i name =
            Ok (<[idx := v]> controls)) as ->.
    { apply assignControl_Ok. by exists v, idx. }
    apply IH; [lia|]. by rewrite length_insert.
Qed.

(** Labels with pairwise distinct slots. *)
Lemma distinct_slots cmap (names : list string) :
  NoDup (omap (λ name, cmap !! name) names) →
  ∀ n1 n2 idx, In n1 names → In n2 names →
               cmap !! n1 = Some idx → cmap !! n2 = Some idx → n1 = n2.
Proof.
  induction names as [|name names IH]; intros Hnd n1 n2 idx H1 H2 E1 E2;
    [done|].
  simpl in Hnd.
  assert (∀ n, In n names → cmap !! n = Some idx →
               idx ∈ omap (λ name, cmap !! name) names) as Hin.
  { intros n Hn En. apply list_elem_of_omap. exists n.
    split; [by apply list_elem_of_In|done]. }
  destruct H1 as [->|H1], H2 as [->|H2]; [done| | |].
  - rewrite E1 in Hnd. apply NoDup_cons in Hnd as [Hfresh _].
    destruct Hfresh. by eapply Hin.
  - rewrite E2 in Hnd. apply NoDup_cons in Hnd as [Hfresh _].
    destruct Hfresh. by eapply Hin.
  - destruct (cmap !! name); [apply NoDup_cons in Hnd as [_ Hnd]|];
      by eapply IH.
Qed.
(** As many labels as the vector has elements, with pairwise distinct
    slots inside the vector: every element is the slot of a label. *)
Lemma slots_cover cmap (names : list string) n :
  length names = n →
  Forall (slotWithin cmap n) names →
  NoDup (omap (λ name, cmap !! name) names) →
  ∀ k, k < n → ∃ j name, names !! j = Some name ∧ cmap !! name = Some k.
Proof.
  intros Hlen Hall Hnd k Hk.
  set (slots := omap (λ name, cmap !! name) names) in *.
  assert (length slots = length names ∧ Forall (λ idx, idx < n) slots)
    as [Hslots Hlt].
  { unfold slots. clear Hnd Hlen.
    induction Hall as [|name names (idx & Hidx & Hlt) _ [IH1 IH2]];
      [by split|].
    simpl. rewrite Hidx. simpl. split; [by f_equal|by constructor]. }
  assert (slots ≡ₚ seq 0 n) as Hperm.
  { apply submseteq_length_Permutation.
    - apply NoDup_submseteq; [done|]. intros idx Hidx.
      apply elem_of_seq. rewrite Forall_forall in Hlt.
      apply Hlt in Hidx. lia.
    - rewrite length_seq. lia. }
  assert (k ∈ slots) as Hin.
  { rewrite Hperm. apply elem_of_seq. lia. }
  apply list_elem_of_omap in Hin as (name & Hname & Hslot).
  apply list_elem_of_lookup in Hname as [j Hj]. by exists j, name.
Qed.
End InjectionFacts.

(** ** Columns and entries of a table *)

Section TableFacts.
Context {double V : Type}.
Implicit Type t : TimeSeriesTable_ double V.

Lemma collect_lookup {A} (l : list (result A)) r i :
  collect l = Ok r → r !! i = (l !! i) ≫= λ x,
                       match x with Ok a => Some a | Err _ => None end.
Proof.
  revert r i. induction l as [|[a|e] l IH]; intros r i; simpl.
  - by intros [= <-].
  - destruct (collect l) as [r'|] eqn:Hc; [|done]. intros [= <-].
    destruct i as [|i]; simpl; [done|]. by apply IH.
  - done.
Qed.

Lemma columnIndex_NoDup (labels : list string) j label :
  NoDup labels → labels !! j = Some label →
  columnIndex labels label = Some j.
Proof.
  revert j. induction labels as [|l labels IH]; intros j Hnd Hj; [done|].
  apply NoDup_cons in Hnd as [Hfresh Hnd]. simpl.
  destruct j as [|j]; simpl in Hj.
  - injection Hj as ->. by rewrite String.eqb_refl.
  - destruct (String.eqb l label) eqn:Heq.
    + apply String.eqb_eq in Heq as ->.
      destruct Hfresh. by eapply list_elem_of_lookup_2.
    + by rewrite (IH j).
Qed.


(** The element [i] of the column of a label is the entry of row [i] in
    the column of that label. *)
Lemma getDependentColumn_lookup t label j col i v :
  columnIndex (getColumnLabels t) label = Some j →
  getDependentColumn t label = Ok col →
  col !! i = Some v → entry t i j = Some v.
Proof.
  unfold getDependentColumn, entry. intros -> Hcol Hv.
  rewrite (collect_lookup _ _ i Hcol), list_lookup_fmap in Hv.
  destruct (getRows t !! i) as [r|]; simpl in *; [|done].
  unfold elementAt in Hv. by destruct (r.2 !! j).
Qed.
End TableFacts.

(** ** What the loop over the samples does with each state *)

Section SamplesFacts.
Context {double T State : Type} `{!Platform double T State}.
Implicit Type w : World double T.
Local Abbreviation TimeSeriesTable := (TimeSeriesTable_ double double).

(** What a loop over the samples that completes did for each state of the
    trajectory. *)
Lemma replay_samples model (ct : TimeSeriesTable) names cmap dvt refs
    (zeros : list double) traj :
  ∀ itime controls w w',
  replay model ct names cmap dvt refs itime traj controls w = (w', Ok tt) →
  attached (reporter w) = true →
  agreeOffLabels cmap names controls zeros →
  ∃ per rows,
    trace w' = trace w ++ concat per ∧
    reporter w' = mkReporter (inputs (reporter w)) true
                    (reported (reporter w) ++ rows) ∧
    length per = length traj ∧ length rows = length traj ∧
    ∀ k s, traj !! k = Some s →
      ∃ row c wk wk' sd ds,
        getRowAtIndex ct (itime + k) = Ok row ∧
        injectControls cmap names row 0 zeros = Ok c ∧
        applyDiscrete dvt refs (itime + k)
          (setControls model (realizeVelocity model (prescribe model s)) c)
          wk = (wk', Ok sd) ∧
        trace wk' = trace wk ++ ds ∧
        per !! k = Some (sampleCalls (itime + k) c ds) ∧
        rows !! k =
          Some (getTime (realizeReport model sd),
                map (λ o, getValue o (realizeReport model sd))
                    (inputs (reporter w))).
Proof.
  induction traj as [|s traj IH]; intros itime controls w w' Hr Hatt Hag;
    simpl in Hr.
  - injection Hr as <-. exists [], []. simpl. rewrite !app_nil_r.
    split_and!; try done.
    destruct w as [tr [i a r]]. simpl in *. by subst a.
  - bind_Ok_inv Hr. apply emit_inv in Hc as [-> _].
    bind_Ok_inv Hr. apply emit_inv in Hc as [-> _].
    bind_Ok_inv Hr. apply lift_inv in Hc as [-> Hrow]. symmetry in Hrow.
    match type of Hrow with _ = Ok ?x => rename x into row end.
    bind_Ok_inv Hr. apply lift_inv in Hc as [-> Hinj]. symmetry in Hinj.
    match type of Hinj with _ = Ok ?x => rename x into controls' end.
    bind_Ok_inv Hr. apply emit_inv in Hc as [-> _].
    bind_Ok_inv Hr. apply emit_inv in Hc as [-> _].
    bind_Ok_inv Hr. pose proof Hc as Hdisc.
    match type of Hdisc with _ = (_, Ok ?x) => rename x into sd end.
    apply applyDiscrete_Ok in Hc as (ds & -> & Hds & Hlen).
    bind_Ok_inv Hr. apply emit_inv in Hc as [-> _].
    bind_Ok_inv Hr. injection Hc as <-. simpl in Hr.
    rewrite Hatt in Hr.
    apply IH in Hr as (per & rows & Htr & Hrep & Hper & Hrows & Hk);
      [|done|].
    2: { eapply agreeOffLabels_trans; [|exact Hag].
         by eapply injectControls_agree. }
    simpl in *.
    eexists (sampleCalls itime controls' ds :: per), (_ :: rows).
    split_and!.
    + rewrite Htr. unfold sampleCalls. simpl.
      repeat rewrite <- app_assoc. done.
    + rewrite Hrep. by rewrite <- app_assoc.
    + simpl. by rewrite Hper.
    + simpl. by rewrite Hrows.
    + intros [|k] s' Hs'; simpl in Hs'.
      * injection Hs' as <-. rewrite Nat.add_0_r.
        eexists row, controls', _, _, sd, ds.
        split_and!; [done| |exact Hdisc|done|done|done].
        by eapply injectControls_overwrites.
      * apply Hk in Hs' as (row' & c & wk & wk' & sd' & ds' & ?).
        replace (itime + S k) with (S (itime + k)) by lia.
        by exists row', c, wk, wk', sd', ds'.
Qed.

(** What a run that returns a table did for each state of the
    trajectory. *)
Lemma analyze_samples model (st ct : TimeSeriesTable) outputPaths dvt w tbl :
  run_analyze model st ct outputPaths dvt = (w, Ok tbl) →
  ∃ traj cmap refs w0 per rows,
    createFromStatesTable model st = Ok traj ∧
    createSystemControlIndexMap model = Ok cmap ∧
    resolveDiscreteComponents model st dvt w0 = (w0, Ok refs) ∧
    trace w = (InitSystem :: scanEvents model outputPaths ++
               [AddComponent; InitSystem]) ++ concat per ∧
    tbl = mkTable (map getPathName (matchedOutputs model outputPaths)) rows ∧
    length per = length traj ∧ length rows = length traj ∧
    ∀ k s, traj !! k = Some s →
      ∃ row c wk wk' sd ds,
        getRowAtIndex ct k = Ok row ∧
        injectControls cmap (getColumnLabels ct) row 0
          (replicate (getNumColumns ct) zero) = Ok c ∧
        applyDiscrete dvt refs k
          (setControls model (realizeVelocity model (prescribe model s)) c)
          wk = (wk', Ok sd) ∧
        trace wk' = trace wk ++ ds ∧
        per !! k = Some (sampleCalls k c ds) ∧
        rows !! k =
          Some (getTime (realizeReport model sd),
                map (λ o, getValue o (realizeReport model sd))
                    (matchedOutputs model outputPaths)).
Proof.
  unfold run_analyze, analyze. intros Hr.
  bind_Ok_inv Hr. apply emit_inv in Hc as [-> _].
  bind_Ok_inv Hr. apply collectOutputs_Ok in Hc as ->.
  bind_Ok_inv Hr. injection Hc as <-.
  bind_Ok_inv Hr. apply emit_inv in Hc as [-> _].
  bind_Ok_inv Hr. apply lift_inv in Hc as [-> Htraj]. rename a into traj.
  bind_Ok_inv Hr. apply lift_inv in Hc as [-> Hcmap]. rename a into cmap.
  bind_Ok_inv Hr. apply THROW_IF_Ok in Hc as [Hrows ->].
  bind_Ok_inv Hr. pose proof Hc as Hdvt.
  apply resolveDiscreteComponents_inv in Hc. subst.
  match type of Hdvt with _ = (_, Ok ?x) => rename x into refs end.
  bind_Ok_inv Hr.
  eapply replay_samples in Hc as (per & rows & Htr & Hrep & Hper & Hlen & Hk);
    [|done|apply agreeOffLabels_refl].
  bind_Ok_inv Hr. injection Hc as <- <-. injection Hr as <- <-.
  simpl in *.
  eexists traj, cmap, refs, _, per, rows.
  split_and!; [done|done|exact Hdvt| | |done|done|done].
  - rewrite Htr. by rewrite <- !app_assoc.
  - unfold getTable. by rewrite Hrep.
Qed.

Lemma getComponent_path model path c :
  getComponent model path = Ok c → getAbsolutePathString c = path.
Proof.
  unfold getComponent.
  destruct (find _ _) as [c'|] eqn:Hf; [|done]. intros [= <-].
  apply find_some in Hf as [_ Heq]. by apply String.eqb_eq in Heq.
Qed.

(** The references resolved at lines 290-299: for every column label, in
    column order, the name after the last slash and the component at the
    path before it. *)
Lemma resolveDiscreteComponents_refs model (st dvt : TimeSeriesTable)
    w w' refs :
  resolveDiscreteComponents (T:=T) model st dvt w = (w', Ok refs) →
  getNumColumns dvt ≠ 0 →
  Forall2 (λ label (ref : string * Component),
             ref.1 = getComponentName label ∧
             getAbsolutePathString ref.2 = getParentPathString label ∧
             getComponent model (getParentPathString label) = Ok ref.2)
          (getColumnLabels dvt) refs.
Proof.
  unfold resolveDiscreteComponents. intros Hr Hn.
  apply Nat.eqb_neq in Hn. rewrite Hn in Hr.
  bind_Ok_inv Hr. clear Hc.
  match type of Hr with _ ?w0 = _ => revert w0 w' refs Hr end.
  induction (getColumnLabels dvt) as [|label labels IH];
    intros w1 w' refs Hr; simpl in Hr.
  - injection Hr as _ <-. constructor.
  - bind_Ok_inv Hr. bind_Ok_inv Hc. apply lift_inv in Hc0 as [-> Hx].
    injection Hc as <- <-.
    bind_Ok_inv Hr. injection Hr as <- <-.
    constructor; [|by eapply IH]. simpl. split_and!; [done| |done].
    by eapply getComponent_path.
Qed.

(** The calls a discrete-variable step that completes made. *)
Lemma applyDiscreteFrom_calls (dvt : TimeSeriesTable) refs itime labels :
  ∀ idv state w w' state',
  applyDiscreteFrom dvt refs itime idv labels state w = (w', Ok state') →
  ∃ ds, trace w' = trace w ++ ds ∧ length ds = length labels ∧
    ∀ j label, labels !! j = Some label →
      ∃ col ref v,
        getDependentColumn dvt label = Ok col ∧
        refs !! (idv + j) = Some ref ∧
        col !! itime = Some v ∧
        ds !! j = Some (SetDiscreteVariableValue itime
                          (getAbsolutePathString ref.2) ref.1 v).
Proof.
  induction labels as [|label labels IH]; intros idv state w w' state' Hr;
    simpl in Hr.
  - injection Hr as <- _. exists []. by rewrite app_nil_r.
  - bind_Ok_inv Hr. apply lift_inv in Hc as [-> Hcol]. symmetry in Hcol.
    match type of Hcol with _ = Ok ?x => rename x into col end.
    bind_Ok_inv Hr. apply lift_inv in Hc as [-> Href]. symmetry in Href.
    match type of Href with _ = Ok ?x => rename x into ref end.
    bind_Ok_inv Hr. apply lift_inv in Hc as [-> Hv]. symmetry in Hv.
    match type of Hv with _ = Ok ?x => rename x into v end.
    bind_Ok_inv Hr. apply emit_inv in Hc as [-> _].
    bind_Ok_inv Hr. apply lift_inv in Hc as [-> _].
    apply IH in Hr as (ds & Htr & Hlen & Hds). simpl in Htr.
    eexists (_ :: ds). split_and!.
    + rewrite Htr. by rewrite <- app_assoc.
    + simpl. by rewrite Hlen.
    + intros [|j] l Hl; simpl in Hl.
      * injection Hl as <-. exists col, ref, v. rewrite Nat.add_0_r.
        unfold elementAt in Href, Hv.
        destruct (refs !! idv); [|done]. destruct (col !! itime); [|done].
        by simplify_eq.
      * apply Hds in Hl as (col' & ref' & v' & ? & ? & ? & ?).
        exists col', ref', v'.
        replace (idv + S j) with (S idv + j) by lia. done.
Qed.
End SamplesFacts.

(** ** The loop over the samples, state by state *)

Section SampleStateFacts.
Context {double T State : Type} `{!Platform double T State}.
Implicit Type w : World double T.
Local Abbreviation TimeSeriesTable := (TimeSeriesTable_ double double).

(** The state [k] of the trajectory is built from row [k] of the states
    table. *)
Lemma createFromStatesTable_lookup model (st : TimeSeriesTable) traj k s :
  createFromStatesTable model st = Ok traj →
  traj !! k = Some s →
  ∃ time y, getRows st !! k = Some (time, y) ∧
            stateFromRow model (getColumnLabels st) time y = Ok s.
Proof.
  unfold createFromStatesTable. intros Hc Hs.
  rewrite (collect_lookup _ _ k Hc), list_lookup_fmap in Hs.
  destruct (getRows st !! k) as [[time y]|]; simpl in Hs; [|done].
  exists time, y. split; [done|].
  by destruct (stateFromRow _ _ _ _); simplify_eq.
Qed.

(** The loop over [idv] leaves the state [withDiscreteVariables]
    computes, when the references are the ones resolved from the
    labels. *)
Lemma applyDiscreteFrom_state model (dvt : TimeSeriesTable) refs itime labels :
  ∀ idv state w w' sd,
  (∀ j label, labels !! j = Some label →
     ∃ ref, refs !! (idv + j) = Some ref ∧
            ref.1 = getComponentName label ∧
            getComponent model (getParentPathString label) = Ok ref.2) →
  applyDiscreteFrom dvt refs itime idv labels state w = (w', Ok sd) →
  withDiscreteVariables model dvt itime labels state = Ok sd.
Proof.
  induction labels as [|label labels IH]; intros idv state w w' sd Hrefs Hr;
    simpl in Hr.
  - by injection Hr as _ <-.
  - bind_Ok_inv Hr. apply lift_inv in Hc as [-> Hcol].
    bind_Ok_inv Hr. apply lift_inv in Hc as [-> Href].
    bind_Ok_inv Hr. apply lift_inv in Hc as [-> Hv].
    bind_Ok_inv Hr. apply emit_inv in Hc as [-> _].
    bind_Ok_inv Hr. apply lift_inv in Hc as [-> Hset].
    destruct (Hrefs 0 label eq_refl) as (ref & Hlook & Hname & Hcomp).
    rewrite Nat.add_0_r in Hlook. unfold elementAt in Href.
    rewrite Hlook in Href. injection Href as <-.
    simpl. rewrite Hcomp, <- Hcol, <- Hv, <- Hname, <- Hset.
    eapply IH; [|done]. intros j l Hl.
    replace (S idv + j) with (idv + S j) by lia. by apply Hrefs.
Qed.

Lemma applyDiscrete_state model (st dvt : TimeSeriesTable) refs w0 w0'
    itime state w w' sd :
  resolveDiscreteComponents model st dvt w0 = (w0', Ok refs) →
  applyDiscrete dvt refs itime state w = (w', Ok sd) →
  withDiscreteVariables model dvt itime (getColumnLabels dvt) state = Ok sd.
Proof.
  intros Hrefs. unfold applyDiscrete.
  destruct (getNumColumns dvt =? 0) eqn:Hn.
  - apply Nat.eqb_eq in Hn. unfold getNumColumns in Hn.
    destruct (getColumnLabels dvt); [|done]. by intros [= _ <-].
  - apply Nat.eqb_neq in Hn.
    apply resolveDiscreteComponents_refs in Hrefs; [|done].
    apply applyDiscreteFrom_state. intros j label Hj.
    destruct (Forall2_lookup_l _ _ _ j label Hrefs Hj)
      as (ref & Href & Hname & _ & Hcomp).
    by exists ref.
Qed.

(** However the loop over the samples ends, every sample it completed
    was taken from the trajectory in row order, given the controls of its
    own row, and reported once, in the state lines 305-336 leave. *)
Lemma replay_progress model (ct : TimeSeriesTable) names cmap dvt refs
    (zeros : list double) traj :
  ∀ itime controls w w' r,
  replay model ct names cmap dvt refs itime traj controls w = (w', r) →
  attached (reporter w) = true →
  agreeOffLabels cmap names controls zeros →
  ∃ per rows partial,
    trace w' = trace w ++ concat per ++ partial ∧
    reporter w' = mkReporter (inputs (reporter w)) true
                    (reported (reporter w) ++ rows) ∧
    length rows = length per ∧
    (∀ k calls, per !! k = Some calls →
       ∃ s row c wk wk' sd ds,
         traj !! k = Some s ∧
         getRowAtIndex ct (itime + k) = Ok row ∧
         injectControls cmap names row 0 zeros = Ok c ∧
         applyDiscrete dvt refs (itime + k)
           (setControls model (realizeVelocity model (prescribe model s)) c)
           wk = (wk', Ok sd) ∧
         calls = sampleCalls (itime + k) c ds ∧
         Forall (isDiscreteAt (itime + k)) ds ∧
         length ds = getNumColumns dvt ∧
         rows !! k =
           Some (getTime (realizeReport model sd),
                 map (λ o, getValue o (realizeReport model sd))
                     (inputs (reporter w)))) ∧
    (∃ c ds rest,
       sampleCalls (itime + length per) c ds = partial ++ rest ∧
       Forall (isDiscreteAt (itime + length per)) ds) ∧
    (is_Ok r → partial = [] ∧ length per = length traj).
Proof.
  induction traj as [|s traj IH]; intros itime controls w w' r Hr Hatt Hag;
    simpl in Hr.
  - injection Hr as <- <-. exists [], [], []. simpl. rewrite !app_nil_r.
    split_and!; try done.
    + destruct w as [tr0 [inp att rp]]. simpl in *. by subst att.
    + by exists [], [], (sampleCalls (itime + 0) [] []).
  - bind_inv Hr; [discriminate|]. apply emit_inv in Hc as [-> _].
    bind_inv Hr; [discriminate|]. apply emit_inv in Hc as [-> _].
    assert (∀ (e : Error) tr p c ds rest,
              tr = trace w ++ p →
              sampleCalls itime c ds = p ++ rest →
              Forall (isDiscreteAt itime) ds →
              ∃ per rows partial,
                tr = trace w ++ concat per ++ partial ∧
                reporter w = mkReporter (inputs (reporter w)) true
                               (reported (reporter w) ++ rows) ∧
                length rows = length per ∧
                (∀ k calls, per !! k = Some calls →
                   ∃ s0 row c wk wk' sd ds,
                     (s :: traj) !! k = Some s0 ∧
                     getRowAtIndex ct (itime + k) = Ok row ∧
                     injectControls cmap names row 0 zeros = Ok c ∧
                     applyDiscrete dvt refs (itime + k)
                       (setControls model
                          (realizeVelocity model (prescribe model s0)) c)
                       wk = (wk', Ok sd) ∧
                     calls = sampleCalls (itime + k) c ds ∧
                     Forall (isDiscreteAt (itime + k)) ds ∧
                     length ds = getNumColumns dvt ∧
                     rows !! k =
                       Some (getTime (realizeReport model sd),
                             map (λ o, getValue o (realizeReport model sd))
                                 (inputs (reporter w)))) ∧
                (∃ c ds rest,
                   sampleCalls (itime + length per) c ds = partial ++ rest ∧
                   Forall (isDiscreteAt (itime + length per)) ds) ∧
                (is_Ok (Err (A:=unit) e) →
                 partial = [] ∧ length per = length (s :: traj))) as Hstop.
    { intros e tr p c ds rest -> Hp Hds. exists [], [], p. simpl.
      rewrite Nat.add_0_r, app_nil_r.
      split_and!; try done.
      - destruct w as [tr0 [inp att rp]]. simpl in *. by subst att.
      - by exists c, ds, rest. }
    bind_inv Hr.
    { apply lift_inv in Hc as [-> _]. simpl.
      apply (Hstop e _ [StateAt itime; Prescribe itime] [] []
                   [RealizeVelocity itime; SetControls itime [];
                    RealizeReport itime]);
        [by rewrite <- app_assoc|done|done]. }
    apply lift_inv in Hc as [-> Hrow]. symmetry in Hrow.
    match type of Hrow with _ = Ok ?x => rename x into row end.
    bind_inv Hr.
    { apply lift_inv in Hc as [-> _]. simpl.
      apply (Hstop e _ [StateAt itime; Prescribe itime] [] []
                   [RealizeVelocity itime; SetControls itime [];
                    RealizeReport itime]);
        [by rewrite <- app_assoc|done|done]. }
    apply lift_inv in Hc as [-> Hinj]. symmetry in Hinj.
    match type of Hinj with _ = Ok ?x => rename x into controls' end.
    bind_inv Hr; [discriminate|]. apply emit_inv in Hc as [-> _].
    bind_inv Hr; [discriminate|]. apply emit_inv in Hc as [-> _].
    simpl in Hr.
    assert (injectControls cmap names row 0 zeros = Ok controls') as Hfresh.
    { by eapply injectControls_overwrites. }
    bind_inv Hr.
    { apply applyDiscrete_shape in Hc as (ds & -> & Hds). simpl.
      apply (Hstop e _ ([StateAt itime; Prescribe itime;
                         RealizeVelocity itime;
                         SetControls itime controls'] ++ ds)
                   controls' ds [RealizeReport itime]);
        [|by rewrite <- !app_assoc|done].
      by rewrite <- !app_assoc. }
    clear Hstop. pose proof Hc as Hdisc.
    match type of Hdisc with _ = (_, Ok ?x) => rename x into sd end.
    apply applyDiscrete_Ok in Hc as (ds & -> & Hds & Hlen).
    bind_inv Hr; [discriminate|]. apply emit_inv in Hc as [-> _].
    bind_inv Hr; [discriminate|]. injection Hc as <- _. simpl in Hr.
    rewrite Hatt in Hr.
    apply IH in Hr
      as (per & rows & partial & Htr & Hrep & Hrows & Hk & Hpre & Hok);
      [|done|].
    2: { eapply agreeOffLabels_trans; [|exact Hag].
         by eapply injectControls_agree. }
    simpl in *.
    eexists (sampleCalls itime controls' ds :: per), (_ :: rows), partial.
    split_and!.
    + rewrite Htr. unfold sampleCalls. simpl.
      repeat rewrite <- app_assoc. done.
    + rewrite Hrep. by rewrite <- app_assoc.
    + simpl. by rewrite Hrows.
    + intros [|k] calls Hcalls; simpl in Hcalls.
      * injection Hcalls as <-. rewrite Nat.add_0_r.
        eexists s, row, controls', _, _, sd, ds.
        split_and!; [done|done|done|exact Hdisc|done|done|done|done].
      * apply Hk in Hcalls
          as (s' & row' & c & wk & wk' & sd' & ds' & ? & ? & ? & ? & ? & ? &
              ? & ?).
        replace (itime + S k) with (S (itime + k)) by lia.
        exists s', row', c, wk, wk', sd', ds'. by split_and!.
    + simpl. destruct Hpre as (c & ds' & rest & Hpre & Hds').
      replace (itime + S (length per)) with (S (itime + length per)) by lia.
      by exists c, ds', rest.
    + intros Hr'. destruct (Hok Hr') as [-> Hper]. simpl. by rewrite Hper.
Qed.

(** Every run: calls of the setup and no row; then, if the loop over the
    samples is entered, the loop, with the references of the discrete
    variables resolved before it. *)
Lemma analyze_loop model (st ct : TimeSeriesTable) outputPaths dvt w res :
  run_analyze model st ct outputPaths dvt = (w, res) →
  ∃ setup, Forall isSetupEvent setup ∧
    ((trace w = setup ∧ reported (reporter w) = [] ∧ ¬ is_Ok res) ∨
     (∃ traj cmap refs w0 r,
        createFromStatesTable model st = Ok traj ∧
        createSystemControlIndexMap model = Ok cmap ∧
        getNumRows st = getNumRows ct ∧
        resolveDiscreteComponents model st dvt w0 = (w0, Ok refs) ∧
        trace w0 = setup ∧ attached (reporter w0) = true ∧
        reported (reporter w0) = [] ∧
        replay model ct (getColumnLabels ct) cmap dvt refs 0 traj
          (replicate (getNumColumns ct) zero) w0 = (w, r) ∧
        match r with
        | Ok _ => res = Ok (getTable (reporter w))
        | Err e => res = Err e
        end)).
Proof.
  unfold run_analyze, analyze. intros Hr.
  bind_inv Hr; [discriminate|]. apply emit_inv in Hc as [-> _].
  assert (∀ w1 r1,
            collectOutputs model outputPaths
              (mkWorld ([] ++ [InitSystem]) (reporter initialWorld)) =
              (w1, r1) →
            Forall isSetupEvent (trace w1) ∧
            Forall isSetupEvent (trace w1 ++ [AddComponent; InitSystem]) ∧
            reported (reporter w1) = []) as Hscan.
  { intros w1 r1 Hc. pose proof Hc as Hrows.
    apply collectOutputs_grows in Hc as (scan & Ht & Hscan & _).
    apply collectOutputs_sameRows in Hrows. unfold sameRows in Hrows.
    simpl in Ht, Hrows. rewrite Ht.
    assert (Forall isSetupEvent (InitSystem :: scan)) as Hsetup.
    { constructor; [done|]. eapply Forall_impl; [done|]. by intros []. }
    split_and!; [done| |done].
    apply Forall_app. split; [done|]. by repeat constructor. }
  bind_inv Hr.
  { apply Hscan in Hc as (Hsetup & _ & Hrows).
    exists (trace w). split; [done|]. left. split_and!; [done|done|tauto]. }
  apply Hscan in Hc as (_ & Hsetup & Hrows). clear Hscan.
  bind_inv Hr; [discriminate|]. injection Hc as <- _.
  bind_inv Hr; [discriminate|]. apply emit_inv in Hc as [-> _].
  simpl in Hr. rewrite <- app_assoc in Hr. simpl in Hr.
  exists (trace w0 ++ [AddComponent; InitSystem]). split; [done|].
  bind_inv Hr.
  { apply lift_inv in Hc as [-> _]. left. split_and!; [done|done|tauto]. }
  apply lift_inv in Hc as [-> Htraj].
  bind_inv Hr.
  { apply lift_inv in Hc as [-> _]. left. split_and!; [done|done|tauto]. }
  apply lift_inv in Hc as [-> Hcmap].
  bind_inv Hr.
  { apply THROW_IF_inv in Hc as ->. left. split_and!; [done|done|tauto]. }
  repeat match goal with u : unit |- _ => destruct u end.
  apply THROW_IF_Ok in Hc as [Hsame ->].
  apply negb_false_iff, Nat.eqb_eq in Hsame.
  bind_inv Hr.
  { apply resolveDiscreteComponents_inv in Hc as ->.
    left. split_and!; [done|done|tauto]. }
  pose proof Hc as Hrefs.
  apply resolveDiscreteComponents_inv in Hc as ->.
  right. bind_inv Hr.
  - eexists _, _, _, _, _.
    split_and!; [done|done|done|exact Hrefs| | | |exact Hc|]; simpl; try done.
  - repeat match goal with u : unit |- _ => destruct u end.
    bind_inv Hr; [discriminate|]. injection Hc0 as <- <-.
    injection Hr as <- <-.
    eexists _, _, _, _, _.
    split_and!; [done|done|done|exact Hrefs| | | |exact Hc|]; simpl; try done.
Qed.

(** Every run, sample by sample: what was called, on which state, and
    what was reported. *)
Lemma analyze_progress model (st ct : TimeSeriesTable) outputPaths dvt w res :
  run_analyze model st ct outputPaths dvt = (w, res) →
  ∃ setup per partial,
    trace w = setup ++ concat per ++ partial ∧
    Forall isSetupEvent setup ∧
    length (reported (reporter w)) = length per ∧
    (∀ k calls, per !! k = Some calls →
       ∃ traj cmap s row c sd ds,
         createFromStatesTable model st = Ok traj ∧
         createSystemControlIndexMap model = Ok cmap ∧
         traj !! k = Some s ∧
         getRowAtIndex ct k = Ok row ∧
         injectControls cmap (getColumnLabels ct) row 0
           (replicate (getNumColumns ct) zero) = Ok c ∧
         withDiscreteVariables model dvt k (getColumnLabels dvt)
           (setControls model (realizeVelocity model (prescribe model s)) c) =
           Ok sd ∧
         calls = sampleCalls k c ds ∧
         Forall (isDiscreteAt k) ds ∧
         length ds = getNumColumns dvt ∧
         reported (reporter w) !! k =
           Some (getTime (realizeReport model sd),
                 map (λ o, getValue o (realizeReport model sd))
                     (inputs (reporter w)))) ∧
    (∃ c ds rest,
       sampleCalls (length per) c ds = partial ++ rest ∧
       Forall (isDiscreteAt (length per)) ds) ∧
    (∀ table, res = Ok table →
       partial = [] ∧ table = getTable (reporter w) ∧
       ∃ traj, createFromStatesTable model st = Ok traj ∧
               length per = length traj).
Proof.
  intros Hr.
  apply analyze_loop in Hr as (setup & Hsetup & Hcases).
  destruct Hcases as [(Ht & Hrows & Hres)|
                      (traj & cmap & refs & w0 & r & Htraj & Hcmap & _ &
                       Hrefs & Ht & Hatt & Hrows & Hloop & Hok)].
  - exists setup, [], []. simpl. rewrite app_nil_r.
    split_and!; try done.
    + by rewrite Hrows.
    + by exists [], [], (sampleCalls 0 [] []).
    + intros table ->. by destruct Hres.
  - eapply replay_progress in Hloop
      as (per & rows & partial & Htr & Hrep & Hlen & Hk & Hpre & Hdone);
      [|done|apply agreeOffLabels_refl].
    exists setup, per, partial. rewrite Ht, Hrows in *. simpl in *.
    split_and!; try done.
    + by rewrite Hrep.
    + intros k calls Hcalls.
      apply Hk in Hcalls
        as (s & row & c & wk & wk' & sd & ds & Hs & Hrow & Hinj & Hdisc &
            -> & Hds & Hlends & Hrowk).
      exists traj, cmap, s, row, c, sd, ds.
      split_and!; try done.
      * by eapply applyDiscrete_state.
      * rewrite Hrep. simpl. done.
    + intros table ->. destruct r as [[]|e]; [|done].
      destruct Hdone as [-> Hper]; [done|].
      split_and!; [done|congruence|by exists traj].
Qed.
End SampleStateFacts.

(** ** The first column label that is not a key *)

Section StrayLabel.
Context {double : Type}.
Implicit Type cmap : gmap string nat.
Implicit Type row controls : list double.


End StrayLabel.

(** ** The map of the state variables, whatever the labels *)

Section YIndexFacts.





End YIndexFacts.

(** * The properties of the specification *)

(** C3.  With well-formed patterns, an output is registered with the
    reporter if and only if it is an output of the model whose whole path
    is a word of at least one pattern ([std::regex_match], not a search)
    and whose declared type is [T].  An output that matches a pattern but
    has another type is logged with a warning and not registered, and the
    scan runs to its end: the reporter is attached. *)
Theorem scan_registers_typed_full_matches
    {double T State : Type} `{!Platform double T State}
    (model : Model) (statesTable controlsTable : TimeSeriesTable_ double double)
    (outputPaths : list string)
    (discreteVariablesTable : TimeSeriesTable_ double double) :
  Forall (λ p, is_Some (std_regex p)) outputPaths →
  let w := (run_analyze model statesTable controlsTable outputPaths
              discreteVariablesTable).1 in
  (∀ o, In o (inputs (reporter w)) ↔
        In o (allOutputs model) ∧
        (∃ p, In p outputPaths ∧ fullyMatches p o) ∧
        getTypeName o = typeNameT) ∧
  (∀ o, In o (allOutputs model) →
        (∃ p, In p outputPaths ∧ fullyMatches p o) →
        getTypeName o ≠ typeNameT →
        In (LogWarn o) (trace w) ∧ ¬ In o (inputs (reporter w))) ∧
  In AddComponent (trace w).
Proof.
  intros Hwf.
  destruct (run_analyze _ _ _ _ _) as [w res] eqn:Hr. simpl.
  apply analyze_scan in Hr as (Hin & late & Ht & _); [|done].
  rewrite Hin, Ht. split_and!.
  - intros o. apply elem_of_matchedOutputs.
  - intros o Ho Hm Hty. split.
    + apply in_or_app. left. right.
      apply LogWarn_scanEvents. by split_and!.
    + rewrite elem_of_matchedOutputs. intros (_ & _ & Heq). done.
  - apply in_or_app. right. by left.
Qed.

(** C9.  In every run of [analyze], whatever its outcome: if the reporter
    is attached to the model at all, then the outputs registered before
    that call are the outputs of the model that match a pattern and have
    type [T], they are the outputs the reporter holds, the call is
    followed at once by the second [initSystem], and no output is
    registered afterwards.  A run that returns a table did attach the
    reporter. *)
Theorem registration_precedes_attachment
    {double T State : Type} `{!Platform double T State}
    (model : Model) (statesTable controlsTable : TimeSeriesTable_ double double)
    (outputPaths : list string)
    (discreteVariablesTable : TimeSeriesTable_ double double) :
  let run := run_analyze model statesTable controlsTable outputPaths
               discreteVariablesTable in
  (∀ pre post, trace run.1 = pre ++ AddComponent :: post →
     (∀ o, In (AddToReport o) pre ↔
           In o (allOutputs model) ∧
           (∃ p, In p outputPaths ∧ fullyMatches p o) ∧
           getTypeName o = typeNameT) ∧
     (∀ o, In o (inputs (reporter run.1)) ↔ In (AddToReport o) pre) ∧
     (∃ late, post = InitSystem :: late) ∧
     (∀ o, ¬ In (AddToReport o) post) ∧
     ¬ In AddComponent post) ∧
  (is_Ok run.2 → In AddComponent (trace run.1)).
Proof.
  destruct (run_analyze _ _ _ _ _) as [w res] eqn:Hr. simpl.
  apply analyze_shape in Hr
    as (scan & w1 & r1 & Hrun & Hw1 & Hscan & Hin & Hcases).
  destruct Hcases as [(_ & Ht & Hres)|(Hok & late & Ht & Hlate)].
  - split; [|done]. intros pre post Hcut. rewrite Ht in Hcut.
    assert (In AddComponent (InitSystem :: scan)) as [|Hbad]; [|done|].
    { rewrite Hcut. apply in_or_app. right. by left. }
    by apply scan_not_AddComponent in Hbad.
  - split.
    + intros pre post Hcut. rewrite Ht in Hcut.
      apply cut_unique in Hcut as [-> ->].
      * assert (∀ o, In o (registrations scan) ↔
                     In (AddToReport o) (InitSystem :: scan)) as Hreg.
        { intros o. rewrite In_registrations. simpl.
          split; [by right|]. by intros [|]. }
        split_and!.
        -- intros o. rewrite <- Hreg.
           destruct r1 as [[]|]; [|done].
           apply collectOutputs_Ok in Hrun as ->. simpl in Hw1.
           injection Hw1 as <-. rewrite registrations_scanEvents.
           apply elem_of_matchedOutputs.
        -- intros o. by rewrite Hin.
        -- by exists late.
        -- intros o [|Ho]; [done|].
           rewrite Forall_forall in Hlate.
           by apply list_elem_of_In, Hlate in Ho.
        -- intros [|Ho]; [done|]. by apply late_not_AddComponent in Ho.
      * intros [|Ho]; [done|]. by apply scan_not_AddComponent in Ho.
      * intros [|Ho]; [done|]. by apply late_not_AddComponent in Ho.
    + intros _. rewrite Ht. apply in_or_app. right. by left.
Qed.

(** C4.  In every run of [analyze], returning or throwing, the calls
    after the setup are the calls of the samples that were processed, one
    stretch per sample and in row order, and then at most a beginning of
    the stretch of the sample that threw.  The stretch of sample [itime]
    is: the state is taken from the trajectory, prescribed motion is
    enforced, realization goes to velocity, the controls are written, the
    discrete variables (one call per column, none without a table) are
    written, and realization goes to report.  The calls act on the state
    in this order: the state of the sample is the one built from row
    [itime] of the states table; prescribed motion is enforced on it,
    the result is realized to velocity, then given the controls of row
    [itime] of the controls table, then the discrete variables of row
    [itime], then realized to report; the row the reporter captured for
    the sample holds the time of that last state and the values of the
    registered outputs in it.  The reporter has captured one row per
    processed sample.  In a run that returns, every state of the
    trajectory was processed. *)
Theorem sample_calls_in_order
    {double T State : Type} `{!Platform double T State}
    (model : Model) (statesTable controlsTable : TimeSeriesTable_ double double)
    (outputPaths : list string)
    (discreteVariablesTable : TimeSeriesTable_ double double)
    (w : World double T) (res : result (TimeSeriesTable_ double T)) :
  run_analyze model statesTable controlsTable outputPaths
    discreteVariablesTable = (w, res) →
  ∃ setup samples partial,
    trace w = setup ++ concat samples ++ partial ∧
    Forall isSetupEvent setup ∧
    (∀ itime calls, samples !! itime = Some calls →
       ∃ controls discretes,
         calls = [StateAt itime; Prescribe itime; RealizeVelocity itime;
                  SetControls itime controls] ++
                 discretes ++ [RealizeReport itime] ∧
         Forall (isDiscreteAt itime) discretes ∧
         length discretes = getNumColumns discreteVariablesTable ∧
         ∃ statesTraj controlMap time y s controlsRow sd,
           createFromStatesTable model statesTable = Ok statesTraj ∧
           statesTraj !! itime = Some s ∧
           getRows statesTable !! itime = Some (time, y) ∧
           stateFromRow model (getColumnLabels statesTable) time y = Ok s ∧
           createSystemControlIndexMap model = Ok controlMap ∧
           getRowAtIndex controlsTable itime = Ok controlsRow ∧
           injectControls controlMap (getColumnLabels controlsTable)
             controlsRow 0 (replicate (getNumColumns controlsTable) zero) =
             Ok controls ∧
           withDiscreteVariables model discreteVariablesTable itime
             (getColumnLabels discreteVariablesTable)
             (setControls model
                (realizeVelocity model (prescribe model s)) controls) =
             Ok sd ∧
           reported (reporter w) !! itime =
             Some (getTime (realizeReport model sd),
                   map (λ o, getValue o (realizeReport model sd))
                       (inputs (reporter w)))) ∧
    (∃ controls discretes rest,
       let itime := length samples in
       [StateAt itime; Prescribe itime; RealizeVelocity itime;
        SetControls itime controls] ++
       discretes ++ [RealizeReport itime] = partial ++ rest ∧
       Forall (isDiscreteAt itime) discretes) ∧
    length (reported (reporter w)) = length samples ∧
    (∀ table, res = Ok table →
       partial = [] ∧ getNumRows table = length samples ∧
       ∃ statesTraj, createFromStatesTable model statesTable = Ok statesTraj ∧
                     length samples = length statesTraj).
Proof.
  intros Hr.
  apply analyze_progress in Hr
    as (setup & per & partial & Ht & Hsetup & Hlen & Hk & Hpre & Hok).
  exists setup, per, partial. split_and!; [done|done| |done|done|].
  - intros itime calls Hcalls.
    apply Hk in Hcalls
      as (traj & cmap & s & row & c & sd & ds & Htraj & Hcmap & Hs & Hrow &
          Hinj & Hdisc & -> & Hds & Hlends & Hrowk).
    exists c, ds. split_and!; [done..|].
    destruct (createFromStatesTable_lookup _ _ _ _ _ Htraj Hs)
      as (time & y & Hty & Hstate).
    by exists traj, cmap, time, y, s, row, sd.
  - intros table Hres. destruct (Hok table Hres) as (-> & -> & traj & ? & ?).
    split_and!; [done| |by exists traj].
    unfold getNumRows, getTable. simpl. done.
Qed.

(** C5.  The table a run of [analyze] returns has as many rows as the
    states table and as the controls table; its columns are the matched
    outputs, which are the outputs registered with the reporter, in the
    order of their registration; every row has one entry per column.
    Row [k] of the table comes from sample [k]: it holds the time and the
    values of the matched outputs in the state built from row [k] of the
    states table, after prescribed motion, realization to velocity, the
    controls of row [k] of the controls table, the discrete variables of
    row [k] of the discrete-variables table and realization to report. *)
Theorem table_rows_and_columns
    {double T State : Type} `{!Platform double T State}
    (model : Model) (statesTable controlsTable : TimeSeriesTable_ double double)
    (outputPaths : list string)
    (discreteVariablesTable : TimeSeriesTable_ double double)
    (w : World double T) (table : TimeSeriesTable_ double T) :
  run_analyze model statesTable controlsTable outputPaths
    discreteVariablesTable = (w, Ok table) →
  getNumRows table = getNumRows statesTable ∧
  getNumRows table = getNumRows controlsTable ∧
  getColumnLabels table = map getPathName (matchedOutputs model outputPaths) ∧
  registrations (trace w) = matchedOutputs model outputPaths ∧
  inputs (reporter w) = matchedOutputs model outputPaths ∧
  Forall (λ r, length r.2 = getNumColumns table) (getRows table) ∧
  ∃ controlMap,
    createSystemControlIndexMap model = Ok controlMap ∧
    ∀ k, k < getNumRows table →
      ∃ time y s controlsRow controls sd,
        getRows statesTable !! k = Some (time, y) ∧
        stateFromRow model (getColumnLabels statesTable) time y = Ok s ∧
        getRowAtIndex controlsTable k = Ok controlsRow ∧
        injectControls controlMap (getColumnLabels controlsTable)
          controlsRow 0 (replicate (getNumColumns controlsTable) zero) =
          Ok controls ∧
        withDiscreteVariables model discreteVariablesTable k
          (getColumnLabels discreteVariablesTable)
          (setControls model
             (realizeVelocity model (prescribe model s)) controls) =
          Ok sd ∧
        getRows table !! k =
          Some (getTime (realizeReport model sd),
                map (λ o, getValue o (realizeReport model sd))
                    (matchedOutputs model outputPaths)).
Proof.
  intros Hr. pose proof Hr as Hrun.
  apply analyze_Ok in Hr
    as (traj & cmap & per & rows & Htraj & _ & Hsc & _ & Ht & Hrep & -> &
        Hper & Hrows & Hwid & Hk).
  pose proof (createFromStatesTable_size _ _ _ Htraj) as Hsize.
  unfold getNumRows, getNumColumns in *. simpl.
  split_and!; try congruence.
  - rewrite Ht. unfold registrations. simpl.
    rewrite !omap_app. simpl.
    fold (registrations (scanEvents (double:=double) model outputPaths)).
    rewrite registrations_scanEvents.
    assert (Forall isLateEvent (concat per)) as Hlate.
    { apply Forall_concat, Forall_lookup. intros k evs Hev.
      apply Hk in Hev as (c & ds & -> & Hds & _).
      by apply sampleCalls_late. }
    apply late_registrations in Hlate. unfold registrations in Hlate.
    by rewrite Hlate, !app_nil_r.
  - by rewrite Hrep.
  - by rewrite length_map.
  - apply analyze_samples in Hrun
      as (traj' & cmap' & refs & w0 & per' & rows' & Htraj' & Hcmap & Hrefs &
          _ & Htable & _ & Hlen' & Hsample).
    rewrite Htraj in Htraj'. injection Htraj' as <-.
    injection Htable as <-.
    exists cmap'. split; [done|]. intros k Hlt.
    destruct (traj !! k) as [s|] eqn:Hs;
      [|apply lookup_ge_None in Hs; lia].
    destruct (createFromStatesTable_lookup _ _ _ _ _ Htraj Hs)
      as (time & y & Hty & Hstate).
    apply Hsample in Hs
      as (row & c & wk & wk' & sd & ds & Hrow & Hinj & Hdisc & _ & _ & Hrowk).
    apply (applyDiscrete_state _ _ _ _ _ _ _ _ _ _ _ Hrefs) in Hdisc.
    by exists time, y, s, row, c, sd.
Qed.

(** C2, as the header has it.  When the row counts of the states and
    controls tables differ, or a discrete-variables table with columns has
    another row count than the states table, [analyze] returns no table.
    When the steps before the checks complete (well-formed patterns, a
    states trajectory, a control-index map), what it throws is the
    row-count exception of the first check that fails, with the two
    counts that check compared: those of the states and controls tables
    when they differ, and otherwise those of the discrete-variables and
    states tables. *)
Theorem row_count_mismatch_rejected
    {double T State : Type} `{!Platform double T State}
    (model : Model) (statesTable controlsTable : TimeSeriesTable_ double double)
    (outputPaths : list string)
    (discreteVariablesTable : TimeSeriesTable_ double double) :
  getNumRows statesTable ≠ getNumRows controlsTable ∨
  (getNumColumns discreteVariablesTable ≠ 0 ∧
   getNumRows discreteVariablesTable ≠ getNumRows statesTable) →
  let run := run_analyze model statesTable controlsTable outputPaths
               discreteVariablesTable in
  ¬ is_Ok run.2 ∧
  (Forall (λ p, is_Some (std_regex p)) outputPaths →
   is_Ok (createFromStatesTable model statesTable) →
   is_Ok (createSystemControlIndexMap model) →
   (getNumRows statesTable ≠ getNumRows controlsTable ∧
    run.2 = Err (RowCountMismatch StatesVsControls
                   (getNumRows statesTable) (getNumRows controlsTable))) ∨
   (getNumRows statesTable = getNumRows controlsTable ∧
    getNumColumns discreteVariablesTable ≠ 0 ∧
    getNumRows discreteVariablesTable ≠ getNumRows statesTable ∧
    run.2 = Err (RowCountMismatch DiscreteVsStates
                   (getNumRows discreteVariablesTable)
                   (getNumRows statesTable)))).
Proof.
  intros Hmis. simpl. split.
  - destruct (run_analyze _ _ _ _ _) as [w [table|e]] eqn:Hr;
      [|simpl; tauto].
    simpl. intros _.
    apply analyze_Ok in Hr
      as (_ & _ & _ & _ & _ & _ & Hsc & Hdv & _).
    destruct Hmis as [Hne|[Hcols Hne]]; [done|]. by apply Hne, Hdv.
  - intros Hwf Htraj Hcmap.
    destruct (createFromStatesTable model statesTable) as [traj|] eqn:Et;
      [|done].
    destruct (createSystemControlIndexMap model) as [cmap|] eqn:Ec; [|done].
    destruct (analyze_reaches_checks model statesTable controlsTable
                outputPaths discreteVariablesTable traj cmap Hwf Et Ec)
      as (w0 & -> & _).
    unfold bind at 1. unfold OPENSIM_THROW_IF at 1.
    destruct (getNumRows statesTable =? getNumRows controlsTable) eqn:Hsc;
      simpl.
    + apply Nat.eqb_eq in Hsc.
      destruct Hmis as [Hne|[Hcols Hne]]; [done|].
      unfold bind at 1. unfold resolveDiscreteComponents.
      pose proof Hcols as Hcols'. apply Nat.eqb_neq in Hcols'. rewrite Hcols'.
      unfold bind at 1. unfold OPENSIM_THROW_IF.
      pose proof Hne as Hne'. apply Nat.eqb_neq in Hne'. rewrite Hne'. simpl.
      right. by split_and!.
    + apply Nat.eqb_neq in Hsc. left. by split.
Qed.


(** C6.  The order checker and the control-index map succeed exactly when
    the controls named by the actuators, in model order, are the controls
    of the flat vector, in its order.  Any reordering of the vector that
    makes the two sequences differ makes both throw the internal-error
    exception, which is not a row-count exception. *)
Theorem control_order_checked (m : Model) :
  (checkOrderSystemControls m = Ok tt ↔
   actuatorControlOrder m = controlVectorOrder m) ∧
  (is_Ok (createSystemControlIndexMap m) ↔
   actuatorControlOrder m = controlVectorOrder m) ∧
  (∀ order,
     Permutation (controlVectorOrder m) order →
     order ≠ actuatorControlOrder m →
     let m' := mkModel (getComponentList m) (getActuators m) order
                 (yLayout m) in
     checkOrderSystemControls m' = Err ControlOrderMismatch ∧
     createSystemControlIndexMap m' = Err ControlOrderMismatch) ∧
  ¬ is_RowCountMismatch ControlOrderMismatch.
Proof.
  split_and!.
  - apply checkOrderSystemControls_Ok.
  - apply createSystemControlIndexMap_Ok.
  - intros order _ Hne. simpl. split.
    + apply checkOrderSystemControls_Err. unfold actuatorControlOrder in *.
      simpl. congruence.
    + apply createSystemControlIndexMap_Err. unfold actuatorControlOrder in *.
      simpl. congruence.
  - simpl. tauto.
Qed.



(** C1.  The controls vector is given one element per column of the
    controls table (line 265), not one per control of the model.  On the
    pendulum, whose brake has slot 1 in the control-index map: with the
    brake's column missing, the vector written at every sample has the
    one element of the motor and no element for the brake, so the brake is
    not given 0.0; with the motor's column missing, the brake's value is
    written at index 1 of a vector of one element, and no table is
    returned. *)
Theorem missing_control_has_no_slot :
  ∃ cmap w table w',
    createSystemControlIndexMap Pendulum.model = Ok cmap ∧
    cmap !! "/forceset/motor" = Some 0 ∧
    cmap !! "/forceset/brake" = Some 1 ∧
    ¬ In "/forceset/brake" (getColumnLabels Pendulum.motorOnly) ∧
    run_analyze (Platform0:=Pendulum.doubles) Pendulum.model
      Pendulum.statesTable Pendulum.motorOnly [] emptyTable = (w, Ok table) ∧
    (∀ i controls, In (SetControls i controls) (trace w) →
                   length controls = 1 ∧ controls !! 1 = None) ∧
    In (SetControls 0 [7%Q]) (trace w) ∧
    ¬ In "/forceset/motor" (getColumnLabels Pendulum.brakeOnly) ∧
    run_analyze (Platform0:=Pendulum.doubles) Pendulum.model
      Pendulum.statesTable Pendulum.brakeOnly [] emptyTable =
      (w', Err (IndexOutOfRange 1 1)).
Proof.
  eexists _, _, _, _. split_and!.
  - reflexivity.
  - by vm_compute.
  - by vm_compute.
  - intros [|[]]; discriminate.
  - by vm_compute.
  - intros i controls Hin. simpl in Hin.
    repeat (destruct Hin as [Hin|Hin]; [by simplify_eq|]). done.
  - simpl. tauto.
  - intros [|[]]; discriminate.
  - by vm_compute.
Qed.

(** * The properties at work on the pendulum and on two links *)

(** C2: three rows of controls for two rows of states.  With actuators
    that are not in the order of the controls, the order exception is
    thrown first (line 264); with a pattern that has an unclosed
    parenthesis, [std::regex_error] is (line 241). *)
Lemma row_count_error_preempted :
  getNumRows Pendulum.statesTable ≠ getNumRows Pendulum.controlsTable3 ∧
  (∃ w,
     run_analyze (Platform0:=Pendulum.doubles) Pendulum.misordered
       Pendulum.statesTable Pendulum.controlsTable3 [] emptyTable =
       (w, Err ControlOrderMismatch)) ∧
  ¬ is_RowCountMismatch ControlOrderMismatch ∧
  (∃ w,
     run_analyze (Platform0:=Pendulum.doubles) Pendulum.model
       Pendulum.statesTable Pendulum.controlsTable3 ["("] emptyTable =
       (w, Err (RegexError "("))) ∧
  ¬ is_RowCountMismatch (RegexError "(").
Proof.
  split_and!; [by vm_compute|eexists; by vm_compute|simpl; tauto
              |eexists; by vm_compute|simpl; tauto].
Qed.

(** C3: a second pattern with an unclosed parenthesis.  The scan stops at
    the first output, on [std::regex_error]; the actuation of the motor
    matches the first pattern and has type [double], and is not
    registered. *)
Lemma unclosed_pattern_stops_scan :
  let run := run_analyze (Platform0:=Pendulum.doubles) Pendulum.model
               Pendulum.statesTable Pendulum.controlsTable
               [".*actuation"; "("] emptyTable in
  In Pendulum.actuation (allOutputs Pendulum.model) ∧
  fullyMatches (Platform0:=Pendulum.doubles) ".*actuation"
    Pendulum.actuation ∧
  getTypeName Pendulum.actuation = "double" ∧
  ¬ In Pendulum.actuation (inputs (reporter run.1)) ∧
  run.2 = Err (RegexError "(").
Proof.
  split_and!.
  - simpl. tauto.
  - apply selects_fullyMatches. by vm_compute.
  - reflexivity.
  - vm_compute. tauto.
  - by vm_compute.
Qed.



Lemma row_count_mismatch_rejected_witness :
  let run := run_analyze (Platform0:=Pendulum.doubles) Pendulum.model
               Pendulum.statesTable Pendulum.controlsTable3
               [".*joint_angle"] emptyTable in
  let run' := run_analyze (Platform0:=Pendulum.doubles) Pendulum.model
                Pendulum.statesTable Pendulum.controlsTable
                [".*joint_angle"] Pendulum.discreteTable1 in
  getNumRows Pendulum.statesTable ≠ getNumRows Pendulum.controlsTable3 ∧
  getNumColumns Pendulum.discreteTable1 ≠ 0 ∧
  getNumRows Pendulum.discreteTable1 ≠ getNumRows Pendulum.statesTable ∧
  (¬ is_Ok run.2 ∧
   run.2 = Err (RowCountMismatch StatesVsControls 2 3)) ∧
  (¬ is_Ok run'.2 ∧
   run'.2 = Err (RowCountMismatch DiscreteVsStates 1 2)).
Proof.
  assert (Forall (λ p, is_Some (std_regex (Platform:=Pendulum.doubles) p))
            [".*joint_angle"]) as Hwf.
  { repeat constructor. eexists. by vm_compute. }
  assert (getNumRows Pendulum.statesTable ≠
          getNumRows Pendulum.controlsTable3) as H1 by (by vm_compute).
  assert (getNumColumns Pendulum.discreteTable1 ≠ 0) as H2 by (by vm_compute).
  assert (getNumRows Pendulum.discreteTable1 ≠
          getNumRows Pendulum.statesTable) as H3 by (by vm_compute).
  intros run run'.
  split; [exact H1|]. split; [exact H2|]. split; [exact H3|]. split.
  - destruct (row_count_mismatch_rejected (Platform0:=Pendulum.doubles)
                Pendulum.model Pendulum.statesTable Pendulum.controlsTable3
                [".*joint_angle"] emptyTable (or_introl H1)) as [Hno Herr].
    split; [exact Hno|].
    destruct (Herr Hwf I I) as [[_ He]|[Heq _]]; [exact He|destruct (H1 Heq)].
  - destruct (row_count_mismatch_rejected (Platform0:=Pendulum.doubles)
                Pendulum.model Pendulum.statesTable Pendulum.controlsTable
                [".*joint_angle"] Pendulum.discreteTable1
                (or_intror (conj H2 H3))) as [Hno Herr].
    split; [exact Hno|].
    destruct (Herr Hwf I I) as [[Hne _]|(_ & _ & _ & He)];
      [destruct (Hne eq_refl)|exact He].
Defined.

Lemma scan_registers_typed_full_matches_witness :
  Forall (λ p, is_Some (std_regex (Platform:=Pendulum.doubles) p))
    [".*"; ".*actuation"] ∧
  let w := (run_analyze (Platform0:=Pendulum.doubles) Pendulum.model
              Pendulum.statesTable Pendulum.controlsTable
              [".*"; ".*actuation"] emptyTable).1 in
  (∀ o, In o (inputs (reporter w)) ↔
        In o (allOutputs Pendulum.model) ∧
        (∃ p, In p [".*"; ".*actuation"] ∧
              fullyMatches (Platform0:=Pendulum.doubles) p o) ∧
        getTypeName o = "double") ∧
  (∀ o, In o (allOutputs Pendulum.model) →
        (∃ p, In p [".*"; ".*actuation"] ∧
              fullyMatches (Platform0:=Pendulum.doubles) p o) →
        getTypeName o ≠ "double" →
        In (LogWarn o) (trace w) ∧ ¬ In o (inputs (reporter w))) ∧
  In AddComponent (trace w).
Proof.
  assert (Forall (λ p, is_Some (std_regex (Platform:=Pendulum.doubles) p))
            [".*"; ".*actuation"]) as Hwf.
  { repeat constructor; eexists; by vm_compute. }
  split; [exact Hwf|].
  exact (scan_registers_typed_full_matches (Platform0:=Pendulum.doubles)
           Pendulum.model Pendulum.statesTable Pendulum.controlsTable
           [".*"; ".*actuation"] emptyTable Hwf).
Defined.

Lemma registration_precedes_attachment_witness :
  let run := run_analyze (Platform0:=Pendulum.doubles) Pendulum.model
               Pendulum.statesTable Pendulum.controlsTable
               [".*joint_angle"] emptyTable in
  let pre := [InitSystem; LogDebug Pendulum.jointAngle;
              AddToReport Pendulum.jointAngle] in
  let post := [InitSystem; StateAt 0; Prescribe 0; RealizeVelocity 0;
               SetControls 0 [7; 5]%Q; RealizeReport 0;
               StateAt 1; Prescribe 1; RealizeVelocity 1;
               SetControls 1 [8; 6]%Q; RealizeReport 1] in
  trace run.1 = pre ++ AddComponent :: post ∧
  is_Ok run.2 ∧
  (∀ o, In (AddToReport o) pre ↔
        In o (allOutputs Pendulum.model) ∧
        (∃ p, In p [".*joint_angle"] ∧
              fullyMatches (Platform0:=Pendulum.doubles) p o) ∧
        getTypeName o = "double") ∧
  (∀ o, In o (inputs (reporter run.1)) ↔ In (AddToReport o) pre) ∧
  (∃ late, post = InitSystem :: late) ∧
  (∀ o, ¬ In (AddToReport o) post) ∧
  ¬ In AddComponent post ∧
  In AddComponent (trace run.1).
Proof.
  intros run pre post.
  assert (trace run.1 = pre ++ AddComponent :: post) as Hcut
    by (by vm_compute).
  assert (is_Ok run.2) as Hok by (by vm_compute).
  destruct (registration_precedes_attachment (Platform0:=Pendulum.doubles)
              Pendulum.model Pendulum.statesTable Pendulum.controlsTable
              [".*joint_angle"] emptyTable) as [Hcuts Hatt].
  destruct (Hcuts pre post Hcut) as (Hall & Hreg & Hnext & Hlate & Honce).
  repeat (split; [assumption|]). exact (Hatt Hok).
Defined.

Lemma sample_calls_in_order_witness :
  let engine : Platform Q Q Pendulum.SimState := Pendulum.doubles in
  run_analyze Pendulum.model
    Pendulum.statesTable Pendulum.controlsTable [".*joint_angle"]
    Pendulum.discreteTable = (Pendulum.world1, Ok Pendulum.table1) ∧
  ∃ setup samples partial,
    trace Pendulum.world1 = setup ++ concat samples ++ partial ∧
    Forall isSetupEvent setup ∧
    (∀ itime calls, samples !! itime = Some calls →
       ∃ controls discretes,
         calls = [StateAt itime; Prescribe itime; RealizeVelocity itime;
                  SetControls itime controls] ++
                 discretes ++ [RealizeReport itime] ∧
         Forall (isDiscreteAt itime) discretes ∧
         length discretes = getNumColumns Pendulum.discreteTable ∧
         ∃ statesTraj controlMap time y s controlsRow sd,
           createFromStatesTable Pendulum.model Pendulum.statesTable =
             Ok statesTraj ∧
           statesTraj !! itime = Some s ∧
           getRows Pendulum.statesTable !! itime = Some (time, y) ∧
           stateFromRow Pendulum.model
             (getColumnLabels Pendulum.statesTable) time y = Ok s ∧
           createSystemControlIndexMap Pendulum.model = Ok controlMap ∧
           getRowAtIndex Pendulum.controlsTable itime = Ok controlsRow ∧
           injectControls controlMap (getColumnLabels Pendulum.controlsTable)
             controlsRow 0
             (replicate (getNumColumns Pendulum.controlsTable) zero) =
             Ok controls ∧
           withDiscreteVariables Pendulum.model Pendulum.discreteTable itime
             (getColumnLabels Pendulum.discreteTable)
             (setControls Pendulum.model
                (realizeVelocity Pendulum.model
                   (prescribe Pendulum.model s)) controls) =
             Ok sd ∧
           reported (reporter Pendulum.world1) !! itime =
             Some (getTime (realizeReport Pendulum.model sd),
                   map (λ o, getValue o (realizeReport Pendulum.model sd))
                       (inputs (reporter Pendulum.world1)))) ∧
    (∃ controls discretes rest,
       let itime := length samples in
       [StateAt itime; Prescribe itime; RealizeVelocity itime;
        SetControls itime controls] ++
       discretes ++ [RealizeReport itime] = partial ++ rest ∧
       Forall (isDiscreteAt itime) discretes) ∧
    length (reported (reporter Pendulum.world1)) = length samples ∧
    (∀ table, Ok Pendulum.table1 = Ok table →
       partial = [] ∧ getNumRows table = length samples ∧
       ∃ statesTraj,
         createFromStatesTable Pendulum.model Pendulum.statesTable =
           Ok statesTraj ∧
         length samples = length statesTraj).
Proof.
  intros engine.
  assert (run_analyze (Platform0:=Pendulum.doubles) Pendulum.model
            Pendulum.statesTable Pendulum.controlsTable [".*joint_angle"]
            Pendulum.discreteTable = (Pendulum.world1, Ok Pendulum.table1))
    as Hrun by (by vm_compute).
  split; [exact Hrun|].
  exact (sample_calls_in_order (Platform0:=Pendulum.doubles) _ _ _ _ _ _ _
           Hrun).
Defined.

(** The two rows of that run hold the joint angle of each sample; at
    the second sample the state that is realized to report holds the
    controls of the second row, the motor's in slot 0, and the discrete
    variable of the second row. *)
Example pendulum_rows :
  reported (reporter Pendulum.world1) =
    [ (0%Q, [(1 # 10)%Q]); ((1 # 100)%Q, [(2 # 10)%Q]) ] ∧
  withDiscreteVariables (Platform0:=Pendulum.doubles) Pendulum.model
    Pendulum.discreteTable 1 (getColumnLabels Pendulum.discreteTable)
    (Pendulum.mkState (1 # 100) [2 # 10; 1]%Q [8; 6]%Q [] Pendulum.Velocity) =
    Ok (Pendulum.mkState (1 # 100) [2 # 10; 1]%Q [8; 6]%Q
          [("/forceset/motor", "fatigue", 4%Q)] Pendulum.Velocity).
Proof. split; by vm_compute. Qed.

Lemma table_rows_and_columns_witness :
  let engine : Platform Q Q Pendulum.SimState := Pendulum.doubles in
  run_analyze Pendulum.model
    Pendulum.statesTable Pendulum.controlsTable [".*joint_angle"]
    Pendulum.discreteTable = (Pendulum.world1, Ok Pendulum.table1) ∧
  getNumRows Pendulum.table1 = getNumRows Pendulum.statesTable ∧
  getNumRows Pendulum.table1 = getNumRows Pendulum.controlsTable ∧
  getColumnLabels Pendulum.table1 =
    map getPathName (matchedOutputs Pendulum.model [".*joint_angle"]) ∧
  registrations (trace Pendulum.world1) =
    matchedOutputs Pendulum.model [".*joint_angle"] ∧
  inputs (reporter Pendulum.world1) =
    matchedOutputs Pendulum.model [".*joint_angle"] ∧
  Forall (λ r, length r.2 = getNumColumns Pendulum.table1)
    (getRows Pendulum.table1) ∧
  ∃ controlMap,
    createSystemControlIndexMap Pendulum.model = Ok controlMap ∧
    ∀ k, k < getNumRows Pendulum.table1 →
      ∃ time y s controlsRow controls sd,
        getRows Pendulum.statesTable !! k = Some (time, y) ∧
        stateFromRow Pendulum.model
          (getColumnLabels Pendulum.statesTable) time y = Ok s ∧
        getRowAtIndex Pendulum.controlsTable k = Ok controlsRow ∧
        injectControls controlMap (getColumnLabels Pendulum.controlsTable)
          controlsRow 0
          (replicate (getNumColumns Pendulum.controlsTable) zero) =
          Ok controls ∧
        withDiscreteVariables Pendulum.model Pendulum.discreteTable k
          (getColumnLabels Pendulum.discreteTable)
          (setControls Pendulum.model
             (realizeVelocity Pendulum.model
                (prescribe Pendulum.model s)) controls) =
          Ok sd ∧
        getRows Pendulum.table1 !! k =
          Some (getTime (realizeReport Pendulum.model sd),
                map (λ o, getValue o (realizeReport Pendulum.model sd))
                    (matchedOutputs Pendulum.model [".*joint_angle"])).
Proof.
  intros engine.
  assert (run_analyze (Platform0:=Pendulum.doubles) Pendulum.model
            Pendulum.statesTable Pendulum.controlsTable [".*joint_angle"]
            Pendulum.discreteTable = (Pendulum.world1, Ok Pendulum.table1))
    as Hrun by (by vm_compute).
  split; [exact Hrun|].
  exact (table_rows_and_columns (Platform0:=Pendulum.doubles) _ _ _ _ _ _ _
           Hrun).
Defined.

Lemma control_order_checked_witness :
  let swapped := ["/forceset/brake"; "/forceset/motor"] in
  actuatorControlOrder Pendulum.model = controlVectorOrder Pendulum.model ∧
  Permutation (controlVectorOrder Pendulum.model) swapped ∧
  swapped ≠ actuatorControlOrder Pendulum.model ∧
  checkOrderSystemControls Pendulum.model = Ok tt ∧
  is_Ok (createSystemControlIndexMap Pendulum.model) ∧
  checkOrderSystemControls Pendulum.misordered = Err ControlOrderMismatch ∧
  createSystemControlIndexMap Pendulum.misordered = Err ControlOrderMismatch.
Proof.
  intros swapped.
  assert (actuatorControlOrder Pendulum.model =
          controlVectorOrder Pendulum.model) as Heq by reflexivity.
  assert (Permutation (controlVectorOrder Pendulum.model) swapped) as Hperm
    by apply perm_swap.
  assert (swapped ≠ actuatorControlOrder Pendulum.model) as Hne
    by (by vm_compute).
  destruct (control_order_checked Pendulum.model)
    as (Hcheck & Hmap & Hreorder & _).
  destruct (Hreorder swapped Hperm Hne) as [Hc Hm].
  repeat (split; [assumption|]).
  split; [exact (proj2 Hcheck Heq)|].
  split; [exact (proj2 Hmap Heq)|].
  split; [exact Hc|exact Hm].
Defined.



(** The two links at the first sample, the shank asked for first though
    the thigh comes first in the model: the column of the shank holds the
    acceleration of the shank (5 along z) without gravity, in the shank's
    frame, which is parallel to ground; the column of the thigh holds the
    acceleration of the thigh (7 along x) without gravity, in the thigh's
    frame, which is turned a quarter about z. *)
Example imu_of_two_links :
  TwoLinks.framePaths = ["/bodyset/shank"; "/bodyset/thigh"] ∧
  map getPathName (allOutputs TwoLinks.model) =
    ["/bodyset/thigh|linear_acceleration";
     "/bodyset/shank|linear_acceleration"] ∧
  (∃ v, entry TwoLinks.imu2 0 0 = Some v ∧
        veq v (mkVec3 0 (981 # 100) 5)) ∧
  (∃ v, entry TwoLinks.imu2 0 1 = Some v ∧
        veq v (mkVec3 (981 # 100) (-7) 0)).
Proof.
  split_and!; [reflexivity|reflexivity| |];
    eexists; (split; [reflexivity|by vm_compute]).
Qed.

(** The rod at rest: both samples read gravity, turned into the frame of
    the rod and negated. *)
Example imu_at_rest :
  ∀ i, i < 2 →
    ∃ v, entry Pendulum.imu1 i 0 = Some v ∧ veq v (mkVec3 (981 # 100) 0 0).
Proof.
  intros [|[|i]] Hi; [| |lia]; eexists; (split; [reflexivity|by vm_compute]).
Qed.


(** Why the slots of the labels before are asked to lie inside the
    vector.  On the two links, a controls table with the brake's column
    and then a column that is no key: the vector has two elements, the
    brake has slot 2, and the write of line 314 for the brake comes
    before the lookup of the other label.  The embedding stops at that
    write; the C++ standard does not say what the program does. *)
Example slot_outside_vector_comes_first :
  ∃ cmap,
    createSystemControlIndexMap TwoLinks.model = Ok cmap ∧
    cmap !! "/forceset/brake" = Some 2 ∧
    cmap !! "/forceset/spring" = None ∧
    getNumColumns TwoLinks.brakeAndStray = 2 ∧
    (run_analyze (Platform0:=TwoLinks.doubles) TwoLinks.model
       TwoLinks.statesTable TwoLinks.brakeAndStray [] emptyTable).2 =
      Err (IndexOutOfRange 2 2).
Proof. eexists. split_and!; [reflexivity|by vm_compute..]. Qed.

(** * Further properties of [analyze] *)

(** ** More on the scan of the outputs (lines 235-254) *)

Section ScanOrder.
Context {double T State : Type} `{!Platform double T State}.
Implicit Type w : World double T.
Local Abbreviation TimeSeriesTable := (TimeSeriesTable_ double double).

Lemma bind_ext {A B} (c c' : M double T A) (k k' : A → M double T B) w :
  c w = c' w → (∀ a w1, k a w1 = k' a w1) → bind c k w = bind c' k' w.
Proof.
  intros Hc Hk. unfold bind. rewrite Hc.
  destruct (c' w) as [w1 [a|e]]; [apply Hk|done].
Qed.

(** A list that repeats one block for every element passing a test does
    not depend on the order of the elements. *)
Lemma flat_map_block_perm {A B} (f : A → bool) (block : list B) l l' :
  Permutation l l' →
  flat_map (λ x, if f x then block else []) l =
  flat_map (λ x, if f x then block else []) l'.
Proof.
  induction 1 as [|x l l' _ IH|x y l|l l' l'' _ IH1 _ IH2]; simpl.
  - done.
  - by rewrite IH.
  - by destruct (f x), (f y).
  - congruence.
Qed.

Lemma scanEvents_perm model (ps ps' : list string) :
  Permutation ps ps' →
  scanEvents (double:=double) model ps = scanEvents model ps'.
Proof.
  intros Hp. unfold scanEvents.
  induction (allOutputs model) as [|o os IH]; simpl; [done|].
  rewrite IH. f_equal.
  apply (flat_map_block_perm (λ p, selects p o)
           (if hasTypeT o then [LogDebug o; AddToReport o] else [LogWarn o])).
  done.
Qed.

Lemma matchedOutputs_perm model (ps ps' : list string) :
  Permutation ps ps' →
  matchedOutputs model ps = matchedOutputs model ps'.
Proof.
  intros Hp. unfold matchedOutputs.
  induction (allOutputs model) as [|o os IH]; simpl; [done|].
  rewrite IH. f_equal.
  by apply (flat_map_block_perm (λ p, selects p o && hasTypeT o) [o]).
Qed.

(** The outputs the scan registers, in closed form. *)
Lemma matchedOutputs_replicate model (ps : list string) :
  matchedOutputs model ps =
  flat_map (λ o, replicate (matchCount ps o) o)
           (List.filter hasTypeT (allOutputs model)).
Proof.
  unfold matchedOutputs.
  induction (allOutputs model) as [|o os IH]; simpl; [done|].
  rewrite IH. clear IH.
  assert (flat_map (λ p, if selects p o && hasTypeT o then [o] else []) ps =
          if hasTypeT o then replicate (matchCount ps o) o else []) as ->.
  { unfold matchCount. induction ps as [|p ps IHp]; simpl.
    - by destruct (hasTypeT o).
    - rewrite IHp. destruct (selects p o), (hasTypeT o); simpl; done. }
  destruct (hasTypeT o); simpl; done.
Qed.

(** In a model without outputs no pattern is ever compiled. *)
Lemma collectOutputs_no_outputs model (ps : list string) w :
  allOutputs model = [] →
  collectOutputs model ps w = (w, Ok tt).
Proof.
  unfold collectOutputs, allOutputs.
  induction (getComponentList model) as [|c cs IH]; simpl; [done|].
  intros Hno. apply app_eq_nil in Hno as [Hc Hcs].
  rewrite Hc. simpl. unfold bind at 1. unfold ret at 1. by apply IH.
Qed.

(** The patterns are compiled one after the other for the output at hand:
    the first one that is not well formed throws. *)
Lemma scan_patterns_malformed o (pre : list string) p post : ∀ w,
  Forall (λ q, is_Some (std_regex q)) pre →
  std_regex p = None →
  forEach (pre ++ p :: post) (λ q, matchOutput o q) w =
    (extend w (outputEvents pre o)
       (flat_map (λ q, if selects q o && hasTypeT o then [o] else []) pre),
     Err (RegexError p)).
Proof.
  unfold outputEvents.
  induction pre as [|q pre IH]; intros w Hwf Hp; simpl.
  - unfold bind, matchOutput. rewrite Hp. unfold throw.
    by rewrite extend_nil.
  - apply Forall_cons in Hwf as [Hq Hpre].
    erewrite bind_Ok by (by apply matchOutput_run).
    rewrite IH by done. by rewrite extend_extend.
Qed.

Lemma collectOutputs_malformed model o os (pre : list string) p post w :
  allOutputs model = o :: os →
  Forall (λ q, is_Some (std_regex q)) pre →
  std_regex p = None →
  collectOutputs model (pre ++ p :: post) w =
    (extend w (outputEvents pre o)
       (flat_map (λ q, if selects q o && hasTypeT o then [o] else []) pre),
     Err (RegexError p)).
Proof.
  unfold collectOutputs, allOutputs. intros Hall Hwf Hp.
  induction (getComponentList model) as [|c cs IH]; simpl in *; [done|].
  destruct (getOutputs c) as [|o' os'] eqn:Hc; simpl in *.
  - unfold bind at 1. unfold ret at 1. by apply IH.
  - injection Hall as -> _.
    unfold bind at 1. unfold bind at 1.
    by rewrite scan_patterns_malformed.
Qed.

(** The first pattern that is not well formed, if there is one. *)
Lemma first_malformed (ps : list string) :
  Forall (λ q, is_Some (std_regex q)) ps ∨
  ∃ pre p post, ps = pre ++ p :: post ∧
                Forall (λ q, is_Some (std_regex q)) pre ∧
                std_regex p = None.
Proof.
  induction ps as [|q ps IH]; [by left|].
  destruct (std_regex q) as [re|] eqn:Hq.
  - destruct IH as [Hwf|(pre & p & post & -> & Hpre & Hp)].
    + left. constructor; [by rewrite Hq|done].
    + right. exists (q :: pre), p, post. split_and!; [done| |done].
      constructor; [by rewrite Hq|done].
  - right. by exists [], q, ps.
Qed.

(** The scan completes exactly when the model has no output or every
    pattern is well formed. *)
Lemma collectOutputs_completes model (ps : list string) w :
  (∃ w', collectOutputs model ps w = (w', Ok tt)) ↔
  allOutputs model = [] ∨ Forall (λ q, is_Some (std_regex q)) ps.
Proof.
  split.
  - intros [w' Hr].
    destruct (allOutputs model) as [|o os] eqn:Hall; [by left|]. right.
    destruct (first_malformed ps) as [|(pre & p & post & -> & Hpre & Hp)];
      [done|].
    rewrite (collectOutputs_malformed model o os) in Hr by done.
    discriminate.
  - intros [Hno|Hwf].
    + exists w. by apply collectOutputs_no_outputs.
    + eexists. by apply collectOutputs_run.
Qed.
End ScanOrder.

(** X1. The order of the output patterns does not matter: with
    well-formed patterns, supplying them in another order gives the same
    calls, the same report and the same result. *)
Theorem pattern_order_is_irrelevant
    {double T State : Type} `{!Platform double T State}
    (model : Model) (statesTable controlsTable : TimeSeriesTable_ double double)
    (outputPaths outputPaths' : list string)
    (discreteVariablesTable : TimeSeriesTable_ double double) :
  Forall (λ p, is_Some (std_regex p)) outputPaths →
  Permutation outputPaths outputPaths' →
  run_analyze model statesTable controlsTable outputPaths
    discreteVariablesTable =
  run_analyze model statesTable controlsTable outputPaths'
    discreteVariablesTable.
Proof.
  intros Hwf Hperm.
  assert (Forall (λ p, is_Some (std_regex p)) outputPaths') as Hwf'.
  { rewrite Forall_forall in *. intros p Hp. apply Hwf.
    by rewrite Hperm. }
  unfold run_analyze, analyze.
  apply bind_ext; [done|]. intros _ w1.
  apply bind_ext; [|done].
  rewrite !collectOutputs_run by done.
  by rewrite (scanEvents_perm model _ _ Hperm),
             (matchedOutputs_perm model _ _ Hperm).
Qed.

(** X2. With well-formed patterns, the calls of [addToReport] made in a
    run are, in the traversal order of the outputs of type [T], one call
    per pattern the output matches: an output that matches [k] patterns is
    registered [k] times in a row, and one that matches none is not
    registered. *)
Theorem registered_once_per_matching_pattern
    {double T State : Type} `{!Platform double T State}
    (model : Model) (statesTable controlsTable : TimeSeriesTable_ double double)
    (outputPaths : list string)
    (discreteVariablesTable : TimeSeriesTable_ double double) :
  Forall (λ p, is_Some (std_regex p)) outputPaths →
  let w := (run_analyze model statesTable controlsTable outputPaths
              discreteVariablesTable).1 in
  registrations (trace w) =
  flat_map (λ o, replicate (matchCount outputPaths o) o)
           (List.filter hasTypeT (allOutputs model)).
Proof.
  intros Hwf.
  destruct (run_analyze _ _ _ _ _) as [w res] eqn:Hr. simpl.
  apply analyze_scan in Hr as (_ & late & -> & Hlate); [|done].
  pose proof (late_registrations late Hlate) as Hnone.
  pose proof (registrations_scanEvents (double:=double) model outputPaths)
    as Hscan.
  change ((InitSystem :: scanEvents model outputPaths) ++
          AddComponent :: InitSystem :: late)
    with ([InitSystem] ++ scanEvents model outputPaths ++
          [AddComponent; InitSystem] ++ late).
  unfold registrations in *. rewrite !omap_app, Hscan, Hnone. simpl.
  rewrite app_nil_r. apply matchedOutputs_replicate.
Qed.

(** X3. In a model that has no output, [std::regex] is never constructed:
    whatever the patterns, well formed or not, the run is the run without
    patterns. *)
Theorem patterns_unused_without_outputs
    {double T State : Type} `{!Platform double T State}
    (model : Model) (statesTable controlsTable : TimeSeriesTable_ double double)
    (outputPaths : list string)
    (discreteVariablesTable : TimeSeriesTable_ double double) :
  allOutputs model = [] →
  run_analyze model statesTable controlsTable outputPaths
    discreteVariablesTable =
  run_analyze model statesTable controlsTable [] discreteVariablesTable.
Proof.
  intros Hno. unfold run_analyze, analyze.
  apply bind_ext; [done|]. intros _ w1.
  apply bind_ext; [|done].
  by rewrite !collectOutputs_no_outputs.
Qed.

(** X4. In a model that has an output, the first pattern that is not a
    well-formed regular expression makes [analyze] throw
    [std::regex_error] while the first output is being matched: the
    patterns before it have been tried on that output, the reporter is not
    attached to the model, and nothing else has been called. *)
Theorem first_malformed_pattern_throws
    {double T State : Type} `{!Platform double T State}
    (model : Model) (statesTable controlsTable : TimeSeriesTable_ double double)
    (pre : list string) (p : string) (post : list string)
    (discreteVariablesTable : TimeSeriesTable_ double double)
    (o : Output) (os : list Output) :
  allOutputs model = o :: os →
  Forall (λ q, is_Some (std_regex q)) pre →
  std_regex p = None →
  ∃ w, run_analyze model statesTable controlsTable (pre ++ p :: post)
         discreteVariablesTable = (w, Err (RegexError p)) ∧
       trace w = InitSystem :: outputEvents pre o ∧
       attached (reporter w) = false ∧
       reported (reporter w) = [].
Proof.
  intros Hall Hwf Hp. unfold run_analyze, analyze.
  unfold initSystem. erewrite bind_Ok by apply emit_run.
  unfold bind at 1.
  rewrite (collectOutputs_malformed model o os) by done.
  eexists. split; [reflexivity|]. simpl. done.
Qed.

(** ** The controls vector (lines 265 and 311-320) *)

Section ControlsFacts.
Context {double T State : Type} `{!Platform double T State}.
Implicit Type w : World double T.
Local Abbreviation TimeSeriesTable := (TimeSeriesTable_ double double).

Lemma discrete_not_SetControls itime (ds : list (Event double)) i c :
  Forall (isDiscreteAt itime) ds → ¬ In (SetControls i c) ds.
Proof.
  intros Hds Hin. rewrite Forall_forall in Hds.
  by apply list_elem_of_In, Hds in Hin.
Qed.

Lemma setup_not_SetControls (evs : list (Event double)) i c :
  Forall isSetupEvent evs → ¬ In (SetControls i c) evs.
Proof.
  intros Hs Hin. rewrite Forall_forall in Hs.
  by apply list_elem_of_In, Hs in Hin.
Qed.

(** Every vector the loop over the samples writes is the vector of zeros
    with the row of its own sample written into it. *)
Lemma replay_controls model (ct : TimeSeriesTable) names cmap dvt refs
    (zeros : list double) traj :
  ∀ itime controls w w' r,
  replay model ct names cmap dvt refs itime traj controls w = (w', r) →
  agreeOffLabels cmap names controls zeros →
  ∀ i c, In (SetControls i c) (trace w') →
    In (SetControls i c) (trace w) ∨
    ∃ row, getRowAtIndex ct i = Ok row ∧
           injectControls cmap names row 0 zeros = Ok c.
Proof.
  induction traj as [|s traj IH]; intros itime controls w w' r Hr Hag i c Hin;
    simpl in Hr.
  - injection Hr as <- _. by left.
  - bind_inv Hr; [discriminate|]. apply emit_inv in Hc as [-> _].
    bind_inv Hr; [discriminate|]. apply emit_inv in Hc as [-> _].
    assert (In (SetControls i c)
              ((trace w ++ [StateAt itime]) ++ [Prescribe itime]) →
            In (SetControls i c) (trace w)) as Hearly.
    { rewrite !in_app_iff. simpl. intros [[?|[|[]]]|[|[]]]; done. }
    bind_inv Hr; [apply lift_inv in Hc as [-> _]; left; by apply Hearly|].
    apply lift_inv in Hc as [-> Hrow]. symmetry in Hrow.
    match type of Hrow with _ = Ok ?x => rename x into row end.
    bind_inv Hr; [apply lift_inv in Hc as [-> _]; left; by apply Hearly|].
    apply lift_inv in Hc as [-> Hinj]. symmetry in Hinj.
    match type of Hinj with _ = Ok ?x => rename x into controls' end.
    bind_inv Hr; [discriminate|]. apply emit_inv in Hc as [-> _].
    bind_inv Hr; [discriminate|]. apply emit_inv in Hc as [-> _].
    simpl in Hr.
    assert (injectControls cmap names row 0 zeros = Ok controls') as Hfresh.
    { by eapply injectControls_overwrites. }
    assert (∀ ds, Forall (isDiscreteAt itime) ds →
              In (SetControls i c)
                (((((trace w ++ [StateAt itime]) ++ [Prescribe itime]) ++
                    [RealizeVelocity itime]) ++
                    [SetControls itime controls']) ++ ds) →
              In (SetControls i c) (trace w) ∨
              ∃ row, getRowAtIndex ct i = Ok row ∧
                     injectControls cmap names row 0 zeros = Ok c) as Hmid.
    { intros ds Hds. rewrite !in_app_iff. simpl.
      intros [[[[[?|[|[]]]|[|[]]]|[|[]]]|[Heq|[]]]|Hd]; try done.
      - by left.
      - injection Heq as <- <-. right. by exists row.
      - by destruct (discrete_not_SetControls itime ds i c Hds). }
    bind_inv Hr.
    + apply applyDiscrete_shape in Hc as (ds & -> & Hds).
      by apply (Hmid ds).
    + apply applyDiscrete_shape in Hc as (ds & -> & Hds).
      bind_inv Hr; [discriminate|]. apply emit_inv in Hc as [-> _].
      bind_inv Hr; [discriminate|]. injection Hc as <- _. simpl in Hr.
      eapply IH in Hr; [| |exact Hin].
      * destruct Hr as [Hr|Hr]; [|by right]. simpl in Hr.
        apply in_app_or in Hr as [Hr|[|[]]]; [|done].
        by apply (Hmid ds).
      * eapply agreeOffLabels_trans; [|exact Hag].
        by eapply injectControls_agree.
Qed.

(** The same for a whole run. *)
Lemma analyze_controls model (st ct : TimeSeriesTable) outputPaths dvt
    w res i c :
  run_analyze model st ct outputPaths dvt = (w, res) →
  In (SetControls i c) (trace w) →
  ∃ cmap row,
    createSystemControlIndexMap model = Ok cmap ∧
    getRowAtIndex ct i = Ok row ∧
    injectControls cmap (getColumnLabels ct) row 0
      (replicate (getNumColumns ct) zero) = Ok c.
Proof.
  intros Hr Hin.
  apply analyze_any in Hr as (setup & Hsetup & Hcases).
  destruct Hcases as [(Ht & _)|
                      (traj & cmap & refs & w0 & r & _ & Hcmap & _ & Ht &
                       _ & _ & Hloop & _)].
  - rewrite Ht in Hin. by apply setup_not_SetControls in Hin.
  - eapply replay_controls in Hloop; [| |exact Hin].
    + destruct Hloop as [Hold|(row & Hrow & Hinj)].
      * rewrite Ht in Hold. by apply setup_not_SetControls in Hold.
      * by exists cmap, row.
    + apply agreeOffLabels_refl.
Qed.

Lemma replay_ext model (ct : TimeSeriesTable) names cmap dvt dvt' refs refs'
    traj :
  getNumColumns dvt = 0 → getNumColumns dvt' = 0 →
  ∀ itime controls w,
  replay model ct names cmap dvt refs itime traj controls w =
  replay model ct names cmap dvt' refs' itime traj controls w.
Proof.
  intros Hn Hn'.
  induction traj as [|s traj IH]; intros itime controls w; simpl; [done|].
  repeat (apply bind_ext; [done|]; intros ? ?).
  apply bind_ext.
  - unfold applyDiscrete. by rewrite Hn, Hn'.
  - intros ? ?. repeat (apply bind_ext; [done|]; intros ? ?). apply IH.
Qed.
End ControlsFacts.

(** X5. A discrete-variables table without columns is the absent table:
    whatever rows it has, they are not counted and not read. *)
Theorem columnless_discrete_table_is_ignored
    {double T State : Type} `{!Platform double T State}
    (model : Model) (statesTable controlsTable : TimeSeriesTable_ double double)
    (outputPaths : list string)
    (discreteVariablesTable : TimeSeriesTable_ double double) :
  getNumColumns discreteVariablesTable = 0 →
  run_analyze model statesTable controlsTable outputPaths
    discreteVariablesTable =
  run_analyze model statesTable controlsTable outputPaths emptyTable.
Proof.
  intros Hn. unfold run_analyze, analyze.
  repeat (apply bind_ext; [done|]; intros ? ?).
  apply bind_ext.
  { unfold resolveDiscreteComponents. by rewrite Hn. }
  intros refs w. apply bind_ext; [|done].
  by apply replay_ext.
Qed.

(** X6. The loop over the columns of a controls row completes exactly
    when the row has an entry for every column label and every label has a
    slot in the control-index map that lies inside the controls vector. *)
Theorem control_injection_completes_iff {double : Type}
    (controlMap : gmap string nat) (controlNames : list string)
    (controlsRow controls : list double) :
  is_Ok (injectControls controlMap controlNames controlsRow 0 controls) ↔
  length controlNames ≤ length controlsRow ∧
  Forall (slotWithin controlMap (length controls)) controlNames.
Proof.
  split.
  - destruct (injectControls _ _ _ _ _) as [c|] eqn:Hi; [|done]. intros _.
    apply injectControls_Ok_inv in Hi as [Hall Hrow]. split; [|done].
    destruct controlNames; simpl in *; [lia|]. by apply Hrow.
  - intros [Hrow Hall].
    destruct (injectControls_completes controlMap controlNames controlsRow
                0 controls) as [c ->]; done.
Qed.

(** X7. In every run, returning or throwing, each controls vector written
    into a state is the vector of zeros with the controls row of its own
    sample written into it, and has one element per column of the
    controls table: the vector is declared outside the loop over the
    samples and reused, but no value of an earlier sample survives in
    it. *)
Theorem controls_come_from_own_row
    {double T State : Type} `{!Platform double T State}
    (model : Model) (statesTable controlsTable : TimeSeriesTable_ double double)
    (outputPaths : list string)
    (discreteVariablesTable : TimeSeriesTable_ double double)
    (w : World double T) (res : result (TimeSeriesTable_ double T))
    (itime : nat) (controls : list double) :
  run_analyze model statesTable controlsTable outputPaths
    discreteVariablesTable = (w, res) →
  In (SetControls itime controls) (trace w) →
  ∃ controlMap controlsRow,
    createSystemControlIndexMap model = Ok controlMap ∧
    getRowAtIndex controlsTable itime = Ok controlsRow ∧
    injectControls controlMap (getColumnLabels controlsTable) controlsRow 0
      (replicate (getNumColumns controlsTable) zero) = Ok controls ∧
    length controls = getNumColumns controlsTable.
Proof.
  intros Hr Hin.
  destruct (analyze_controls _ _ _ _ _ _ _ _ _ Hr Hin)
    as (cmap & row & Hcmap & Hrow & Hinj).
  exists cmap, row. split_and!; [done..|].
  apply injectControls_length in Hinj. by rewrite length_replicate in Hinj.
Qed.

(** X8. With a controls table that has one entry per label in every row
    and labels with pairwise distinct slots, each controls vector written
    into a state is the row of its sample, rearranged: it has one element
    per column of the table, the element at the slot of a column label is
    the entry of that column in the row, and every element is the slot of
    a column, so that none is left at the 0.0 the vector was created
    with. *)
Theorem written_controls_hold_the_row
    {double T State : Type} `{!Platform double T State}
    (model : Model) (statesTable controlsTable : TimeSeriesTable_ double double)
    (outputPaths : list string)
    (discreteVariablesTable : TimeSeriesTable_ double double)
    (controlMap : gmap string nat)
    (w : World double T) (res : result (TimeSeriesTable_ double T))
    (itime : nat) (controls : list double) :
  wf_table controlsTable →
  createSystemControlIndexMap model = Ok controlMap →
  NoDup (omap (λ name, controlMap !! name) (getColumnLabels controlsTable)) →
  run_analyze model statesTable controlsTable outputPaths
    discreteVariablesTable = (w, res) →
  In (SetControls itime controls) (trace w) →
  length controls = getNumColumns controlsTable ∧
  (∀ j name, getColumnLabels controlsTable !! j = Some name →
     ∃ idx v, controlMap !! name = Some idx ∧
              entry controlsTable itime j = Some v ∧
              controls !! idx = Some v) ∧
  (∀ k, k < getNumColumns controlsTable →
        ∃ j name, getColumnLabels controlsTable !! j = Some name ∧
                  controlMap !! name = Some k).
Proof.
  intros [Hnd Hwid] Hcmap Hslots Hr Hin.
  apply (analyze_controls _ _ _ _ _ _ _ _ _ Hr) in Hin
    as (cmap & row & Hcmap' & Hrow & Hinj).
  rewrite Hcmap in Hcmap'. injection Hcmap' as <-.
  pose proof (injectControls_length _ _ _ _ _ _ Hinj) as Hlen.
  rewrite length_replicate in Hlen.
  pose proof (injectControls_resolves _ _ _ _ _ _ Hinj) as Hres.
  destruct (injectControls_writes _ _ _ _ _ _ Hnd
              (distinct_slots _ _ Hslots) Hinj) as [Hhit Hmiss].
  unfold getRowAtIndex in Hrow.
  destruct (getRows controlsTable !! itime) as [[t r]|] eqn:Hrow0; [|done].
  injection Hrow as <-. simpl in *.
  assert (length r = getNumColumns controlsTable) as Hr0.
  { rewrite Forall_forall in Hwid.
    by apply list_elem_of_lookup_2, Hwid in Hrow0. }
  split_and!.
  - done.
  - intros j name Hj. rewrite Forall_forall in Hres.
    destruct (Hres name) as [idx Hidx]; [by eapply list_elem_of_lookup_2|].
    destruct (r !! j) as [v|] eqn:Hv.
    + exists idx, v. split_and!; [done| |].
      * unfold entry. by rewrite Hrow0.
      * by rewrite (Hhit j name idx Hj Hidx).
    + apply lookup_ge_None in Hv. apply lookup_lt_Some in Hj.
      unfold getNumColumns in Hr0. lia.
  - apply slots_cover; [done| |done].
    apply injectControls_Ok_inv in Hinj as [Hall _].
    by rewrite length_replicate in Hall.
Qed.

(** ** What each sample contributes (lines 303-339) *)

(** X9. Without discrete variables, row [k] of the table [analyze]
    returns is computed from sample [k] alone: the state built from row
    [k] of the states table, after prescribed motion, realization to
    velocity, the controls of row [k] of the controls table and
    realization to report; the row holds the time of that state and the
    values of the registered outputs in it. *)
Theorem table_row_is_computed_from_its_sample
    {double T State : Type} `{!Platform double T State}
    (model : Model) (statesTable controlsTable : TimeSeriesTable_ double double)
    (outputPaths : list string)
    (discreteVariablesTable : TimeSeriesTable_ double double)
    (w : World double T) (table : TimeSeriesTable_ double T) :
  getNumColumns discreteVariablesTable = 0 →
  run_analyze model statesTable controlsTable outputPaths
    discreteVariablesTable = (w, Ok table) →
  ∃ statesTraj controlMap,
    createFromStatesTable model statesTable = Ok statesTraj ∧
    createSystemControlIndexMap model = Ok controlMap ∧
    getNumRows table = length statesTraj ∧
    ∀ k s, statesTraj !! k = Some s →
      ∃ controlsRow controls,
        getRowAtIndex controlsTable k = Ok controlsRow ∧
        injectControls controlMap (getColumnLabels controlsTable)
          controlsRow 0 (replicate (getNumColumns controlsTable) zero) =
          Ok controls ∧
        getRows table !! k =
          Some (getTime (reportedState model s controls),
                map (λ o, getValue o (reportedState model s controls))
                    (matchedOutputs model outputPaths)).
Proof.
  intros Hn Hr.
  apply analyze_samples in Hr
    as (traj & cmap & refs & w0 & per & rows & Htraj & Hcmap & _ & _ & -> &
        _ & Hrows & Hk).
  exists traj, cmap. split_and!; [done..|].
  intros k s Hs.
  apply Hk in Hs as (row & c & wk & wk' & sd & ds & Hrow & Hinj & Hdisc &
                     _ & _ & Hrowk).
  exists row, c. split_and!; [done..|].
  unfold applyDiscrete in Hdisc. rewrite Hn in Hdisc. simpl in Hdisc.
  injection Hdisc as _ <-. done.
Qed.

(** X10. In a run that returns a table, with distinct labels in the
    discrete-variables table, the calls of [setDiscreteVariableValue] at
    sample [k] are one per column, in column order: on the component
    [model.getComponent] returns for the parent path of the label, for
    the variable named by the last element of the label, with the entry of
    that column in row [k]. *)
Theorem discrete_variables_set_from_own_row
    {double T State : Type} `{!Platform double T State}
    (model : Model) (statesTable controlsTable : TimeSeriesTable_ double double)
    (outputPaths : list string)
    (discreteVariablesTable : TimeSeriesTable_ double double)
    (w : World double T) (table : TimeSeriesTable_ double T) :
  NoDup (getColumnLabels discreteVariablesTable) →
  run_analyze model statesTable controlsTable outputPaths
    discreteVariablesTable = (w, Ok table) →
  ∃ samples,
    trace w = (InitSystem :: scanEvents model outputPaths ++
               [AddComponent; InitSystem]) ++ concat samples ∧
    length samples = getNumRows statesTable ∧
    ∀ k calls, samples !! k = Some calls →
      ∃ controls discretes,
        calls = [StateAt k; Prescribe k; RealizeVelocity k;
                 SetControls k controls] ++ discretes ++ [RealizeReport k] ∧
        length discretes = getNumColumns discreteVariablesTable ∧
        ∀ j label, getColumnLabels discreteVariablesTable !! j = Some label →
          ∃ component v,
            getComponent model (getParentPathString label) = Ok component ∧
            entry discreteVariablesTable k j = Some v ∧
            discretes !! j =
              Some (SetDiscreteVariableValue k
                      (getAbsolutePathString component)
                      (getComponentName label) v).
Proof.
  intros Hnd Hr.
  apply analyze_samples in Hr
    as (traj & cmap & refs & w0 & per & rows & Htraj & Hcmap & Hrefs & Ht &
        _ & Hper & _ & Hk).
  exists per. split_and!; [done| |].
  { apply createFromStatesTable_size in Htraj. congruence. }
  intros k calls Hcalls.
  destruct (traj !! k) as [s|] eqn:Hs.
  2: { apply lookup_ge_None in Hs. apply lookup_lt_Some in Hcalls. lia. }
  apply Hk in Hs as (row & c & wk & wk' & sd & ds & _ & _ & Hdisc & Hds &
                     Hperk & _).
  rewrite Hperk in Hcalls. injection Hcalls as <-.
  exists c, ds. split; [done|].
  unfold applyDiscrete in Hdisc.
  destruct (getNumColumns discreteVariablesTable =? 0) eqn:Hn.
  - apply Nat.eqb_eq in Hn. injection Hdisc as <- _.
    assert (ds = []) as ->.
    { apply (app_inv_head (trace wk)). by rewrite app_nil_r. }
    split; [done|]. intros j label Hj. apply lookup_lt_Some in Hj.
    unfold getNumColumns in Hn. lia.
  - apply Nat.eqb_neq in Hn.
    apply resolveDiscreteComponents_refs in Hrefs; [|done].
    apply applyDiscreteFrom_calls in Hdisc as (ds' & Hds' & Hlen & Hcall).
    assert (ds' = ds) as ->.
    { apply (app_inv_head (trace wk)). congruence. }
    split; [done|]. intros j label Hj.
    destruct (Hcall j label Hj) as (col & ref & v & Hcol & Href & Hv & Hev).
    simpl in Href.
    destruct (Forall2_lookup_lr _ _ _ j label ref Hrefs Hj Href)
      as (Hname & _ & Hcomp).
    exists ref.2, v. split_and!.
    + done.
    + eapply getDependentColumn_lookup; [|done..].
      by apply columnIndex_NoDup.
    + by rewrite Hev, Hname.
Qed.

(** ** The checks before the loop over the samples (lines 258-285) *)

(** X11. When the steps before the checks complete, the row counts are
    checked states against controls first, then discrete variables
    against states, and the exception carries the two counts in that
    order.  By then the scan has run in full, the reporter is attached to
    the model and the system has been initialized a second time; no
    sample has been processed. *)
Theorem row_counts_checked_in_order
    {double T State : Type} `{!Platform double T State}
    (model : Model) (statesTable controlsTable : TimeSeriesTable_ double double)
    (outputPaths : list string)
    (discreteVariablesTable : TimeSeriesTable_ double double) :
  Forall (λ p, is_Some (std_regex p)) outputPaths →
  is_Ok (createFromStatesTable model statesTable) →
  is_Ok (createSystemControlIndexMap model) →
  let run := run_analyze model statesTable controlsTable outputPaths
               discreteVariablesTable in
  (getNumRows statesTable ≠ getNumRows controlsTable →
   run.2 = Err (RowCountMismatch StatesVsControls
                  (getNumRows statesTable) (getNumRows controlsTable))) ∧
  (getNumRows statesTable = getNumRows controlsTable →
   getNumColumns discreteVariablesTable ≠ 0 →
   getNumRows discreteVariablesTable ≠ getNumRows statesTable →
   run.2 = Err (RowCountMismatch DiscreteVsStates
                  (getNumRows discreteVariablesTable)
                  (getNumRows statesTable))) ∧
  (getNumRows statesTable ≠ getNumRows controlsTable ∨
   (getNumColumns discreteVariablesTable ≠ 0 ∧
    getNumRows discreteVariablesTable ≠ getNumRows statesTable) →
   trace run.1 = InitSystem :: scanEvents model outputPaths ++
                 [AddComponent; InitSystem] ∧
   reporter run.1 = mkReporter (matchedOutputs model outputPaths) true []).
Proof.
  intros Hwf Htraj Hcmap.
  destruct (createFromStatesTable model statesTable) as [traj|] eqn:Et;
    [|done].
  destruct (createSystemControlIndexMap model) as [cmap|] eqn:Ec; [|done].
  destruct (analyze_reaches_checks model statesTable controlsTable
              outputPaths discreteVariablesTable traj cmap Hwf Et Ec)
    as (w0 & Hrun & Ht & Hrep).
  simpl. rewrite Hrun. clear Hrun.
  unfold bind at 1 3 5. unfold OPENSIM_THROW_IF at 1 2 3.
  destruct (getNumRows statesTable =? getNumRows controlsTable) eqn:Hsc;
    simpl.
  - apply Nat.eqb_eq in Hsc.
    unfold bind at 1 3 5. unfold resolveDiscreteComponents.
    destruct (getNumColumns discreteVariablesTable =? 0) eqn:Hcols.
    + apply Nat.eqb_eq in Hcols. split_and!; [done|done|].
      intros [?|[? _]]; done.
    + unfold bind at 1 3 5. unfold OPENSIM_THROW_IF.
      destruct (getNumRows discreteVariablesTable =? getNumRows statesTable)
        eqn:Hds; simpl.
      * apply Nat.eqb_eq in Hds. split_and!; [done|done|].
        intros [?|[_ ?]]; done.
      * split_and!; [done|done|done].
  - apply Nat.eqb_neq in Hsc. split_and!; [done|done|done].
Qed.

(** X12. What [StatesTrajectory::createFromStatesTable] and
    [createSystemControlIndexMap] throw leaves [analyze] unchanged, and
    before any row count is compared: with well-formed patterns, a states
    table that cannot be read, or else actuators that are not in the
    order of the controls, decide the exception whatever the tables'
    row counts are. *)
Theorem collaborator_failures_come_first
    {double T State : Type} `{!Platform double T State}
    (model : Model) (statesTable controlsTable : TimeSeriesTable_ double double)
    (outputPaths : list string)
    (discreteVariablesTable : TimeSeriesTable_ double double) :
  Forall (λ p, is_Some (std_regex p)) outputPaths →
  let run := run_analyze model statesTable controlsTable outputPaths
               discreteVariablesTable in
  (∀ e, createFromStatesTable model statesTable = Err e → run.2 = Err e) ∧
  (∀ e, is_Ok (createFromStatesTable model statesTable) →
        createSystemControlIndexMap model = Err e → run.2 = Err e).
Proof.
  intros Hwf. simpl. unfold run_analyze, analyze, initSystem.
  erewrite bind_Ok by apply emit_run.
  erewrite bind_Ok by (by apply collectOutputs_run).
  erewrite bind_Ok by reflexivity.
  erewrite bind_Ok by apply emit_run.
  split.
  - intros e ->. done.
  - intros e Hok ->.
    destruct (createFromStatesTable model statesTable); done.
Qed.

(** ** Times *)

Section TimesFacts.
Context {double T State : Type} `{!Platform double T State}.
Implicit Type w : World double T.
Local Abbreviation TimeSeriesTable := (TimeSeriesTable_ double double).

Lemma sameEntries_getNumRows {V} (t t' : TimeSeriesTable_ double V) :
  sameEntries t t' → getNumRows t = getNumRows t'.
Proof.
  intros [_ Hrows]. unfold getNumRows.
  by rewrite <- (length_fmap snd (getRows t)), Hrows, length_fmap.
Qed.

Lemma sameEntries_getNumColumns {V} (t t' : TimeSeriesTable_ double V) :
  sameEntries t t' → getNumColumns t = getNumColumns t'.
Proof. intros [Hl _]. unfold getNumColumns. by rewrite Hl. Qed.

Lemma sameEntries_getRowAtIndex {V} (t t' : TimeSeriesTable_ double V) i :
  sameEntries t t' → getRowAtIndex t i = getRowAtIndex t' i.
Proof.
  intros Hs. pose proof (sameEntries_getNumRows _ _ Hs) as Hn.
  destruct Hs as [_ Hrows]. unfold getRowAtIndex. rewrite Hn.
  assert (snd <$> getRows t !! i = snd <$> getRows t' !! i) as Hi.
  { by rewrite <- !list_lookup_fmap, Hrows. }
  destruct (getRows t !! i), (getRows t' !! i); simpl in Hi;
    [congruence|discriminate|discriminate|done].
Qed.

Lemma sameEntries_getDependentColumn {V} (t t' : TimeSeriesTable_ double V)
    label :
  sameEntries t t' → getDependentColumn t label = getDependentColumn t' label.
Proof.
  intros [Hl Hrows]. unfold getDependentColumn. rewrite Hl.
  destruct (columnIndex _ _) as [j|]; [|done]. f_equal.
  revert Hrows. generalize (getRows t'). 
  induction (getRows t) as [|r rows IH]; intros [|r' rows']; simpl;
    intros [=]; [done|].
  f_equal; [congruence|by apply IH].
Qed.

Lemma applyDiscreteFrom_sameEntries (dvt dvt' : TimeSeriesTable) refs itime
    labels :
  sameEntries dvt dvt' →
  ∀ idv state w,
  applyDiscreteFrom dvt refs itime idv labels state w =
  applyDiscreteFrom dvt' refs itime idv labels state w.
Proof.
  intros Hs. induction labels as [|label labels IH]; intros idv state w;
    simpl; [done|].
  rewrite (sameEntries_getDependentColumn _ _ label Hs).
  repeat (apply bind_ext; [done|]; intros ? ?). apply IH.
Qed.

Lemma replay_sameEntries model (ct ct' : TimeSeriesTable) names cmap
    (dvt dvt' : TimeSeriesTable) refs traj :
  sameEntries ct ct' → sameEntries dvt dvt' →
  ∀ itime controls w,
  replay model ct names cmap dvt refs itime traj controls w =
  replay model ct' names cmap dvt' refs itime traj controls w.
Proof.
  intros Hc Hd.
  induction traj as [|s traj IH]; intros itime controls w; simpl; [done|].
  rewrite (sameEntries_getRowAtIndex _ _ itime Hc).
  repeat (apply bind_ext; [done|]; intros ? ?).
  apply bind_ext.
  - unfold applyDiscrete.
    rewrite (sameEntries_getNumColumns _ _ Hd), (proj1 Hd).
    destruct (_ =? _); [done|]. by apply applyDiscreteFrom_sameEntries.
  - intros ? ?. repeat (apply bind_ext; [done|]; intros ? ?). apply IH.
Qed.
End TimesFacts.

(** X14. The rows of the controls table and of the discrete-variables
    table are taken by their index, never by their time: two runs on
    tables with the same labels and the same entries, whatever the times
    of their rows, are the same run.  The alignment of the time points
    with those of the states table is assumed, not checked. *)
Theorem times_of_controls_and_discretes_are_not_read
    {double T State : Type} `{!Platform double T State}
    (model : Model)
    (statesTable controlsTable controlsTable' : TimeSeriesTable_ double double)
    (outputPaths : list string)
    (discreteVariablesTable discreteVariablesTable'
       : TimeSeriesTable_ double double) :
  sameEntries controlsTable controlsTable' →
  sameEntries discreteVariablesTable discreteVariablesTable' →
  run_analyze model statesTable controlsTable outputPaths
    discreteVariablesTable =
  run_analyze model statesTable controlsTable' outputPaths
    discreteVariablesTable'.
Proof.
  intros Hc Hd. unfold run_analyze, analyze.
  rewrite (sameEntries_getNumRows _ _ Hc), (sameEntries_getNumColumns _ _ Hc),
    (proj1 Hc).
  repeat (apply bind_ext; [done|]; intros ? ?).
  apply bind_ext.
  { unfold resolveDiscreteComponents.
    by rewrite (sameEntries_getNumRows _ _ Hd),
      (sameEntries_getNumColumns _ _ Hd), (proj1 Hd). }
  intros refs w. apply bind_ext; [|done].
  by apply replay_sameEntries.
Qed.

(** ** Validation comes before the first sample *)

Section ValidationFacts.
Context {double T State : Type} `{!Platform double T State}.
Implicit Type w : World double T.
Local Abbreviation TimeSeriesTable := (TimeSeriesTable_ double double).

Lemma setup_not_StateAt (evs : list (Event double)) i :
  Forall isSetupEvent evs → ¬ In (StateAt i) evs.
Proof.
  intros Hs Hin. rewrite Forall_forall in Hs.
  by apply list_elem_of_In, Hs in Hin.
Qed.

(** A run in which a state of the trajectory was taken went through
    every step before the loop over the samples. *)
Lemma analyze_reaches_loop model (st ct : TimeSeriesTable) outputPaths dvt
    w res i :
  run_analyze model st ct outputPaths dvt = (w, res) →
  In (StateAt i) (trace w) →
  ∃ w1 w2 traj cmap refs,
    collectOutputs model outputPaths
      (mkWorld [InitSystem] (mkReporter [] false [])) = (w1, Ok tt) ∧
    createFromStatesTable model st = Ok traj ∧
    createSystemControlIndexMap model = Ok cmap ∧
    getNumRows st = getNumRows ct ∧
    resolveDiscreteComponents model st dvt w2 = (w2, Ok refs).
Proof.
  unfold run_analyze, analyze. intros Hr Hin.
  bind_inv Hr; [discriminate|]. apply emit_inv in Hc as [-> _].
  assert (∀ w1 r1,
            collectOutputs model outputPaths
              (mkWorld ([] ++ [InitSystem]) (reporter initialWorld)) =
              (w1, r1) →
            Forall isSetupEvent (trace w1) ∧
            Forall isSetupEvent (trace w1 ++ [AddComponent; InitSystem]))
    as Hscan.
  { intros w1 r1 Hc.
    apply collectOutputs_grows in Hc as (scan & Ht & Hscan & _).
    simpl in Ht. rewrite Ht.
    assert (Forall isSetupEvent (InitSystem :: scan)) as Hsetup.
    { constructor; [done|]. eapply Forall_impl; [done|]. by intros []. }
    split; [done|]. apply Forall_app. split; [done|]. by repeat constructor. }
  bind_inv Hr.
  { apply Hscan in Hc as [Hsetup _]. by apply setup_not_StateAt in Hin. }
  repeat match goal with u : unit |- _ => destruct u end.
  pose proof Hc as Hcollect. apply Hscan in Hc as [_ Hsetup]. clear Hscan.
  bind_inv Hr; [discriminate|]. injection Hc as <- _.
  bind_inv Hr; [discriminate|]. apply emit_inv in Hc as [-> _].
  simpl in Hr. rewrite <- app_assoc in Hr. simpl in Hr.
  bind_inv Hr.
  { apply lift_inv in Hc as [-> _]. by apply setup_not_StateAt in Hin. }
  apply lift_inv in Hc as [-> Htraj].
  bind_inv Hr.
  { apply lift_inv in Hc as [-> _]. by apply setup_not_StateAt in Hin. }
  apply lift_inv in Hc as [-> Hcmap].
  bind_inv Hr.
  { apply THROW_IF_inv in Hc as ->. by apply setup_not_StateAt in Hin. }
  repeat match goal with u : unit |- _ => destruct u end.
  apply THROW_IF_Ok in Hc as [Hsame ->].
  apply negb_false_iff, Nat.eqb_eq in Hsame.
  bind_inv Hr.
  { apply resolveDiscreteComponents_inv in Hc as ->.
    by apply setup_not_StateAt in Hin. }
  pose proof Hc as Hrefs. apply resolveDiscreteComponents_inv in Hc as ->.
  eexists _, _, _, _, _. split_and!; [exact Hcollect|done|done|done|].
  exact Hrefs.
Qed.
End ValidationFacts.

(** X16. No sample is processed before every check has passed: in a run
    in which a state of the trajectory is taken, the scan of the outputs
    has completed (the model has no output or every pattern is well
    formed), the states trajectory and the control-index map have been
    built, the states and controls tables have the same number of rows,
    and, when there are discrete variables, their table has that number
    of rows too and the component of every one of them has been found. *)
Theorem no_sample_before_validation
    {double T State : Type} `{!Platform double T State}
    (model : Model) (statesTable controlsTable : TimeSeriesTable_ double double)
    (outputPaths : list string)
    (discreteVariablesTable : TimeSeriesTable_ double double)
    (w : World double T) (res : result (TimeSeriesTable_ double T))
    (itime : nat) :
  run_analyze model statesTable controlsTable outputPaths
    discreteVariablesTable = (w, res) →
  In (StateAt itime) (trace w) →
  (allOutputs model = [] ∨
   Forall (λ p, is_Some (std_regex p)) outputPaths) ∧
  is_Ok (createFromStatesTable model statesTable) ∧
  is_Ok (createSystemControlIndexMap model) ∧
  getNumRows statesTable = getNumRows controlsTable ∧
  (getNumColumns discreteVariablesTable ≠ 0 →
   getNumRows discreteVariablesTable = getNumRows statesTable ∧
   Forall (λ label, is_Ok (getComponent model (getParentPathString label)))
          (getColumnLabels discreteVariablesTable)).
Proof.
  intros Hr Hin.
  apply (analyze_reaches_loop _ _ _ _ _ _ _ _ Hr) in Hin
    as (w1 & w2 & traj & cmap & refs & Hscan & Htraj & Hcmap & Hrows & Hrefs).
  split_and!.
  - eapply collectOutputs_completes. by eexists.
  - by rewrite Htraj.
  - by rewrite Hcmap.
  - done.
  - intros Hn. split; [by eapply resolveDiscreteComponents_Ok|].
    apply resolveDiscreteComponents_refs in Hrefs; [|done].
    induction Hrefs as [|label ref labels refs' (_ & _ & Hcomp) _ IH];
      constructor; [by rewrite Hcomp|done].
Qed.

(** * The further properties at work on the pendulum *)

Lemma pattern_order_is_irrelevant_witness :
  Forall (λ p, is_Some (std_regex (Platform:=Pendulum.doubles) p))
    [".*joint_angle"; ".*actuation"] ∧
  Permutation [".*joint_angle"; ".*actuation"]
              [".*actuation"; ".*joint_angle"] ∧
  run_analyze (Platform0:=Pendulum.doubles) Pendulum.model
    Pendulum.statesTable Pendulum.controlsTable
    [".*joint_angle"; ".*actuation"] Pendulum.discreteTable =
  run_analyze (Platform0:=Pendulum.doubles) Pendulum.model
    Pendulum.statesTable Pendulum.controlsTable
    [".*actuation"; ".*joint_angle"] Pendulum.discreteTable.
Proof.
  assert (Forall (λ p, is_Some (std_regex (Platform:=Pendulum.doubles) p))
            [".*joint_angle"; ".*actuation"]) as Hwf.
  { repeat constructor; eexists; by vm_compute. }
  assert (Permutation [".*joint_angle"; ".*actuation"]
                      [".*actuation"; ".*joint_angle"]) as Hperm
    by apply perm_swap.
  split; [exact Hwf|]. split; [exact Hperm|].
  exact (pattern_order_is_irrelevant (Platform0:=Pendulum.doubles)
           _ _ _ _ _ _ Hwf Hperm).
Defined.

Lemma registered_once_per_matching_pattern_witness :
  Forall (λ p, is_Some (std_regex (Platform:=Pendulum.doubles) p))
    [".*"; ".*actuation"; ".*reaction_on_parent"] ∧
  let w := (run_analyze (Platform0:=Pendulum.doubles) Pendulum.model
              Pendulum.statesTable Pendulum.controlsTable
              [".*"; ".*actuation"; ".*reaction_on_parent"] emptyTable).1 in
  registrations (trace w) =
  flat_map (λ o, replicate
                   (matchCount (Platform0:=Pendulum.doubles)
                      [".*"; ".*actuation"; ".*reaction_on_parent"] o) o)
           (List.filter (hasTypeT (Platform0:=Pendulum.doubles))
              (allOutputs Pendulum.model)) ∧
  registrations (trace w) =
    [Pendulum.jointAngle; Pendulum.actuation; Pendulum.actuation].
Proof.
  assert (Forall (λ p, is_Some (std_regex (Platform:=Pendulum.doubles) p))
            [".*"; ".*actuation"; ".*reaction_on_parent"]) as Hwf.
  { repeat constructor; eexists; by vm_compute. }
  split; [exact Hwf|]. intros w. split.
  - exact (registered_once_per_matching_pattern (Platform0:=Pendulum.doubles)
             Pendulum.model Pendulum.statesTable Pendulum.controlsTable
             _ emptyTable Hwf).
  - by vm_compute.
Defined.

Lemma patterns_unused_without_outputs_witness :
  allOutputs Pendulum.ball = [] ∧
  std_regex (Platform:=Pendulum.doubles) "(" = None ∧
  run_analyze (Platform0:=Pendulum.doubles) Pendulum.ball
    Pendulum.statesTable Pendulum.restControls ["("] emptyTable =
  run_analyze (Platform0:=Pendulum.doubles) Pendulum.ball
    Pendulum.statesTable Pendulum.restControls [] emptyTable.
Proof.
  assert (allOutputs Pendulum.ball = []) as Hno by reflexivity.
  split; [exact Hno|]. split; [by vm_compute|].
  exact (patterns_unused_without_outputs (Platform0:=Pendulum.doubles)
           _ _ _ _ _ Hno).
Defined.

Lemma first_malformed_pattern_throws_witness :
  allOutputs Pendulum.model =
    Pendulum.jointAngle ::
    [Pendulum.reaction; Pendulum.actuation; Pendulum.rodAcceleration] ∧
  Forall (λ q, is_Some (std_regex (Platform:=Pendulum.doubles) q))
    [".*joint_angle"] ∧
  std_regex (Platform:=Pendulum.doubles) "(" = None ∧
  ∃ w, run_analyze (Platform0:=Pendulum.doubles) Pendulum.model
         Pendulum.statesTable Pendulum.controlsTable
         ([".*joint_angle"] ++ "(" :: [".*actuation"]) emptyTable =
         (w, Err (RegexError "(")) ∧
       trace w = InitSystem ::
                 outputEvents (Platform0:=Pendulum.doubles)
                   [".*joint_angle"] Pendulum.jointAngle ∧
       attached (reporter w) = false ∧
       reported (reporter w) = [].
Proof.
  assert (allOutputs Pendulum.model =
            Pendulum.jointAngle ::
            [Pendulum.reaction; Pendulum.actuation;
             Pendulum.rodAcceleration]) as Hall by reflexivity.
  assert (Forall (λ q, is_Some (std_regex (Platform:=Pendulum.doubles) q))
            [".*joint_angle"]) as Hwf.
  { repeat constructor; eexists; by vm_compute. }
  assert (std_regex (Platform:=Pendulum.doubles) "(" = None) as Hbad
    by (by vm_compute).
  split; [exact Hall|]. split; [exact Hwf|]. split; [exact Hbad|].
  exact (first_malformed_pattern_throws (Platform0:=Pendulum.doubles)
           Pendulum.model Pendulum.statesTable Pendulum.controlsTable
           [".*joint_angle"] "(" [".*actuation"] emptyTable
           _ _ Hall Hwf Hbad).
Defined.

Lemma columnless_discrete_table_is_ignored_witness :
  getNumColumns PendulumRuns.columnless = 0 ∧
  getNumRows PendulumRuns.columnless ≠ getNumRows Pendulum.statesTable ∧
  run_analyze (Platform0:=Pendulum.doubles) Pendulum.model
    Pendulum.statesTable Pendulum.controlsTable [".*joint_angle"]
    PendulumRuns.columnless =
  run_analyze (Platform0:=Pendulum.doubles) Pendulum.model
    Pendulum.statesTable Pendulum.controlsTable [".*joint_angle"]
    emptyTable.
Proof.
  assert (getNumColumns PendulumRuns.columnless = 0) as Hn by reflexivity.
  split; [exact Hn|]. split; [by vm_compute|].
  exact (columnless_discrete_table_is_ignored (Platform0:=Pendulum.doubles)
           _ _ _ _ _ Hn).
Defined.

Lemma controls_come_from_own_row_witness :
  run_analyze (Platform0:=Pendulum.doubles) Pendulum.model
    Pendulum.statesTable Pendulum.controlsTable [".*joint_angle"]
    Pendulum.discreteTable = (Pendulum.world1, Ok Pendulum.table1) ∧
  In (SetControls 1 [8%Q; 6%Q]) (trace Pendulum.world1) ∧
  ∃ controlMap controlsRow,
    createSystemControlIndexMap Pendulum.model = Ok controlMap ∧
    getRowAtIndex Pendulum.controlsTable 1 = Ok controlsRow ∧
    injectControls controlMap (getColumnLabels Pendulum.controlsTable)
      controlsRow 0
      (replicate (getNumColumns Pendulum.controlsTable)
         (zero (Platform:=Pendulum.doubles))) = Ok [8%Q; 6%Q] ∧
    length [8%Q; 6%Q] = getNumColumns Pendulum.controlsTable.
Proof.
  assert (run_analyze (Platform0:=Pendulum.doubles) Pendulum.model
            Pendulum.statesTable Pendulum.controlsTable [".*joint_angle"]
            Pendulum.discreteTable = (Pendulum.world1, Ok Pendulum.table1))
    as Hrun by (by vm_compute).
  assert (In (SetControls 1 [8%Q; 6%Q]) (trace Pendulum.world1)) as Hin.
  { vm_compute. tauto. }
  split; [exact Hrun|]. split; [exact Hin|].
  exact (controls_come_from_own_row (Platform0:=Pendulum.doubles)
           _ _ _ _ _ _ _ _ _ Hrun Hin).
Defined.

Lemma written_controls_hold_the_row_witness :
  let cmap : gmap string nat :=
    <["/forceset/brake" := 1]> (<["/forceset/motor" := 0]> ∅) in
  wf_table Pendulum.controlsTable ∧
  createSystemControlIndexMap Pendulum.model = Ok cmap ∧
  NoDup (omap (λ name, cmap !! name)
           (getColumnLabels Pendulum.controlsTable)) ∧
  run_analyze (Platform0:=Pendulum.doubles) Pendulum.model
    Pendulum.statesTable Pendulum.controlsTable [".*joint_angle"]
    Pendulum.discreteTable = (Pendulum.world1, Ok Pendulum.table1) ∧
  In (SetControls 1 [8%Q; 6%Q]) (trace Pendulum.world1) ∧
  length [8%Q; 6%Q] = getNumColumns Pendulum.controlsTable ∧
  (∀ j name, getColumnLabels Pendulum.controlsTable !! j = Some name →
     ∃ idx v, cmap !! name = Some idx ∧
              entry Pendulum.controlsTable 1 j = Some v ∧
              [8%Q; 6%Q] !! idx = Some v) ∧
  (∀ k, k < getNumColumns Pendulum.controlsTable →
        ∃ j name, getColumnLabels Pendulum.controlsTable !! j = Some name ∧
                  cmap !! name = Some k).
Proof.
  intros cmap.
  assert (wf_table Pendulum.controlsTable) as Hwf.
  { split; [apply (bool_decide_unpack _); by vm_compute|].
    by repeat constructor. }
  assert (createSystemControlIndexMap Pendulum.model = Ok cmap) as Hcmap
    by (by vm_compute).
  assert (NoDup (omap (λ name, cmap !! name)
                   (getColumnLabels Pendulum.controlsTable))) as Hslots.
  { apply (bool_decide_unpack _). by vm_compute. }
  assert (run_analyze (Platform0:=Pendulum.doubles) Pendulum.model
            Pendulum.statesTable Pendulum.controlsTable [".*joint_angle"]
            Pendulum.discreteTable = (Pendulum.world1, Ok Pendulum.table1))
    as Hrun by (by vm_compute).
  assert (In (SetControls 1 [8%Q; 6%Q]) (trace Pendulum.world1)) as Hin.
  { vm_compute. tauto. }
  split; [exact Hwf|]. split; [exact Hcmap|]. split; [exact Hslots|].
  split; [exact Hrun|]. split; [exact Hin|].
  exact (written_controls_hold_the_row (Platform0:=Pendulum.doubles)
           _ _ _ _ _ _ _ _ _ _ Hwf Hcmap Hslots Hrun Hin).
Defined.

Lemma table_row_is_computed_from_its_sample_witness :
  getNumColumns (emptyTable (double:=Q) (V:=Q)) = 0 ∧
  run_analyze (Platform0:=Pendulum.doubles) Pendulum.model
    Pendulum.statesTable Pendulum.controlsTable [".*joint_angle"]
    emptyTable = (PendulumRuns.world2, Ok PendulumRuns.table2) ∧
  ∃ statesTraj controlMap,
    createFromStatesTable (Platform0:=Pendulum.doubles) Pendulum.model
      Pendulum.statesTable = Ok statesTraj ∧
    createSystemControlIndexMap Pendulum.model = Ok controlMap ∧
    getNumRows PendulumRuns.table2 = length statesTraj ∧
    ∀ k s, statesTraj !! k = Some s →
      ∃ controlsRow controls,
        getRowAtIndex Pendulum.controlsTable k = Ok controlsRow ∧
        injectControls controlMap (getColumnLabels Pendulum.controlsTable)
          controlsRow 0
          (replicate (getNumColumns Pendulum.controlsTable)
             (zero (Platform:=Pendulum.doubles))) = Ok controls ∧
        getRows PendulumRuns.table2 !! k =
          Some (getTime (Platform:=Pendulum.doubles)
                  (reportedState (Platform0:=Pendulum.doubles)
                     Pendulum.model s controls),
                map (λ o, getValue (Platform:=Pendulum.doubles) o
                            (reportedState (Platform0:=Pendulum.doubles)
                               Pendulum.model s controls))
                    (matchedOutputs (Platform0:=Pendulum.doubles)
                       Pendulum.model [".*joint_angle"])).
Proof.
  assert (getNumColumns (emptyTable (double:=Q) (V:=Q)) = 0) as Hn
    by reflexivity.
  assert (run_analyze (Platform0:=Pendulum.doubles) Pendulum.model
            Pendulum.statesTable Pendulum.controlsTable [".*joint_angle"]
            emptyTable = (PendulumRuns.world2, Ok PendulumRuns.table2))
    as Hrun by (by vm_compute).
  split; [exact Hn|]. split; [exact Hrun|].
  exact (table_row_is_computed_from_its_sample (Platform0:=Pendulum.doubles)
           _ _ _ _ _ _ _ Hn Hrun).
Defined.

Lemma discrete_variables_set_from_own_row_witness :
  NoDup (getColumnLabels Pendulum.discreteTable) ∧
  run_analyze (Platform0:=Pendulum.doubles) Pendulum.model
    Pendulum.statesTable Pendulum.controlsTable [".*joint_angle"]
    Pendulum.discreteTable = (Pendulum.world1, Ok Pendulum.table1) ∧
  ∃ samples,
    trace Pendulum.world1 =
      (InitSystem ::
       scanEvents (Platform0:=Pendulum.doubles) Pendulum.model
         [".*joint_angle"] ++ [AddComponent; InitSystem]) ++
      concat samples ∧
    length samples = getNumRows Pendulum.statesTable ∧
    ∀ k calls, samples !! k = Some calls →
      ∃ controls discretes,
        calls = [StateAt k; Prescribe k; RealizeVelocity k;
                 SetControls k controls] ++ discretes ++ [RealizeReport k] ∧
        length discretes = getNumColumns Pendulum.discreteTable ∧
        ∀ j label, getColumnLabels Pendulum.discreteTable !! j = Some label →
          ∃ component v,
            getComponent Pendulum.model (getParentPathString label) =
              Ok component ∧
            entry Pendulum.discreteTable k j = Some v ∧
            discretes !! j =
              Some (SetDiscreteVariableValue k
                      (getAbsolutePathString component)
                      (getComponentName label) v).
Proof.
  assert (NoDup (getColumnLabels Pendulum.discreteTable)) as Hnd.
  { apply (bool_decide_unpack _). by vm_compute. }
  assert (run_analyze (Platform0:=Pendulum.doubles) Pendulum.model
            Pendulum.statesTable Pendulum.controlsTable [".*joint_angle"]
            Pendulum.discreteTable = (Pendulum.world1, Ok Pendulum.table1))
    as Hrun by (by vm_compute).
  split; [exact Hnd|]. split; [exact Hrun|].
  exact (discrete_variables_set_from_own_row (Platform0:=Pendulum.doubles)
           _ _ _ _ _ _ _ Hnd Hrun).
Defined.

Lemma row_counts_checked_in_order_witness :
  let run := run_analyze (Platform0:=Pendulum.doubles) Pendulum.model
               Pendulum.statesTable Pendulum.controlsTable3
               [".*joint_angle"] Pendulum.discreteTable1 in
  Forall (λ p, is_Some (std_regex (Platform:=Pendulum.doubles) p))
    [".*joint_angle"] ∧
  is_Ok (createFromStatesTable (Platform0:=Pendulum.doubles) Pendulum.model
           Pendulum.statesTable) ∧
  is_Ok (createSystemControlIndexMap Pendulum.model) ∧
  getNumRows Pendulum.statesTable ≠ getNumRows Pendulum.controlsTable3 ∧
  getNumColumns Pendulum.discreteTable1 ≠ 0 ∧
  getNumRows Pendulum.discreteTable1 ≠ getNumRows Pendulum.statesTable ∧
  run.2 = Err (RowCountMismatch StatesVsControls
                 (getNumRows Pendulum.statesTable)
                 (getNumRows Pendulum.controlsTable3)) ∧
  trace run.1 = InitSystem ::
                scanEvents (Platform0:=Pendulum.doubles) Pendulum.model
                  [".*joint_angle"] ++ [AddComponent; InitSystem] ∧
  reporter run.1 =
    mkReporter (matchedOutputs (Platform0:=Pendulum.doubles) Pendulum.model
                  [".*joint_angle"]) true [].
Proof.
  intros run.
  assert (Forall (λ p, is_Some (std_regex (Platform:=Pendulum.doubles) p))
            [".*joint_angle"]) as Hwf.
  { repeat constructor; eexists; by vm_compute. }
  assert (is_Ok (createFromStatesTable (Platform0:=Pendulum.doubles)
                   Pendulum.model Pendulum.statesTable)) as Htraj
    by (by vm_compute).
  assert (is_Ok (createSystemControlIndexMap Pendulum.model)) as Hcmap
    by (by vm_compute).
  assert (getNumRows Pendulum.statesTable ≠
          getNumRows Pendulum.controlsTable3) as H1 by (by vm_compute).
  assert (getNumColumns Pendulum.discreteTable1 ≠ 0) as H2 by (by vm_compute).
  assert (getNumRows Pendulum.discreteTable1 ≠
          getNumRows Pendulum.statesTable) as H3 by (by vm_compute).
  destruct (row_counts_checked_in_order (Platform0:=Pendulum.doubles)
              Pendulum.model Pendulum.statesTable Pendulum.controlsTable3
              [".*joint_angle"] Pendulum.discreteTable1 Hwf Htraj Hcmap)
    as (Hfirst & _ & Hdone).
  destruct (Hdone (or_introl H1)) as [Ht Hrep].
  repeat (split; [assumption|]).
  split; [exact (Hfirst H1)|]. split; [exact Ht|exact Hrep].
Defined.

Lemma collaborator_failures_come_first_witness :
  let run := run_analyze (Platform0:=Pendulum.doubles) Pendulum.misordered
               Pendulum.statesTable Pendulum.controlsTable3
               [".*joint_angle"] emptyTable in
  Forall (λ p, is_Some (std_regex (Platform:=Pendulum.doubles) p))
    [".*joint_angle"] ∧
  is_Ok (createFromStatesTable (Platform0:=Pendulum.doubles)
           Pendulum.misordered Pendulum.statesTable) ∧
  createSystemControlIndexMap Pendulum.misordered =
    Err ControlOrderMismatch ∧
  getNumRows Pendulum.statesTable ≠ getNumRows Pendulum.controlsTable3 ∧
  run.2 = Err ControlOrderMismatch.
Proof.
  intros run.
  assert (Forall (λ p, is_Some (std_regex (Platform:=Pendulum.doubles) p))
            [".*joint_angle"]) as Hwf.
  { repeat constructor; eexists; by vm_compute. }
  assert (is_Ok (createFromStatesTable (Platform0:=Pendulum.doubles)
                   Pendulum.misordered Pendulum.statesTable)) as Htraj
    by (by vm_compute).
  assert (createSystemControlIndexMap Pendulum.misordered =
          Err ControlOrderMismatch) as Hcmap by (by vm_compute).
  split; [exact Hwf|]. split; [exact Htraj|]. split; [exact Hcmap|].
  split; [by vm_compute|].
  exact (proj2 (collaborator_failures_come_first
                  (Platform0:=Pendulum.doubles) Pendulum.misordered
                  Pendulum.statesTable Pendulum.controlsTable3
                  [".*joint_angle"] emptyTable Hwf) _ Htraj Hcmap).
Defined.

Lemma times_of_controls_and_discretes_are_not_read_witness :
  sameEntries Pendulum.controlsTable PendulumRuns.controlsLater ∧
  getRows Pendulum.controlsTable ≠ getRows PendulumRuns.controlsLater ∧
  sameEntries Pendulum.discreteTable Pendulum.discreteTable ∧
  run_analyze (Platform0:=Pendulum.doubles) Pendulum.model
    Pendulum.statesTable Pendulum.controlsTable [".*joint_angle"]
    Pendulum.discreteTable =
  run_analyze (Platform0:=Pendulum.doubles) Pendulum.model
    Pendulum.statesTable PendulumRuns.controlsLater [".*joint_angle"]
    Pendulum.discreteTable.
Proof.
  assert (sameEntries Pendulum.controlsTable PendulumRuns.controlsLater)
    as Hc by (split; reflexivity).
  assert (sameEntries Pendulum.discreteTable Pendulum.discreteTable)
    as Hd by (split; reflexivity).
  split; [exact Hc|]. split; [by vm_compute|]. split; [exact Hd|].
  exact (times_of_controls_and_discretes_are_not_read
           (Platform0:=Pendulum.doubles) _ _ _ _ _ _ _ Hc Hd).
Defined.

Lemma no_sample_before_validation_witness :
  run_analyze (Platform0:=Pendulum.doubles) Pendulum.model
    Pendulum.statesTable Pendulum.controlsTable [".*joint_angle"]
    Pendulum.discreteTable = (Pendulum.world1, Ok Pendulum.table1) ∧
  In (StateAt 0) (trace Pendulum.world1) ∧
  (allOutputs Pendulum.model = [] ∨
   Forall (λ p, is_Some (std_regex (Platform:=Pendulum.doubles) p))
     [".*joint_angle"]) ∧
  is_Ok (createFromStatesTable (Platform0:=Pendulum.doubles) Pendulum.model
           Pendulum.statesTable) ∧
  is_Ok (createSystemControlIndexMap Pendulum.model) ∧
  getNumRows Pendulum.statesTable = getNumRows Pendulum.controlsTable ∧
  (getNumColumns Pendulum.discreteTable ≠ 0 →
   getNumRows Pendulum.discreteTable = getNumRows Pendulum.statesTable ∧
   Forall (λ label,
             is_Ok (getComponent Pendulum.model (getParentPathString label)))
          (getColumnLabels Pendulum.discreteTable)).
Proof.
  assert (run_analyze (Platform0:=Pendulum.doubles) Pendulum.model
            Pendulum.statesTable Pendulum.controlsTable [".*joint_angle"]
            Pendulum.discreteTable = (Pendulum.world1, Ok Pendulum.table1))
    as Hrun by (by vm_compute).
  assert (In (StateAt 0) (trace Pendulum.world1)) as Hin.
  { vm_compute. tauto. }
  split; [exact Hrun|]. split; [exact Hin|].
  exact (no_sample_before_validation (Platform0:=Pendulum.doubles)
           _ _ _ _ _ _ _ _ Hrun Hin).
Defined.
